(** * Retell form integration: call registry, webhook dispatcher,
      transcript retrieval loop and delivery pipeline

    A shallow embedding of the backend of the repository
    ([backend/express.js], the configurable server that supersedes it,
    [config/environment.js] and the [EmailService] class) together with
    the properties the specification states about them.

    Conventions of the embedding.

    - The first part types the requests as the provider and the form
      send them: identifiers, event names and form fields are strings.
      A JavaScript value that the code only tests for truthiness,
      compares with [===] or interpolates is then an [option], [None]
      being [undefined], and the registry is a finite map.
    - Module [Wire] embeds the two request handlers again without that
      typing: a field is any JSON value, the template literals of the
      log lines are evaluated (they throw on a value that has no string
      conversion), and the registry is a JavaScript object with own
      properties and a prototype.  On typed requests the two embeddings
      agree (lemmas [typed_webhook_agrees] and
      [typed_initiate_call_agrees]).
    - The code is asynchronous.  Every effect it has on the outside (a
      provider lookup, a timer, a message handed to a mail transport) is
      appended to the [events] of the [World]; what the outside answers is
      read from an [Env] of oracles, so that a theorem quantified over
      [Env] holds whatever the provider and the transports do.
    - [attemptToGetTranscript] suspends at [await client.call.retrieve]:
      the lookup is a network round trip, so the caller goes on before it
      settles.  The suspended attempt is a [Task] of the world; so is a
      timer armed by [setTimeout].  [event_loop] runs pending tasks, one
      per turn.
    - Console output is not modelled, except for the transcript that the
      ['console'] service prints instead of sending it; module [Wire]
      models in addition the string conversions a log line performs. *)

From Stdlib Require Import ZArith Lia List String.
From stdpp Require Import gmap strings list fin_maps.

Local Open Scope string_scope.
Local Open Scope list_scope.
Local Open Scope Z_scope.

(** ** JavaScript values *)

(** [!!v] for a string or [undefined]. *)
Definition truthy (v : option string) : bool :=
  match v with
  | Some s => negb (String.eqb s "")
  | None => false
  end.

(** [!!v] for a number or [undefined]. *)
Definition truthy_num (v : option Z) : bool :=
  match v with
  | Some n => negb (Z.eqb n 0)
  | None => false
  end.

(** [`${v}`]: the string itself, and ["undefined"] for [undefined]. *)
Definition toStr (v : option string) : string := default "undefined" v.

(** [a || d] on numbers: [d] replaces [NaN] (here [None]) and [0]. *)
Definition or_num (a : option Z) (d : Z) : Z :=
  match a with
  | Some n => if Z.eqb n 0 then d else n
  | None => d
  end.

(** [a || d] on strings. *)
Definition or_str (a : option string) (d : string) : string :=
  match a with
  | Some s => if String.eqb s "" then d else s
  | None => d
  end.

(** The transcript field of a call object: absent, a text, or structured
    dialogue data, which is carried as its rendering by
    [JSON.stringify(transcript, null, 2)]. *)
Inductive Transcript :=
| TUndefined
| TString (s : string)
| TObject (json : string).

Definition truthy_transcript (t : Transcript) : bool :=
  match t with
  | TUndefined => false
  | TString s => negb (String.eqb s "")
  | TObject _ => true
  end.

(** [t === ''] *)
Definition is_empty_string (t : Transcript) : bool :=
  match t with
  | TString s => String.eqb s ""
  | _ => false
  end.

(** ** Configuration ([config/environment.js]) *)

(** The environment variables the modelled code depends on.  The two
    numeric ones are held as [parseInt] returns them: [None] is [NaN]
    (variable unset or not a number). *)
Record ProcessEnv := {
  EMAIL_SERVICE : option string;
  MAX_TRANSCRIPT_RETRIES : option Z;
  RETRY_DELAY_MS : option Z
}.

Record Config := {
  service : string;
  maxRetries : Z;
  retryDelay : Z
}.

Definition config (env : ProcessEnv) : Config :=
  {| service := or_str (EMAIL_SERVICE env) "gmail";
     maxRetries := or_num (MAX_TRANSCRIPT_RETRIES env) 5;
     retryDelay := or_num (RETRY_DELAY_MS env) 15000 |}.

(** [backend/express.js] fixes the same values in the code: Gmail,
    [maxRetries = 5], [retryDelay = 15000]. *)
Definition express_config : Config :=
  {| service := "gmail"; maxRetries := 5; retryDelay := 15000 |}.

(** ** Data model *)

(** A call object of the voice provider, as it arrives in a webhook and
    as [client.call.retrieve] returns it. *)
Record CallObject := {
  call_id : option string;
  call_status : option string;
  disconnection_reason : option string;
  start_timestamp : option Z;
  end_timestamp : option Z;
  duration_ms : option Z;
  transcript : Transcript
}.

(** The value stored in [callMap]. *)
Record CallRecord := {
  email : option string;
  name : option string;
  phone : option string;
  timestamp : string
}.

Inductive Transport := SendGrid | Gmail | MailerSend.

(** The two messages the code composes, by the values interpolated into
    their HTML. *)
Inductive MailBody :=
| TranscriptMail (recipientName transcriptText callId : string) (callData : CallObject)
| IssueMail (recipientName callId : string).

Record Mail := {
  mail_to : option string;
  mail_body : MailBody
}.

Inductive Event :=
| CreatePhoneCall (to_number : string)
| Retrieve (callId : string)
| SetTimeout (delay : Z)
| Send (via : Transport) (m : Mail)
| ConsoleTranscript (to : option string) (recipientName callId transcriptText : string).

(** The closure of one [getTranscriptAndSendEmail] call. *)
Record Chain := {
  chain_callId : string;
  chain_email : option string;
  chain_name : string;
  retryCount : Z
}.

Inductive Task :=
| AwaitRetrieve (n : nat) (c : Chain)
| Timeout (delay : Z) (c : Chain).

Record World := {
  callMap : gmap string CallRecord;
  events : list Event;
  tasks : list Task;
  created : nat;
  retrieved : nat;
  sent : nat
}.

Definition world0 : World :=
  {| callMap := ∅; events := []; tasks := []; created := 0; retrieved := 0; sent := 0 |}.

Inductive RetrieveOutcome :=
| Resolved (callResponse : CallObject)
| Rejected.

(** What the outside answers: the [n]-th call creation, the [n]-th lookup
    and the [n]-th message handed to a transport ([true]: accepted). *)
Record Env := {
  createPhoneCall : nat → string → option string;
  retrieve : nat → string → RetrieveOutcome;
  sendMail : nat → Transport → Mail → bool
}.

Inductive Err :=
| CreateFailed
| RetrieveFailed
| SendFailed (via : Transport)
| NoEmailService
| TypeError.

Inductive ResBody :=
| BSuccess (message : string)
| BError (error : string)
| BErrorCall (error call_id : string)
| BInitiated (message callId : string).

Record Response := Res {
  status : Z;
  body : ResBody
}.

(** ** The monad of handlers: state and exceptions *)

Inductive Result (A : Type) :=
| Ok (a : A)
| Throw (e : Err).
Arguments Ok {A} a.
Arguments Throw {A} e.

Definition M (A : Type) : Type := World → Result A * World.

#[global] Instance M_ret : MRet M := λ A a w, (Ok a, w).

#[global] Instance M_bind : MBind M := λ A B k m w,
  match m w with
  | (Ok a, w') => k a w'
  | (Throw e, w') => (Throw e, w')
  end.

Definition throw {A} (e : Err) : M A := λ w, (Throw e, w).

(** [try { m } catch (e) { h e }] *)
Definition try_catch {A} (m : M A) (h : Err → M A) : M A := λ w,
  match m w with
  | (Ok a, w') => (Ok a, w')
  | (Throw e, w') => h e w'
  end.

Definition gets {A} (f : World → A) : M A := λ w, (Ok (f w), w).

(** Assignments to one component of the world. *)
Definition with_callMap (w : World) (m : gmap string CallRecord) : World :=
  {| callMap := m; events := events w; tasks := tasks w;
     created := created w; retrieved := retrieved w; sent := sent w |}.

Definition with_events (w : World) (evs : list Event) : World :=
  {| callMap := callMap w; events := evs; tasks := tasks w;
     created := created w; retrieved := retrieved w; sent := sent w |}.

Definition with_tasks (w : World) (ts : list Task) : World :=
  {| callMap := callMap w; events := events w; tasks := ts;
     created := created w; retrieved := retrieved w; sent := sent w |}.

Definition with_created (w : World) (n : nat) : World :=
  {| callMap := callMap w; events := events w; tasks := tasks w;
     created := n; retrieved := retrieved w; sent := sent w |}.

Definition with_retrieved (w : World) (n : nat) : World :=
  {| callMap := callMap w; events := events w; tasks := tasks w;
     created := created w; retrieved := n; sent := sent w |}.

Definition with_sent (w : World) (n : nat) : World :=
  {| callMap := callMap w; events := events w; tasks := tasks w;
     created := created w; retrieved := retrieved w; sent := n |}.

Definition set_callMap (f : gmap string CallRecord → gmap string CallRecord) : M unit :=
  λ w, (Ok tt, with_callMap w (f (callMap w))).

Definition emit (e : Event) : M unit := λ w, (Ok tt, with_events w (events w ++ [e])).

Definition spawn (t : Task) : M unit := λ w, (Ok tt, with_tasks w (tasks w ++ [t])).

Definition set_tasks (ts : list Task) : M unit := λ w, (Ok tt, with_tasks w ts).

Definition next_created : M nat := λ w, (Ok (created w), with_created w (S (created w))).

Definition next_retrieved : M nat := λ w, (Ok (retrieved w), with_retrieved w (S (retrieved w))).

Definition next_sent : M nat := λ w, (Ok (sent w), with_sent w (S (sent w))).

Definition result {A} (m : M A) (w : World) : Result A := fst (m w).
Definition exec {A} (m : M A) (w : World) : World := snd (m w).

(** [!!v] for an object or [undefined]. *)
Definition truthy_obj {A} (v : option A) : bool :=
  match v with
  | Some _ => true
  | None => false
  end.

(** ** The server *)

(** Request bodies. *)
Record InitiateBody := {
  body_phone : option string;
  body_name : option string;
  body_email : option string
}.

Record WebhookBody := {
  event : option string;
  call : option CallObject
}.

(** [formatTranscript]: the last line of the source, [String(transcript)],
    is for truthy values that are neither a string nor an object, which
    [Transcript] does not have. *)
Definition formatTranscript (t : Transcript) : string :=
  if negb (truthy_transcript t) then "No transcript available."
  else match t with
       | TString s => s
       | TObject json => json
       | TUndefined => "undefined"
       end.

Section Server.

Variable cfg : Config.
Variable E : Env.

(** [await] of a transport's send: the message is handed over, and the
    call throws when the transport refuses it. *)
Definition send (via : Transport) (m : Mail) : M unit :=
  n ← next_sent;
  emit (Send via m);;
  if sendMail E n via m then mret tt else throw (SendFailed via).

Definition sendEmailWithSendGrid (email : option string) (name transcript callId : string)
    (callData : CallObject) : M unit :=
  try_catch
    (send SendGrid {| mail_to := email; mail_body := TranscriptMail name transcript callId callData |})
    (λ error, throw error).

Definition sendEmailWithGmail (email : option string) (name transcript callId : string)
    (callData : CallObject) : M unit :=
  try_catch
    (send Gmail {| mail_to := email; mail_body := TranscriptMail name transcript callId callData |})
    (λ error, throw error).

Definition sendErrorEmail (email : option string) (name callId : string) : M unit :=
  try_catch
    (if String.eqb (service cfg) "sendgrid"
     then send SendGrid {| mail_to := email; mail_body := IssueMail name callId |}
     else send Gmail {| mail_to := email; mail_body := IssueMail name callId |})
    (λ err, mret tt).

(** [attemptToGetTranscript], up to its [await]: the lookup is issued and
    the attempt is suspended until it settles. *)
Definition attemptToGetTranscript (c : Chain) : M unit :=
  n ← next_retrieved;
  emit (Retrieve (chain_callId c));;
  spawn (AwaitRetrieve n c).

(** [attemptToGetTranscript], from the moment the lookup has settled.  The
    [try] of the source encloses the lookup, so that a rejected lookup
    lands in the same [catch] as a failed send. *)
Definition attempt_settled (c : Chain) (o : RetrieveOutcome) : M unit :=
  let callId := chain_callId c in
  let email := chain_email c in
  let name := chain_name c in
  try_catch
    (callResponse ← match o with
                    | Resolved r => mret r
                    | Rejected => throw RetrieveFailed
                    end;
     if negb (truthy_transcript (transcript callResponse))
        || is_empty_string (transcript callResponse)
     then
       let retryCount' := retryCount c + 1 in
       if Z.ltb retryCount' (maxRetries cfg) then
         emit (SetTimeout (retryDelay cfg));;
         spawn (Timeout (retryDelay cfg)
                  {| chain_callId := callId; chain_email := email; chain_name := name;
                     retryCount := retryCount' |})
       else
         sendErrorEmail email name callId
     else
       let formattedTranscript := formatTranscript (transcript callResponse) in
       if String.eqb (service cfg) "console" then
         emit (ConsoleTranscript email name callId formattedTranscript)
       else if String.eqb (service cfg) "sendgrid" then
         sendEmailWithSendGrid email name formattedTranscript callId callResponse
       else
         sendEmailWithGmail email name formattedTranscript callId callResponse)
    (λ err, sendErrorEmail email name callId).

(** [getTranscriptAndSendEmail(callId, email, name = 'User')]: the first
    attempt is started and not awaited. *)
Definition getTranscriptAndSendEmail (callId : string) (email name : option string) : M unit :=
  attemptToGetTranscript
    {| chain_callId := callId; chain_email := email; chain_name := default "User" name;
       retryCount := 0 |}.

(** One turn of the event loop runs the oldest pending task: a settled
    lookup resumes its attempt, a timer that fires starts the next one. *)
Definition run_task (t : Task) : M unit :=
  match t with
  | AwaitRetrieve n c => attempt_settled c (retrieve E n (chain_callId c))
  | Timeout _ c => attemptToGetTranscript c
  end.

Fixpoint event_loop (turns : nat) : M unit :=
  match turns with
  | O => mret tt
  | S k => λ w,
      match tasks w with
      | [] => (Ok tt, w)
      | t :: rest => (set_tasks rest;; run_task t;; event_loop k) w
      end
  end.

(** [POST /api/initiate-call]; [now] is [new Date().toISOString()]. *)
Definition initiate_call (b : InitiateBody) (now : string) : M Response :=
  let phone := body_phone b in
  let name := body_name b in
  let email := body_email b in
  if negb (truthy phone) || negb (truthy email) then
    mret (Res 400 (BError "Phone and email are required."))
  else
    try_catch
      (n ← next_created;
       emit (CreatePhoneCall ("+91" ++ toStr phone));;
       callId ← match createPhoneCall E n ("+91" ++ toStr phone) with
                | Some id => mret id
                | None => throw CreateFailed
                end;
       set_callMap (insert callId
                      {| email := email; name := name; phone := phone; timestamp := now |});;
       mret (Res 200 (BInitiated "Call initiated successfully." callId)))
      (λ err, mret (Res 500 (BError "Call initiation failed."))).

(** [POST /], the webhook. *)
Definition webhook (b : WebhookBody) : M Response :=
  let event := event b in
  let call := call b in
  if negb (truthy event) || negb (truthy_obj call) || negb (truthy (call ≫= call_id)) then
    mret (Res 400 (BError "Invalid payload structure"))
  else
    let call_id := toStr (call ≫= call_id) in
    let call_status := call ≫= call_status in
    let end_timestamp := call ≫= end_timestamp in
    try_catch
      ((if bool_decide (event = Some "call_started") then
          mret tt
        else if bool_decide (event = Some "call_ended") then
          if bool_decide (call_status = Some "ended") && truthy_num end_timestamp then
            userInfo ← gets (λ w, callMap w !! call_id);
            if truthy_obj userInfo && truthy (userInfo ≫= email) then
              getTranscriptAndSendEmail call_id (userInfo ≫= email) (userInfo ≫= name);;
              set_callMap (delete call_id)
            else
              mret tt
          else
            userInfo ← gets (λ w, callMap w !! call_id);
            if truthy_obj userInfo then set_callMap (delete call_id) else mret tt
        else if bool_decide (event = Some "call_analyzed") then
          mret tt
        else
          mret tt);;
       mret (Res 200 (BSuccess ("Webhook processed for event: " ++ toStr event))))
      (λ error, mret (Res 500 (BErrorCall "Internal server error" call_id))).

End Server.

(** ** The system as a whole: requests served one after the other *)

Inductive Request :=
| Initiate (b : InitiateBody) (now : string)
| Webhook (b : WebhookBody)
| Turns (n : nat).

Definition serve (cfg : Config) (E : Env) (r : Request) (w : World) : World :=
  match r with
  | Initiate b now => exec (initiate_call E b now) w
  | Webhook b => exec (webhook b) w
  | Turns n => exec (event_loop cfg E n) w
  end.

Definition serve_all (cfg : Config) (E : Env) (rs : list Request) (w : World) : World :=
  fold_left (λ w r, serve cfg E r w) rs w.

(** ** The [EmailService] class *)

Module EmailService.

(** The two handles of an instance; [false] is [null]. *)
Record t := {
  mailerSend : bool;
  gmailTransporter : bool
}.

(** The constructor creates each handle when its credentials are
    configured.  ([config/environment.js] exports no
    [mailerSendApiKey]: with that loader the first handle stays [null].) *)
Definition constructor (mailerSendApiKey : option string) (service : string)
    (gmailPassword : option string) : t :=
  {| mailerSend := truthy mailerSendApiKey && String.eqb service "mailersend";
     gmailTransporter := truthy gmailPassword |}.

Section Methods.

Variable E : Env.
Variable this : t.

(** A send through a handle that is [null] is a [TypeError]. *)
Definition sendViaMailerSend (recipientEmail : option string) (content : MailBody) : M unit :=
  if mailerSend this
  then send E MailerSend {| mail_to := recipientEmail; mail_body := content |}
  else throw TypeError.

Definition sendViaGmail (recipientEmail : option string) (content : MailBody) : M unit :=
  if gmailTransporter this
  then send E Gmail {| mail_to := recipientEmail; mail_body := content |}
  else throw TypeError.

Definition sendErrorNotification (recipientEmail : option string) (recipientName callId : string)
    : M unit :=
  try_catch
    (if mailerSend this then
       sendViaMailerSend recipientEmail (IssueMail recipientName callId)
     else if gmailTransporter this then
       sendViaGmail recipientEmail (IssueMail recipientName callId)
     else
       mret tt)
    (λ err, mret tt).

(** [generateTranscriptHTML] shows [transcript || 'No transcript available']. *)
Definition generateTranscriptHTML (name : string) (transcript : option string) (callId : string)
    (callData : CallObject) : MailBody :=
  TranscriptMail name (or_str transcript "No transcript available") callId callData.

(** [sendTranscriptEmail]; the [return] inside the backup [try] is the
    flag [sentByBackup]. *)
Definition sendTranscriptEmail (recipientEmail : option string) (recipientName : string)
    (transcript : option string) (callData : CallObject) : M unit :=
  let callId := toStr (call_id callData) in
  let htmlContent := generateTranscriptHTML recipientName transcript callId callData in
  try_catch
    (if mailerSend this then
       sendViaMailerSend recipientEmail htmlContent
     else if gmailTransporter this then
       sendViaGmail recipientEmail htmlContent
     else
       throw NoEmailService)
    (λ error,
       sentByBackup ← (if mailerSend this && gmailTransporter this then
                         try_catch
                           (sendViaGmail recipientEmail htmlContent;; mret true)
                           (λ backupError, mret false)
                       else
                         mret false);
       if sentByBackup : bool then mret tt
       else
         sendErrorNotification recipientEmail recipientName callId;;
         throw error).

End Methods.

End EmailService.

(** ** Reading a trace *)

Definition is_retrieve (e : Event) : bool :=
  match e with Retrieve _ => true | _ => false end.

Definition is_timer (e : Event) : bool :=
  match e with SetTimeout _ => true | _ => false end.

(** A transcript handed to a transport. *)
Definition is_delivery (e : Event) : bool :=
  match e with
  | Send _ {| mail_body := TranscriptMail _ _ _ _ |} => true
  | _ => false
  end.

(** The message of the failure-notification path. *)
Definition is_notice (e : Event) : bool :=
  match e with
  | Send _ {| mail_body := IssueMail _ _ |} => true
  | _ => false
  end.

Definition count (p : Event → bool) (l : list Event) : nat := length (List.filter p l).

(** The provider answered, and without a transcript. *)
Definition absent_or_empty (o : RetrieveOutcome) : bool :=
  match o with
  | Resolved r => negb (truthy_transcript (transcript r))
  | Rejected => false
  end.

(** The provider answered with a transcript. *)
Definition has_transcript (o : RetrieveOutcome) : bool :=
  match o with
  | Resolved r => truthy_transcript (transcript r)
  | Rejected => false
  end.

(** [j] attempts that found no transcript and armed the timer. *)
Definition polling (cfg : Config) (callId : string) (j : nat) : list Event :=
  concat (replicate j [Retrieve callId; SetTimeout (retryDelay cfg)]).

(** The transport the configuration selects for the server's messages:
    SendGrid for ['sendgrid'], Gmail for every other value. *)
Definition selected_transport (cfg : Config) : Transport :=
  if String.eqb (service cfg) "sendgrid" then SendGrid else Gmail.

(** The message of [sendErrorEmail], handed to its transport. *)
Definition notice (cfg : Config) (email : option string) (name callId : string) : Event :=
  Send (selected_transport cfg) {| mail_to := email; mail_body := IssueMail name callId |}.

(** The message of a delivery. *)
Definition transcript_mail (email : option string) (name callId : string) (r : CallObject) : Mail :=
  {| mail_to := email;
     mail_body := TranscriptMail name (formatTranscript (transcript r)) callId r |}.

(** The closure of a chain after [j] more increments of [retryCount]. *)
Definition retried (c : Chain) (j : Z) : Chain :=
  {| chain_callId := chain_callId c; chain_email := chain_email c; chain_name := chain_name c;
     retryCount := retryCount c + j |}.

(** The world in which a chain, alone, is suspended at its lookup number
    [n], after it has added [evs] to the trace. *)
Definition suspended (w : World) (evs : list Event) (n : nat) (c : Chain) : World :=
  {| callMap := callMap w; events := events w ++ evs; tasks := [AwaitRetrieve n c];
     created := created w; retrieved := S n; sent := sent w |}.

(** The world in which nothing is pending any more: [evs] were added to
    the trace, among them [r] lookups and [s] messages. *)
Definition quiescent (w : World) (evs : list Event) (r s : nat) : World :=
  {| callMap := callMap w; events := events w ++ evs; tasks := [];
     created := created w; retrieved := retrieved w + r; sent := sent w + s |}.

(** The messages of a trace that their transport accepted, when [s]
    messages had been handed over before the trace began. *)
Fixpoint accepted (E : Env) (s : nat) (tr : list Event) : list Event :=
  match tr with
  | [] => []
  | Send via m :: tr' =>
      if sendMail E s via m then Send via m :: accepted E (S s) tr' else accepted E (S s) tr'
  | _ :: tr' => accepted E s tr'
  end.

Definition sent_via (t : Transport) (e : Event) : bool :=
  match e, t with
  | Send SendGrid _, SendGrid | Send Gmail _, Gmail | Send MailerSend _, MailerSend => true
  | _, _ => false
  end.

(** The world after [evs], all of them messages, were handed over. *)
Definition handed_over (w : World) (evs : list Event) : World :=
  {| callMap := callMap w; events := events w ++ evs; tasks := tasks w;
     created := created w; retrieved := retrieved w; sent := sent w + length evs |}.

(** ** Reading a webhook *)

(** The payload check of the webhook passes. *)
Definition valid_payload (b : WebhookBody) : bool :=
  truthy (event b) && truthy_obj (call b) && truthy (call b ≫= call_id).

(** The call of a [call_ended] event counts as completed. *)
Definition completed (b : WebhookBody) : bool :=
  bool_decide (call b ≫= call_status = Some "ended") && truthy_num (call b ≫= end_timestamp).

(** Every stored record has a truthy email. *)
Definition registry_ok (m : gmap string CallRecord) : Prop :=
  ∀ id r, m !! id = Some r → truthy (email r) = true.

(** ** Stubs and sample requests *)

Definition call_object (id : string) (t : Transcript) : CallObject :=
  {| call_id := Some id; call_status := Some "ended";
     disconnection_reason := Some "user_hangup"; start_timestamp := Some 1000;
     end_timestamp := Some 61000; duration_ms := Some 60000; transcript := t |}.

(** A provider whose calls are all named ["call_1"]. *)
Definition stub (answers : nat → string → RetrieveOutcome)
    (accepts : nat → Transport → Mail → bool) : Env :=
  {| createPhoneCall := λ _ _, Some "call_1"; retrieve := answers; sendMail := accepts |}.

(** The transcript is never ready. *)
Definition never_ready : nat → string → RetrieveOutcome :=
  λ _ id, Resolved (call_object id TUndefined).

(** The transcript [text] is ready from the [k]-th lookup on. *)
Definition ready_at (k : nat) (text : string) : nat → string → RetrieveOutcome :=
  λ n id, Resolved (call_object id (if (n <? k - 1)%nat then TUndefined else TString text)).

(** The lookups fail from the [k]-th on. *)
Definition failing_at (k : nat) : nat → string → RetrieveOutcome :=
  λ n id, if (n <? k - 1)%nat then Resolved (call_object id TUndefined) else Rejected.

Definition all_accept : nat → Transport → Mail → bool := λ _ _ _, true.
Definition all_refuse : nat → Transport → Mail → bool := λ _ _ _, false.
Definition only_gmail_accepts : nat → Transport → Mail → bool :=
  λ _ via _, match via with Gmail => true | _ => false end.

(** The configurable server set to SendGrid. *)
Definition sendgrid_config : Config :=
  {| service := "sendgrid"; maxRetries := 5; retryDelay := 15000 |}.

Definition ann : InitiateBody :=
  {| body_phone := Some "9998887776"; body_name := Some "Ann"; body_email := Some "ann@x.com" |}.

Definition call_ended (id : string) : WebhookBody :=
  {| event := Some "call_ended"; call := Some (call_object id TUndefined) |}.

Definition call_failed (id : string) : WebhookBody :=
  {| event := Some "call_ended";
     call := Some {| call_id := Some id; call_status := Some "error";
                     disconnection_reason := Some "dial_failed"; start_timestamp := None;
                     end_timestamp := None; duration_ms := None; transcript := TUndefined |} |}.

Definition empty_body : WebhookBody := {| event := None; call := None |}.

Definition both_transports : EmailService.t :=
  EmailService.constructor (Some "key") "mailersend" (Some "app-password").

(** ** More ways to read a trace *)

Definition is_create (e : Event) : bool :=
  match e with CreatePhoneCall _ => true | _ => false end.

Definition is_send (e : Event) : bool :=
  match e with Send _ _ => true | _ => false end.

Definition is_console (e : Event) : bool :=
  match e with ConsoleTranscript _ _ _ _ => true | _ => false end.

(** [GET /health] and [GET /api/status] report
    [Object.keys(callMap).length]. *)
Definition activeCallsCount (w : World) : nat := size (callMap w).

(** The ways a retrieval chain can end, by what its last attempt adds to
    the trace after its lookup: the failure notice alone; the transcript
    printed (service ['console']); the transcript handed to the selected
    transport and accepted; or handed over, refused, and followed by
    the notice. *)
Inductive chain_end (cfg : Config) (email : option string) (name callId : string)
    : list Event → Prop :=
| end_notice :
    chain_end cfg email name callId [notice cfg email name callId]
| end_console r :
    service cfg = "console" →
    truthy_transcript (transcript r) = true →
    chain_end cfg email name callId
      [ConsoleTranscript email name callId (formatTranscript (transcript r))]
| end_delivered r :
    service cfg ≠ "console" →
    truthy_transcript (transcript r) = true →
    chain_end cfg email name callId
      [Send (selected_transport cfg) (transcript_mail email name callId r)]
| end_refused r :
    service cfg ≠ "console" →
    truthy_transcript (transcript r) = true →
    chain_end cfg email name callId
      [Send (selected_transport cfg) (transcript_mail email name callId r);
       notice cfg email name callId].

(** ** The loader of [config/environment.js]

    [process.env] is a map from names to strings. *)

Definition requiredEnvVars (env : gmap string string) : list string :=
  ["RETELL_API_KEY"; "RETELL_AGENT_ID"]
  ++ (if bool_decide (env !! "EMAIL_SERVICE" = Some "gmail") then ["EMAIL_PASS"] else [])
  ++ (if bool_decide (env !! "EMAIL_SERVICE" = Some "sendgrid") then ["SENDGRID_API_KEY"]
      else []).

Definition missingVars (env : gmap string string) : list string :=
  List.filter (λ varName, negb (truthy (env !! varName))) (requiredEnvVars env).

(** The variables [config] reads, [parseInt] applied where the source
    applies it ([parseInt(undefined)] is [NaN]). *)
Definition process_env (parseInt : string → option Z) (env : gmap string string) : ProcessEnv :=
  {| EMAIL_SERVICE := env !! "EMAIL_SERVICE";
     MAX_TRANSCRIPT_RETRIES := env !! "MAX_TRANSCRIPT_RETRIES" ≫= parseInt;
     RETRY_DELAY_MS := env !! "RETRY_DELAY_MS" ≫= parseInt |}.

(** Loading the module: [None] is [process.exit(1)]. *)
Definition load (parseInt : string → option Z) (env : gmap string string) : option Config :=
  if (0 <? length (missingVars env))%nat then None
  else Some (config (process_env parseInt env)).

(** The number of lookups a chain is allowed under an environment. *)
Definition lookups_allowed (env : ProcessEnv) : nat :=
  match MAX_TRANSCRIPT_RETRIES env with
  | Some n => if Z.eqb n 0 then 5 else if Z.ltb n 0 then 1 else Z.to_nat n
  | None => 5
  end.

(** * Utilities and the form

    The utility module and the form of the frontend work on strings
    character by character.  A JavaScript string is modelled here as the
    list of its UTF-16 code units, which is what [replace], [trim],
    [length] and regular expressions without the [u] flag see. *)

From Stdlib Require Import Ascii DecimalString HexadecimalString.
From Stdlib Require QArith Qround Qfield Lqa DecimalZ.

(** The code unit of an ASCII character, and of a literal. *)
Definition unit_of (a : ascii) : N := N_of_ascii a.

Definition units (s : string) : list N := map unit_of (list_ascii_of_string s).

(** ** Regular expressions

    The expressions of the source use character classes, concatenation
    and bounded or unbounded repetition, anchored at both ends.  They
    are matched with derivatives. *)
Module Regex.

Inductive regex :=
| Void
| Eps
| Class (p : N → bool)
| Cat (a b : regex)
| Alt (a b : regex)
| Star (a : regex).

Fixpoint nullable (r : regex) : bool :=
  match r with
  | Void => false
  | Eps => true
  | Class _ => false
  | Cat a b => nullable a && nullable b
  | Alt a b => nullable a || nullable b
  | Star _ => true
  end.

Fixpoint deriv (c : N) (r : regex) : regex :=
  match r with
  | Void => Void
  | Eps => Void
  | Class p => if p c then Eps else Void
  | Cat a b =>
      if nullable a then Alt (Cat (deriv c a) b) (deriv c b) else Cat (deriv c a) b
  | Alt a b => Alt (deriv c a) (deriv c b)
  | Star a => Cat (deriv c a) (Star a)
  end.

(** [/^r$/.test(s)] *)
Fixpoint test (r : regex) (s : list N) : bool :=
  match s with
  | [] => nullable r
  | c :: s' => test (deriv c r) s'
  end.

(** [r+], [r{n}] and [r{n,}] *)
Definition plus (r : regex) : regex := Cat r (Star r).

Fixpoint times (n : nat) (r : regex) : regex :=
  match n with
  | O => Eps
  | S k => Cat r (times k r)
  end.

Definition at_least (n : nat) (r : regex) : regex := Cat (times n r) (Star r).

(** Character classes: [[lo-hi]] and a single character. *)
Definition range (lo hi : ascii) (c : N) : bool :=
  (unit_of lo <=? c)%N && (c <=? unit_of hi)%N.

Definition char (a : ascii) (c : N) : bool := (c =? unit_of a)%N.

(** The words of an expression. *)
Inductive star (L : list N → Prop) : list N → Prop :=
| star_nil : star L []
| star_app s1 s2 : L s1 → star L s2 → star L (s1 ++ s2).

Fixpoint lang (r : regex) (s : list N) : Prop :=
  match r with
  | Void => False
  | Eps => s = []
  | Class p => ∃ c, s = [c] ∧ p c = true
  | Cat a b => ∃ s1 s2, s = s1 ++ s2 ∧ lang a s1 ∧ lang b s2
  | Alt a b => lang a s ∨ lang b s
  | Star a => star (lang a) s
  end.

End Regex.

(** ** [utils] *)
Module Utils.

Import Regex.

(** [[0-9]] and [\D] *)
Definition digit : N → bool := range "0" "9".
Definition non_digit (c : N) : bool := negb (digit c).

(** [s.replace(/p/g, '')] for a class [p] *)
Definition remove_all (p : N → bool) (s : list N) : list N :=
  List.filter (λ c, negb (p c)) s.

(** [/^[0-9]{10}$/] *)
Definition phoneRegex : regex := times 10 (Class digit).

Definition validatePhoneNumber (phone : list N) : bool :=
  let cleanPhone := remove_all non_digit phone in
  test phoneRegex cleanPhone.

(** [[a-zA-Z0-9._%+-]], [[a-zA-Z0-9.-]] and [[a-zA-Z]] *)
Definition local_char (c : N) : bool :=
  range "a" "z" c || range "A" "Z" c || range "0" "9" c
  || char "." c || char "_" c || char "%" c || char "+" c || char "-" c.

Definition domain_char (c : N) : bool :=
  range "a" "z" c || range "A" "Z" c || range "0" "9" c || char "." c || char "-" c.

Definition letter (c : N) : bool := range "a" "z" c || range "A" "Z" c.

(** [/^[a-zA-Z0-9._%+-]+@[a-zA-Z0-9.-]+\.[a-zA-Z]{2,}$/] *)
Definition emailRegex : regex :=
  Cat (plus (Class local_char))
    (Cat (Class (char "@"))
       (Cat (plus (Class domain_char))
          (Cat (Class (char ".")) (at_least 2 (Class letter))))).

Definition validateEmail (email : list N) : bool := test emailRegex email.

(** [s.slice(a, b)] and [s.slice(a)], for [0 <= a <= b] *)
Definition slice (a b : nat) (s : list N) : list N := take (b - a) (drop a s).
Definition slice_from (a : nat) (s : list N) : list N := drop a s.

Definition formatPhoneNumber (phone : list N) : list N :=
  let cleanPhone := remove_all non_digit phone in
  if (length cleanPhone =? 10)%nat then
    units "(" ++ slice 0 3 cleanPhone ++ units ") " ++ slice 3 6 cleanPhone
    ++ units "-" ++ slice_from 6 cleanPhone
  else phone.

(** [(n).toString(16)] *)
Definition toString16 (n : N) : list N :=
  units (HexadecimalString.NilZero.string_of_uint (N.to_hex_uint n)).

(** [template.replace(/[x]/g, () => ...)]: the callback is called once
    for each [x], from left to right; [i] counts the calls so far. *)
Fixpoint replace_each_x (f : nat → list N) (template : list N) (i : nat) : list N :=
  match template with
  | [] => []
  | c :: rest =>
      if char "x" c then f i ++ replace_each_x f rest (S i)
      else c :: replace_each_x f rest i
  end.

(** [generateSimpleId]; [random16 i] is the value of
    [Math.random() * 16 | 0] at the [i]-th call. *)
Definition generateSimpleId (random16 : nat → N) : list N :=
  replace_each_x (λ i, toString16 (random16 i)) (units "xxxx-xxxx-xxxx") 0.

(** [s.replace(/c/g, by)] for a character [c] *)
Definition replace_all (c : ascii) (by_ : string) (s : list N) : list N :=
  flat_map (λ u, if char c u then units by_ else [u]) s.

(** White space and line terminators, as [trim] strips them. *)
Definition white_space (u : N) : bool :=
  ((9 <=? u) && (u <=? 13) || (u =? 32) || (u =? 160) || (u =? 5760)
   || (8192 <=? u) && (u <=? 8202) || (u =? 8232) || (u =? 8233) || (u =? 8239)
   || (u =? 8287) || (u =? 12288) || (u =? 65279))%N.

Fixpoint drop_while (p : N → bool) (s : list N) : list N :=
  match s with
  | [] => []
  | u :: rest => if p u then drop_while p rest else s
  end.

Definition trim (s : list N) : list N :=
  rev (drop_while white_space (rev (drop_while white_space s))).

(** [sanitizeInput]: a value that is not a string is returned as it is. *)
Definition sanitizeInput {A} (input : list N + A) : list N + A :=
  match input with
  | inr other => inr other
  | inl s =>
      inl (trim
             (replace_all "'" "&#x27;"
                (replace_all "034" "&quot;"
                   (replace_all ">" "&gt;"
                      (replace_all "<" "&lt;"
                         (replace_all "&" "&amp;" s))))))
  end.

(** A number in a template literal. *)
Definition show (z : Z) : list N := units (DecimalString.NilZero.string_of_int (Z.to_int z)).

(** [formatDuration]; [None] is [undefined] or [NaN], and [ms] is a
    whole number of milliseconds.  Numbers are doubles: [a / b] is the
    double nearest to the quotient, which [nearest] gives for a
    rational, and [Math.floor] is taken of that.  ([%] is exact on
    whole numbers, and a whole number below [10^21] is shown in full.) *)
Section Duration.

Variable nearest : QArith_base.Q → QArith_base.Q.

(** [Math.floor(a / b)] *)
Definition floor_div (a b : Z) : Z :=
  Qround.Qfloor
    (nearest (QArith_base.Qdiv (QArith_base.inject_Z a) (QArith_base.inject_Z b))).

Definition formatDuration (ms : option Z) : list N :=
  match ms with
  | None => units "N/A"
  | Some ms =>
      if Z.eqb ms 0 || Z.ltb ms 0 then units "N/A"
      else
        let seconds := floor_div ms 1000 in
        let minutes := floor_div seconds 60 in
        let hours := floor_div minutes 60 in
        if Z.ltb 0 hours then
          show hours ++ units "h " ++ show (Z.rem minutes 60) ++ units "m "
          ++ show (Z.rem seconds 60) ++ units "s"
        else if Z.ltb 0 minutes then
          show minutes ++ units "m " ++ show (Z.rem seconds 60) ++ units "s"
        else
          show seconds ++ units "s"
  end.

End Duration.

(** [retryWithBackoff].  [fn i] is what the [i]-th call of the function
    does: it returns a value (or nothing: [None]) or throws.  What the loop does to the
    outside is the list of its calls and waits. *)
Section Retry.

Context {A Er : Type}.

Inductive RetryEvent :=
| Invoked
| Waited (delay : Z).

(** [Returned v] is the value the promise resolves to, [None] being
    [undefined]: that is what a call of the function gives when it
    returns nothing, and what the loop gives when it ends without
    [return].  [Unfinished] stands for a loop cut short by [fuel]. *)
Inductive Outcome :=
| Returned (value : option A)
| Thrown (error : Er)
| Unfinished.

Variable fn : nat → option A + Er.

Fixpoint attempts (fuel : nat) (attempt : Z) (calls : nat) (maxRetries baseDelay : Z)
    : list RetryEvent * Outcome :=
  if negb (attempt <=? maxRetries) then ([], Returned None)
  else
    match fuel with
    | O => ([], Unfinished)
    | S fuel' =>
        match fn calls with
        | inl value => ([Invoked], Returned value)
        | inr error =>
            if attempt =? maxRetries then ([Invoked], Thrown error)
            else
              let delay := baseDelay * 2 ^ (attempt - 1) in
              let (tr, o) := attempts fuel' (attempt + 1) (S calls) maxRetries baseDelay in
              (Invoked :: Waited delay :: tr, o)
        end
    end.

(** [retryWithBackoff(fn, maxRetries = 3, baseDelay = 1000)] *)
Definition retryWithBackoff (maxRetries baseDelay : option Z) : list RetryEvent * Outcome :=
  let maxRetries := default 3 maxRetries in
  let baseDelay := default 1000 baseDelay in
  attempts (Z.to_nat maxRetries) 1 0 maxRetries baseDelay.

End Retry.

End Utils.

(** ** The form ([App.jsx]) *)
Module App.

Import Regex.

(** The form tests the phone as it was typed. *)
Definition validatePhoneNumber (phone : list N) : bool := test Utils.phoneRegex phone.

Definition validateEmail (email : list N) : bool := test Utils.emailRegex email.

(** The checks of [handleSubmit]: the message it shows, or [None] when
    it goes on to post the form. *)
Definition validation_error (name phone gmail : list N) : option string :=
  if negb (0 <? length (Utils.trim name))%nat then Some "Name is required"
  else if negb (validatePhoneNumber phone) then
    Some "Please enter a valid 10-digit phone number"
  else if negb (validateEmail gmail) then Some "Please enter a valid email address"
  else None.

End App.

(** The characters [sanitizeInput] replaces. *)
Definition special (u : N) : bool :=
  Regex.char "&" u || Regex.char "<" u || Regex.char ">" u || Regex.char "034" u
  || Regex.char "'" u.

(** What [sanitizeInput] puts in the place of one code unit. *)
Definition entity (u : N) : list N :=
  if Regex.char "&" u then units "&amp;"
  else if Regex.char "<" u then units "&lt;"
  else if Regex.char ">" u then units "&gt;"
  else if Regex.char "034" u then units "&quot;"
  else if Regex.char "'" u then units "&#x27;"
  else [u].

(** The characters that open or close a tag or an attribute value. *)
Definition markup (u : N) : bool :=
  Regex.char "<" u || Regex.char ">" u || Regex.char "034" u || Regex.char "'" u.

(** The shape of the addresses that [emailRegex] describes: a local
    part, [@], a domain, a dot and at least two letters. *)
Definition email_shape (s : list N) : Prop :=
  ∃ l d t,
    s = l ++ units "@" ++ d ++ units "." ++ t
    ∧ l ≠ [] ∧ forallb Utils.local_char l = true
    ∧ d ≠ [] ∧ forallb Utils.domain_char d = true
    ∧ (2 ≤ length t)%nat ∧ forallb Utils.letter t = true.

(** The calls and waits of [k] failed attempts, the first of them the
    attempt after [a] earlier ones. *)
Definition failed_attempts (baseDelay : Z) (a k : nat) : list Utils.RetryEvent :=
  flat_map (λ i, [Utils.Invoked; Utils.Waited (baseDelay * 2 ^ Z.of_nat i)]) (seq a k).

Definition calls_of (tr : list Utils.RetryEvent) : nat :=
  length (List.filter (λ e, match e with Utils.Invoked => true | _ => false end) tr).

Fixpoint waited (tr : list Utils.RetryEvent) : Z :=
  match tr with
  | [] => 0
  | Utils.Waited d :: rest => d + waited rest
  | Utils.Invoked :: rest => waited rest
  end.

(** A string of ASCII characters, as the server receives it. *)
Definition ascii_string (s : list N) : string := string_of_list_ascii (map ascii_of_N s).

(** The body the form posts once its checks have passed; [name] is the
    name as it arrives. *)
Definition posted (name : option string) (phone gmail : list N) : InitiateBody :=
  {| body_phone := Some (ascii_string phone);
     body_name := name;
     body_email := Some (ascii_string gmail) |}.

(** [[0-9a-f]] *)
Definition hex_digit (c : N) : bool := Regex.range "0" "9" c || Regex.range "a" "f" c.

(** ** More sample requests *)

(** The server once Ann's form has been received. *)
Definition ann_registered_world : World :=
  serve_all express_config (stub never_ready all_accept) [Initiate ann "t0"] world0.

(** An environment that sets the number of retries to zero. *)
Definition zero_retries : ProcessEnv :=
  {| EMAIL_SERVICE := None; MAX_TRANSCRIPT_RETRIES := Some 0; RETRY_DELAY_MS := None |}.

(** A function that fails twice and then returns 7, and one that
    always fails, with the number of the call as the error. *)
Definition third_time_lucky : nat → option Z + string :=
  λ i, if (i <? 2)%nat then inr "down" else inl (Some 7).

Definition always_failing : nat → option Z + nat := λ i, inr i.

(** A division without rounding error. *)
Definition exact : QArith_base.Q → QArith_base.Q := λ q, q.

(** Draws that go round the sixteen values in steps of seven. *)
Definition step_seven : nat → N := λ i, (N.of_nat i * 7 mod 16)%N.

(** * The handlers on bodies as they arrive

    [express.json()] hands the handlers whatever JSON object the client
    sent, and the registry is a JavaScript object.  This module embeds
    the two handlers without the typing of the section above:

    - a field is any JSON value, or absent;
    - the template literals of the log lines are evaluated: a value
      without a string conversion makes them throw a [TypeError];
    - [callMap] is an object with own properties and a prototype, so
      that the key ["__proto__"] and the names of [Object.prototype]
      behave as they do in JavaScript.

    The retrieval chain, the trace and the pending tasks are those of
    the section above. *)
Module Wire.

(** A JSON value after [JSON.parse].  A number is held as the string
    that [String] gives for it (so [-0] is ["0"]); an object is held as
    its own properties, each name once. *)
#[warnings="-register-all"]
Inductive JSON :=
| JNull
| JBool (b : bool)
| JNumber (shown : string)
| JString (s : string)
| JArray (items : list JSON)
| JObject (props : list (string * JSON)).

(** A value read from a body: [None] is [undefined]. *)
Definition Value : Type := option JSON.

(** [!!v].  JSON has no [NaN]: the only falsy number is zero. *)
Definition truthy (v : Value) : bool :=
  match v with
  | None => false
  | Some JNull => false
  | Some (JBool b) => b
  | Some (JNumber shown) => negb (String.eqb shown "0")
  | Some (JString s) => negb (String.eqb s "")
  | Some (JArray _) => true
  | Some (JObject _) => true
  end.

(** [v === 'literal'] *)
Definition is_string (v : Value) (literal : string) : bool :=
  match v with
  | Some (JString s) => String.eqb s literal
  | _ => false
  end.

Fixpoint own (k : string) (props : list (string * JSON)) : Value :=
  match props with
  | [] => None
  | (k', v) :: rest => if String.eqb k k' then Some v else own k rest
  end.

(** [v.k], for the names the handlers read ([event], [call],
    [call_id], [email], ...): no prototype defines them, so on a
    string, a number, a boolean or an array they are [undefined].  The
    handlers read a property only from a truthy value. *)
Definition get (v : Value) (k : string) : Value :=
  match v with
  | Some (JObject props) => own k props
  | _ => None
  end.

(** [String(v)], which is what a template literal and a property key
    apply; [None] is a [TypeError].  An object parsed from JSON is
    converted by [Object.prototype.toString] unless it has an own
    property [toString], which cannot be a function: then [valueOf]
    returns the object itself and the conversion fails.  An array is
    converted by [join], which shows [null] as the empty string. *)
Fixpoint toString (v : JSON) : option string :=
  match v with
  | JNull => Some "null"
  | JBool b => Some (if b then "true" else "false")
  | JNumber shown => Some shown
  | JString s => Some s
  | JArray items =>
      (fix join (l : list JSON) : option string :=
         match l with
         | [] => Some ""
         | x :: rest =>
             match (match x with JNull => Some "" | _ => toString x end) with
             | None => None
             | Some s =>
                 match rest with
                 | [] => Some s
                 | _ :: _ =>
                     match join rest with
                     | None => None
                     | Some t => Some (s ++ "," ++ t)%string
                     end
                 end
             end
         end) items
  | JObject props =>
      match own "toString" props with
      | Some _ => None
      | None => Some "[object Object]"
      end
  end.

(** [`${v}`] *)
Definition str (v : Value) : option string :=
  match v with
  | None => Some "undefined"
  | Some j => toString j
  end.

Definition stringifiable (v : Value) : bool :=
  match str v with
  | Some _ => true
  | None => false
  end.

(** The string of a value that has one. *)
Definition text (v : Value) : string := default "" (str v).

(** ** The registry as an object *)

(** The value stored in [callMap]: the fields are those of the body. *)
Record CallRecord := {
  email : Value;
  name : Value;
  phone : Value;
  timestamp : string
}.

(** [callMap]: its own properties, and its prototype when an assignment
    to ["__proto__"] has replaced [Object.prototype] by a record. *)
Record CallMap := {
  entries : gmap string CallRecord;
  prototype : option CallRecord
}.

Definition empty : CallMap := {| entries := ∅; prototype := None |}.

(** What [callMap[k]] evaluates to: a record, a plain value (a field of
    the record that is the prototype, or [undefined]), or a built-in
    (a method of [Object.prototype], or [Object.prototype] itself). *)
Inductive Found :=
| Stored (r : CallRecord)
| Plain (v : Value)
| Builtin.

Definition object_prototype_names : list string :=
  ["constructor"; "__defineGetter__"; "__defineSetter__"; "hasOwnProperty";
   "__lookupGetter__"; "__lookupSetter__"; "isPrototypeOf"; "propertyIsEnumerable";
   "toString"; "valueOf"; "toLocaleString"].

Definition builtin (k : string) : Found :=
  if bool_decide (k ∈ object_prototype_names) then Builtin else Plain None.

(** [callMap[k]] *)
Definition lookup (m : CallMap) (k : string) : Found :=
  if String.eqb k "__proto__" then
    match prototype m with
    | Some r => Stored r
    | None => Builtin
    end
  else
    match entries m !! k with
    | Some r => Stored r
    | None =>
        match prototype m with
        | Some r =>
            if String.eqb k "email" then Plain (email r)
            else if String.eqb k "name" then Plain (name r)
            else if String.eqb k "phone" then Plain (phone r)
            else if String.eqb k "timestamp" then Plain (Some (JString (timestamp r)))
            else builtin k
        | None => builtin k
        end
    end.

(** [callMap[k] = r]: the setter of ["__proto__"] replaces the
    prototype and adds no property. *)
Definition assign (k : string) (r : CallRecord) (m : CallMap) : CallMap :=
  if String.eqb k "__proto__" then {| entries := entries m; prototype := Some r |}
  else {| entries := <[k := r]> (entries m); prototype := prototype m |}.

(** [delete callMap[k]] removes an own property, if there is one. *)
Definition remove (k : string) (m : CallMap) : CallMap :=
  {| entries := delete k (entries m); prototype := prototype m |}.

(** [Object.keys(callMap).length] *)
Definition size (m : CallMap) : nat := base.size (entries m).

Definition truthy_found (f : Found) : bool :=
  match f with
  | Stored _ => true
  | Plain v => truthy v
  | Builtin => true
  end.

(** [userInfo.email] and [userInfo.name] for a truthy [userInfo].  A
    built-in has no [email]; the handler reads [name] only after it
    has found [email] truthy. *)
Definition field_email (f : Found) : Value :=
  match f with
  | Stored r => email r
  | Plain v => get v "email"
  | Builtin => None
  end.

Definition field_name (f : Found) : Value :=
  match f with
  | Stored r => name r
  | Plain v => get v "name"
  | Builtin => None
  end.

(** ** State and handlers *)

Record State := {
  callMap : CallMap;
  events : list Event;
  tasks : list Task;
  created : nat;
  retrieved : nat;
  sent : nat
}.

Definition state0 : State :=
  {| callMap := empty; events := []; tasks := []; created := 0; retrieved := 0; sent := 0 |}.

Inductive ResBody :=
| BSuccess (message : string)
| BError (error : string)
| BErrorCall (error : string) (call_id : Value)
| BInitiated (message callId : string).

Record Response := Res {
  status : Z;
  body : ResBody
}.

Definition M (A : Type) : Type := State → Result A * State.

Definition ret {A} (a : A) : M A := λ s, (Ok a, s).

Definition bind {A B} (m : M A) (k : A → M B) : M B := λ s,
  match m s with
  | (Ok a, s') => k a s'
  | (Throw e, s') => (Throw e, s')
  end.

#[global] Instance M_ret : MRet M := @ret.
#[global] Instance M_bind : MBind M := λ A B k m, bind m k.

Definition throw {A} (e : Err) : M A := λ s, (Throw e, s).

Definition try_catch {A} (m : M A) (h : Err → M A) : M A := λ s,
  match m s with
  | (Ok a, s') => (Ok a, s')
  | (Throw e, s') => h e s'
  end.

Definition result {A} (m : M A) (s : State) : Result A := fst (m s).
Definition exec {A} (m : M A) (s : State) : State := snd (m s).

(** The part of the state the retrieval chain works on, and a step of
    the chain or of the event loop run on it.  The chain does not read
    the registry. *)
Definition world_of (s : State) : World :=
  Build_World ∅ (events s) (tasks s) (created s) (retrieved s) (sent s).

Definition with_world (s : State) (w : World) : State :=
  let '(Build_World _ evs ts c r n) := w in
  {| callMap := callMap s; events := evs; tasks := ts; created := c; retrieved := r;
     sent := n |}.

Definition lift {A} (m : World → Result A * World) : M A := λ s,
  let (r, w) := m (world_of s) in (r, with_world s w).

Definition set_callMap (f : CallMap → CallMap) : M unit := λ s,
  (Ok tt,
   {| callMap := f (callMap s); events := events s; tasks := tasks s;
      created := created s; retrieved := retrieved s; sent := sent s |}).

Definition gets {A} (f : State → A) : M A := λ s, (Ok (f s), s).

Definition emit (e : Event) : M unit := λ s,
  (Ok tt,
   {| callMap := callMap s; events := events s ++ [e]; tasks := tasks s;
      created := created s; retrieved := retrieved s; sent := sent s |}).

Definition next_created : M nat := λ s,
  (Ok (created s),
   {| callMap := callMap s; events := events s; tasks := tasks s;
      created := S (created s); retrieved := retrieved s; sent := sent s |}).

(** A log line: console output is not modelled, but the template
    literal converts each interpolated value to a string, from left to
    right, and throws when one of them has no conversion. *)
Definition log (interpolated : list Value) : M unit :=
  if forallb stringifiable interpolated then ret tt else throw TypeError.

Section Handlers.

Variable E : Env.

(** [POST /api/initiate-call]; [now] is [new Date().toISOString()]. *)
Definition initiate_call (b : JSON) (now : string) : M Response :=
  let phone := get (Some b) "phone" in
  let name := get (Some b) "name" in
  let email := get (Some b) "email" in
  if negb (truthy phone) || negb (truthy email) then
    ret (Res 400 (BError "Phone and email are required."))
  else
    try_catch
      (to_number ← match str phone with
                   | Some p => ret ("+91" ++ p)%string
                   | None => throw TypeError
                   end;
       n ← next_created;
       emit (CreatePhoneCall to_number);;
       callId ← match createPhoneCall E n to_number with
                | Some id => ret id
                | None => throw CreateFailed
                end;
       set_callMap (assign callId
                      {| email := email; name := name; phone := phone; timestamp := now |});;
       log [Some (JString callId); email; name];;
       ret (Res 200 (BInitiated "Call initiated successfully." callId)))
      (λ err, ret (Res 500 (BError "Call initiation failed."))).

(** [POST /], the webhook.  The first log line stands before the
    [try]: when it throws, the handler answers nothing.  The retrieval
    chain reads [callId] and [name] only inside template literals and
    hands [email] to the transport unread; the log line before its
    start has converted all three to strings, and they are passed on as
    these strings ([name] as [undefined] when it is absent, for the
    default ['User']). *)
Definition webhook (b : JSON) : M Response :=
  let event := get (Some b) "event" in
  let call := get (Some b) "call" in
  if negb (truthy event) || negb (truthy call) || negb (truthy (get call "call_id")) then
    ret (Res 400 (BError "Invalid payload structure"))
  else
    let call_id := get call "call_id" in
    let call_status := get call "call_status" in
    let direction := get call "direction" in
    let disconnection_reason := get call "disconnection_reason" in
    let end_timestamp := get call "end_timestamp" in
    log [event; call_id; call_status; direction];;
    try_catch
      ((if is_string event "call_started" then
          log [call_id]
        else if is_string event "call_ended" then
          log [call_id; disconnection_reason];;
          if is_string call_status "ended" && truthy end_timestamp then
            userInfo ← gets (λ s, lookup (callMap s) (text call_id));
            if truthy_found userInfo && truthy (field_email userInfo) then
              log [call_id; field_email userInfo; field_name userInfo];;
              lift (getTranscriptAndSendEmail (text call_id)
                      (Some (text (field_email userInfo)))
                      (match field_name userInfo with
                       | None => None
                       | Some _ => Some (text (field_name userInfo))
                       end));;
              set_callMap (remove (text call_id));;
              log [call_id]
            else
              log [call_id]
          else
            log [call_id; call_status; disconnection_reason];;
            userInfo ← gets (λ s, lookup (callMap s) (text call_id));
            if truthy_found userInfo then
              set_callMap (remove (text call_id));;
              log [call_id]
            else
              ret tt
        else if is_string event "call_analyzed" then
          log [call_id]
        else
          log [event; call_id]);;
       ret (Res 200 (BSuccess ("Webhook processed for event: " ++ text event))))
      (λ error, ret (Res 500 (BErrorCall "Internal server error" call_id))).

End Handlers.

(** [GET /health] and [GET /api/status] report
    [Object.keys(callMap).length]. *)
Definition activeCallsCount (s : State) : nat := size (callMap s).

(** ** Reading a body *)

(** [call.k] *)
Definition call_field (b : JSON) (k : string) : Value := get (get (Some b) "call") k.

(** The payload check of the webhook passes. *)
Definition valid_payload (b : JSON) : bool :=
  truthy (get (Some b) "event") && truthy (get (Some b) "call")
  && truthy (call_field b "call_id").

(** The call of a [call_ended] event counts as completed. *)
Definition completed (b : JSON) : bool :=
  is_string (call_field b "call_status") "ended" && truthy (call_field b "end_timestamp").

(** The values of the first log line of the webhook. *)
Definition first_log (b : JSON) : list Value :=
  [get (Some b) "event"; call_field b "call_id"; call_field b "call_status";
   call_field b "direction"].

(** The key under which the webhook looks its call up. *)
Definition key (b : JSON) : string := text (call_field b "call_id").

(** The record [initiate_call] makes of a body. *)
Definition record_of (b : JSON) (now : string) : CallRecord :=
  {| email := get (Some b) "email"; name := get (Some b) "name";
     phone := get (Some b) "phone"; timestamp := now |}.

(** The closure of the chain the webhook starts for a found record. *)
Definition chain_for (id : string) (found : Found) : Chain :=
  {| chain_callId := id;
     chain_email := Some (text (field_email found));
     chain_name := match field_name found with
                   | None => "User"
                   | Some _ => text (field_name found)
                   end;
     retryCount := 0 |}.

(** The state once the webhook has started the chain of [found] and
    removed the entry. *)
Definition processed (s : State) (id : string) (found : Found) : State :=
  {| callMap := remove id (callMap s);
     events := events s ++ [Retrieve id];
     tasks := tasks s ++ [AwaitRetrieve (retrieved s) (chain_for id found)];
     created := created s; retrieved := S (retrieved s); sent := sent s |}.

Definition with_callMap (s : State) (m : CallMap) : State :=
  {| callMap := m; events := events s; tasks := tasks s;
     created := created s; retrieved := retrieved s; sent := sent s |}.

(** Every record of the registry, the one that may have become its
    prototype included, has a truthy email. *)
Definition registry_ok (m : CallMap) : Prop :=
  (∀ id r, entries m !! id = Some r → truthy (email r) = true)
  ∧ (∀ r, prototype m = Some r → truthy (email r) = true).

(** The state once the provider has been asked to call [to_number]. *)
Definition asked (s : State) (to_number : string) : State :=
  {| callMap := callMap s; events := events s ++ [CreatePhoneCall to_number];
     tasks := tasks s; created := S (created s); retrieved := retrieved s; sent := sent s |}.

(** ** Sample bodies *)

(** An object without a string conversion. *)
Definition unloggable : JSON := JObject [("toString", JNumber "0")].

Definition ann : JSON :=
  JObject [("name", JString "Ann"); ("phone", JString "9998887776");
           ("email", JString "ann@x.com")].

Definition call_ended (id : string) : JSON :=
  JObject [("event", JString "call_ended");
           ("call", JObject [("call_id", JString id); ("call_status", JString "ended");
                             ("disconnection_reason", JString "user_hangup");
                             ("end_timestamp", JNumber "61000")])].

Definition call_failed (id : string) (reason : JSON) : JSON :=
  JObject [("event", JString "call_ended");
           ("call", JObject [("call_id", JString id); ("call_status", JString "error");
                             ("disconnection_reason", reason)])].

Definition call_started (id : string) : JSON :=
  JObject [("event", JString "call_started");
           ("call", JObject [("call_id", JString id); ("call_status", JString "ongoing");
                             ("direction", JString "outbound")])].

(** The server once Ann's form has been received. *)
Definition ann_registered : State :=
  exec (initiate_call (stub never_ready all_accept) ann "t0") state0.

End Wire.

(** ** Typed requests as bodies

    The requests of the section before, as the bodies that carry them:
    a field that is [None] is left out, a string is a JSON string and a
    number a JSON number.  On such bodies the handlers above do what
    the typed handlers do (lemmas [typed_webhook_agrees] and
    [typed_initiate_call_agrees]). *)

Definition json_text (v : option string) : Wire.Value := Wire.JString <$> v.

(** [String(z)] for a whole number. *)
Definition string_of_Z (z : Z) : string := DecimalString.NilZero.string_of_int (Z.to_int z).

Definition json_number (v : option Z) : Wire.Value :=
  (λ z, Wire.JNumber (string_of_Z z)) <$> v.

(** An object with the properties of the list that have a value. *)
Definition json_object (l : list (string * Wire.Value)) : Wire.JSON :=
  Wire.JObject (omap (λ kv, (λ v, (kv.1, v)) <$> kv.2) l).

Definition json_form (b : InitiateBody) : Wire.JSON :=
  json_object [("phone", json_text (body_phone b)); ("name", json_text (body_name b));
               ("email", json_text (body_email b))].

Definition json_call (c : CallObject) : Wire.JSON :=
  json_object [("call_id", json_text (call_id c));
               ("call_status", json_text (call_status c));
               ("disconnection_reason", json_text (disconnection_reason c));
               ("end_timestamp", json_number (end_timestamp c))].

Definition json_event (b : WebhookBody) : Wire.JSON :=
  json_object [("event", json_text (event b)); ("call", json_call <$> call b)].

Definition json_record (r : CallRecord) : Wire.CallRecord :=
  {| Wire.email := json_text (email r); Wire.name := json_text (name r);
     Wire.phone := json_text (phone r); Wire.timestamp := timestamp r |}.

Definition json_response (r : Response) : Wire.Response :=
  Wire.Res (status r)
    match body r with
    | BSuccess message => Wire.BSuccess message
    | BError error => Wire.BError error
    | BErrorCall error id => Wire.BErrorCall error (Some (Wire.JString id))
    | BInitiated message id => Wire.BInitiated message id
    end.

Definition json_result (r : Result Response) : Result Wire.Response :=
  match r with
  | Ok a => Ok (json_response a)
  | Throw e => Throw e
  end.

(** A world of the typed section as a state: its records are own
    properties of the registry, whose prototype is [Object.prototype]. *)
Definition json_state (w : World) : Wire.State :=
  {| Wire.callMap := {| Wire.entries := json_record <$> callMap w; Wire.prototype := None |};
     Wire.events := events w; Wire.tasks := tasks w; Wire.created := created w;
     Wire.retrieved := retrieved w; Wire.sent := sent w |}.

(** * Properties *)

(** ** The retrieval loop *)

Section RetrievalLoop.

Variable cfg : Config.
Variable E : Env.

(** *** What each function does to the world *)

Lemma attemptToGetTranscript_run c w :
  attemptToGetTranscript c w =
  (Ok tt, {| callMap := callMap w; events := events w ++ [Retrieve (chain_callId c)];
             tasks := tasks w ++ [AwaitRetrieve (retrieved w) c];
             created := created w; retrieved := S (retrieved w); sent := sent w |}).
Proof. reflexivity. Qed.

Lemma send_run via m w :
  send E via m w =
  (if sendMail E (sent w) via m then Ok tt else Throw (SendFailed via),
   {| callMap := callMap w; events := events w ++ [Send via m]; tasks := tasks w;
      created := created w; retrieved := retrieved w; sent := S (sent w) |}).
Proof.
  unfold send, mbind, M_bind, next_sent, emit, with_sent, with_events. cbn.
  now destruct (sendMail E (sent w) via m).
Qed.

(** [sendErrorEmail] hands over one message and never throws. *)
Lemma sendErrorEmail_run email name callId w :
  sendErrorEmail cfg E email name callId w =
  (Ok tt, {| callMap := callMap w; events := events w ++ [notice cfg email name callId];
             tasks := tasks w; created := created w; retrieved := retrieved w;
             sent := S (sent w) |}).
Proof.
  unfold sendErrorEmail, notice, selected_transport, try_catch.
  destruct (String.eqb (service cfg) "sendgrid"); rewrite send_run;
    now destruct (sendMail E (sent w) _ _).
Qed.

Lemma truthy_not_empty t : truthy_transcript t = true → is_empty_string t = false.
Proof.
  destruct t as [|s|j]; cbn; try reflexivity; try discriminate.
  now intros ->%negb_true_iff.
Qed.

Ltac open_attempt :=
  unfold attempt_settled, try_catch; unfold mbind, M_bind, mret, M_ret; cbv beta iota zeta.

Lemma attempt_settled_retry c r w :
  truthy_transcript (transcript r) = false →
  retryCount c + 1 < maxRetries cfg →
  attempt_settled cfg E c (Resolved r) w =
  (Ok tt, {| callMap := callMap w; events := events w ++ [SetTimeout (retryDelay cfg)];
             tasks := tasks w ++ [Timeout (retryDelay cfg) (retried c 1)];
             created := created w; retrieved := retrieved w; sent := sent w |}).
Proof.
  intros Ht Hlt. apply Z.ltb_lt in Hlt. open_attempt.
  rewrite Ht. cbn [negb orb]. rewrite Hlt. reflexivity.
Qed.

Lemma attempt_settled_exhausted c r w :
  truthy_transcript (transcript r) = false →
  maxRetries cfg ≤ retryCount c + 1 →
  attempt_settled cfg E c (Resolved r) w =
  sendErrorEmail cfg E (chain_email c) (chain_name c) (chain_callId c) w.
Proof.
  intros Ht Hge. apply Z.ltb_ge in Hge. open_attempt.
  rewrite Ht. cbn [negb orb]. rewrite Hge. now rewrite sendErrorEmail_run.
Qed.

(** A lookup that throws goes to [sendErrorEmail], whatever [retryCount]
    is, and arms no timer. *)
Lemma attempt_settled_rejected c w :
  attempt_settled cfg E c Rejected w =
  sendErrorEmail cfg E (chain_email c) (chain_name c) (chain_callId c) w.
Proof. reflexivity. Qed.

Lemma attempt_settled_transcript c r w :
  truthy_transcript (transcript r) = true →
  attempt_settled cfg E c (Resolved r) w =
  if String.eqb (service cfg) "console" then
    (Ok tt, with_events w (events w ++
       [ConsoleTranscript (chain_email c) (chain_name c) (chain_callId c)
          (formatTranscript (transcript r))]))
  else
    let m := transcript_mail (chain_email c) (chain_name c) (chain_callId c) r in
    let w' := with_sent (with_events w (events w ++ [Send (selected_transport cfg) m]))
                (S (sent w)) in
    if sendMail E (sent w) (selected_transport cfg) m then (Ok tt, w')
    else sendErrorEmail cfg E (chain_email c) (chain_name c) (chain_callId c) w'.
Proof.
  intros Ht. open_attempt. rewrite Ht, (truthy_not_empty _ Ht). cbn [negb orb].
  destruct (String.eqb (service cfg) "console"); [reflexivity|].
  unfold selected_transport, sendEmailWithSendGrid, sendEmailWithGmail, try_catch, throw,
    transcript_mail.
  destruct (String.eqb (service cfg) "sendgrid"); rewrite send_run;
    now destruct (sendMail E (sent w) _ _).
Qed.

(** *** The event loop *)

Lemma event_loop_idle turns w : tasks w = [] → event_loop cfg E turns w = (Ok tt, w).
Proof. destruct turns as [|k]; simpl; intros Hw; [reflexivity | now rewrite Hw]. Qed.

Lemma event_loop_turn turns w t rest :
  tasks w = t :: rest →
  event_loop cfg E (S turns) w =
  match run_task cfg E t (with_tasks w rest) with
  | (Ok _, w') => event_loop cfg E turns w'
  | (Throw e, w') => (Throw e, w')
  end.
Proof. intros Hw. cbn [event_loop]. rewrite Hw. reflexivity. Qed.

(** No task throws, and none touches the registry. *)
Lemma run_task_total t w :
  ∃ w', run_task cfg E t w = (Ok tt, w') ∧ callMap w' = callMap w.
Proof.
  destruct t as [n c|d c]; cbn [run_task].
  - destruct (retrieve E n (chain_callId c)) as [r|].
    + destruct (truthy_transcript (transcript r)) eqn:Ht.
      * rewrite attempt_settled_transcript by assumption.
        destruct (String.eqb (service cfg) "console"); [eauto|].
        cbv zeta. destruct (sendMail E (sent w) _ _); [eauto|].
        rewrite sendErrorEmail_run. eauto.
      * destruct (Z.lt_ge_cases (retryCount c + 1) (maxRetries cfg)).
        -- rewrite attempt_settled_retry by assumption. eauto.
        -- rewrite attempt_settled_exhausted, sendErrorEmail_run by assumption. eauto.
    + rewrite attempt_settled_rejected, sendErrorEmail_run. eauto.
  - rewrite attemptToGetTranscript_run. eauto.
Qed.

Lemma event_loop_total turns : ∀ w,
  ∃ w', event_loop cfg E turns w = (Ok tt, w') ∧ callMap w' = callMap w.
Proof.
  induction turns as [|k IH]; intros w; [cbn; eauto|].
  destruct (tasks w) as [|t rest] eqn:Hw.
  - rewrite event_loop_idle by assumption. eauto.
  - rewrite (event_loop_turn _ _ _ _ Hw).
    destruct (run_task_total t (with_tasks w rest)) as (w1 & -> & Hm).
    destruct (IH w1) as (w2 & -> & Hm2). exists w2. split; [reflexivity|].
    now rewrite Hm2, Hm.
Qed.

(** An attempt that finds no transcript while retries remain arms the
    timer; when the timer fires the next lookup is issued. *)
Lemma event_loop_poll turns w n c :
  tasks w = [AwaitRetrieve n c] →
  absent_or_empty (retrieve E n (chain_callId c)) = true →
  retryCount c + 1 < maxRetries cfg →
  event_loop cfg E (S (S turns)) w =
  event_loop cfg E turns
    (suspended w [SetTimeout (retryDelay cfg); Retrieve (chain_callId c)]
       (retrieved w) (retried c 1)).
Proof.
  intros Hw Ho Hlt.
  rewrite (event_loop_turn _ _ _ _ Hw). cbn [run_task].
  destruct (retrieve E n (chain_callId c)) as [r|]; [|discriminate].
  cbn in Ho. apply negb_true_iff in Ho.
  rewrite attempt_settled_retry by assumption.
  erewrite event_loop_turn by reflexivity. cbn [run_task].
  rewrite attemptToGetTranscript_run. unfold suspended, with_tasks. cbn.
  now rewrite <- app_assoc.
Qed.

Lemma shifted_polling callId j :
  Retrieve callId :: concat (replicate j [SetTimeout (retryDelay cfg); Retrieve callId]) =
  polling cfg callId j ++ [Retrieve callId].
Proof.
  unfold polling. induction j as [|j IH]; [reflexivity|].
  cbn [replicate concat app]. now rewrite IH.
Qed.

Lemma suspended_suspended w evs evs' n n' c c' :
  suspended (suspended w evs n c) evs' n' c' = suspended w (evs ++ evs') n' c'.
Proof. unfold suspended. cbn. now rewrite app_assoc. Qed.

Lemma event_loop_polls j : ∀ turns w n c,
  tasks w = [AwaitRetrieve n c] →
  retrieved w = S n →
  (∀ i, (i < j)%nat → absent_or_empty (retrieve E (n + i) (chain_callId c)) = true) →
  ((0 < j)%nat → retryCount c + Z.of_nat j < maxRetries cfg) →
  event_loop cfg E (2 * j + turns) w =
  event_loop cfg E turns
    (suspended w (concat (replicate j [SetTimeout (retryDelay cfg); Retrieve (chain_callId c)]))
       (n + j) (retried c (Z.of_nat j))).
Proof.
  induction j as [|j IH]; intros turns w n c Hw Hr Ho Hlt.
  - cbn. unfold suspended, retried. destruct w, c; cbn in *. subst.
    rewrite app_nil_r, Z.add_0_r, Nat.add_0_r. reflexivity.
  - specialize (Hlt ltac:(lia)).
    replace (2 * S j + turns)%nat with (S (S (2 * j + turns))) by lia.
    rewrite (event_loop_poll _ w n c); [|assumption| |lia].
    2:{ specialize (Ho 0%nat). rewrite Nat.add_0_r in Ho. apply Ho. lia. }
    rewrite (IH turns _ (retrieved w) (retried c 1)); [|reflexivity|reflexivity| |cbn; lia].
    2:{ intros i Hi. rewrite Hr. cbn [retried chain_callId].
        replace (S n + i)%nat with (n + S i)%nat by lia. apply Ho. lia. }
    rewrite suspended_suspended. f_equal. rewrite Hr.
    unfold suspended, retried. cbn.
    replace (n + S j)%nat with (S (n + j)) by lia.
    replace (retryCount c + Z.of_nat (S j)) with (retryCount c + 1 + Z.of_nat j) by lia.
    reflexivity.
Qed.

(** A chain started in a world where nothing else is pending, whose first
    [j] lookups find no transcript, is then suspended at lookup [j + 1]. *)
Lemma chain_polls callId email name j turns w :
  tasks w = [] →
  (∀ i, (i < j)%nat → absent_or_empty (retrieve E (retrieved w + i) callId) = true) →
  ((0 < j)%nat → Z.of_nat j < maxRetries cfg) →
  (getTranscriptAndSendEmail callId email name;; event_loop cfg E (2 * j + turns)) w =
  event_loop cfg E turns
    (suspended w (polling cfg callId j ++ [Retrieve callId]) (retrieved w + j)
       {| chain_callId := callId; chain_email := email; chain_name := default "User" name;
          retryCount := Z.of_nat j |}).
Proof.
  intros Hw Ho Hlt.
  unfold getTranscriptAndSendEmail. unfold mbind at 1, M_bind at 1.
  rewrite attemptToGetTranscript_run, Hw. cbn [app chain_callId].
  erewrite (event_loop_polls j) with (n := retrieved w);
    [|reflexivity|reflexivity|exact Ho|cbn; lia].
  f_equal. unfold suspended, retried. cbn.
  rewrite <- app_assoc. cbn [app]. now rewrite shifted_polling.
Qed.

(** The last attempt of a chain that polled [j] times. *)
Lemma chain_last_attempt callId email name j rest w :
  tasks w = [] →
  (∀ i, (i < j)%nat → absent_or_empty (retrieve E (retrieved w + i) callId) = true) →
  ((0 < j)%nat → Z.of_nat j < maxRetries cfg) →
  let c := {| chain_callId := callId; chain_email := email;
              chain_name := default "User" name; retryCount := Z.of_nat j |} in
  (getTranscriptAndSendEmail callId email name;; event_loop cfg E (2 * j + S rest)) w =
  match attempt_settled cfg E c (retrieve E (retrieved w + j) callId)
          (with_tasks (suspended w (polling cfg callId j ++ [Retrieve callId])
                         (retrieved w + j) c) []) with
  | (Ok _, w') => event_loop cfg E rest w'
  | (Throw e, w') => (Throw e, w')
  end.
Proof.
  intros Hw Ho Hlt c. rewrite chain_polls by assumption.
  erewrite event_loop_turn by reflexivity. reflexivity.
Qed.

Lemma count_app p l1 l2 : count p (l1 ++ l2) = (count p l1 + count p l2)%nat.
Proof. unfold count. now rewrite List.filter_app, length_app. Qed.

Lemma count_polling p callId j :
  count p (polling cfg callId j) =
  (j * count p [Retrieve callId; SetTimeout (retryDelay cfg)])%nat.
Proof.
  unfold polling. induction j as [|j IH]; [reflexivity|].
  cbn [replicate concat]. rewrite count_app, IH. lia.
Qed.

Ltac same_world :=
  unfold quiescent, suspended, with_events, with_tasks, with_sent; cbn;
  f_equal; [now rewrite <- ?app_assoc | lia | lia].

(** The number of lookups a chain can issue: [maxRetries], and one when
    [maxRetries] is below 1, because an attempt looks up before it
    compares [retryCount] with [maxRetries]. *)
Lemma exhausted_chain callId email name w turns :
  (∀ n, absent_or_empty (retrieve E n callId) = true) →
  tasks w = [] →
  let budget := Z.to_nat (Z.max 1 (maxRetries cfg)) in
  (2 * budget - 1 ≤ turns)%nat →
  (getTranscriptAndSendEmail callId email name;; event_loop cfg E turns) w =
    (Ok tt, quiescent w
              (polling cfg callId (budget - 1) ++
               [Retrieve callId; notice cfg email (default "User" name) callId])
              budget 1).
Proof.
  intros Ho Hw budget Hturns.
  set (j := (budget - 1)%nat).
  assert (∃ rest, turns = (2 * j + S rest)%nat) as [rest ->]
    by (exists (turns - 2 * j - 1)%nat; lia).
  rewrite chain_last_attempt; [|assumption|intros; apply Ho|lia].
  specialize (Ho (retrieved w + j)%nat).
  destruct (retrieve E (retrieved w + j) callId) as [r|]; [|discriminate].
  cbn in Ho. apply negb_true_iff in Ho.
  rewrite attempt_settled_exhausted; [|assumption|cbn; lia].
  rewrite sendErrorEmail_run, event_loop_idle by reflexivity.
  f_equal. same_world.
Qed.

(** *** Exhaustion, success and failure of a chain *)

(** C1.  When every lookup answers without a transcript, a chain started
    with nothing else pending issues exactly [maxRetries] lookups, arms
    the timer with [retryDelay] after each of them but the last, then
    hands over the failure notice once, and nothing is left pending: no
    lookup follows, however many more turns the event loop is given.
    [maxRetries] is an attempt count, at least 1 (5 when not configured). *)
Theorem retries_exhausted_then_one_notice callId email name w turns :
  1 ≤ maxRetries cfg →
  (∀ n, absent_or_empty (retrieve E n callId) = true) →
  tasks w = [] →
  (2 * Z.to_nat (maxRetries cfg) - 1 ≤ turns)%nat →
  let tr := polling cfg callId (Z.to_nat (maxRetries cfg) - 1) ++
            [Retrieve callId; notice cfg email (default "User" name) callId] in
  (getTranscriptAndSendEmail callId email name;; event_loop cfg E turns) w =
    (Ok tt, quiescent w tr (Z.to_nat (maxRetries cfg)) 1) ∧
  count is_retrieve tr = Z.to_nat (maxRetries cfg) ∧
  count is_timer tr = (Z.to_nat (maxRetries cfg) - 1)%nat ∧
  count is_notice tr = 1%nat ∧
  count is_delivery tr = 0%nat.
Proof.
  intros Hmax Ho Hw Hturns tr. subst tr. split.
  - rewrite exhausted_chain by (rewrite ?Z.max_r by lia; assumption).
    now rewrite Z.max_r by lia.
  - rewrite !count_app, !count_polling. unfold notice. cbn. lia.
Qed.

(** C2, as the code has it.  When the first [k - 1] lookups find no
    transcript and the [k]-th finds one, the chain issues exactly [k]
    lookups and arms no further timer.  What follows depends on the
    configured service and on the transport: with ['console'] the
    transcript is only printed; otherwise it is handed to the selected
    transport once, formatted (a text is sent as it is), and the failure
    notice follows exactly when that transport refuses the message. *)
Theorem transcript_found_at_attempt callId email name w turns k r :
  (1 ≤ k)%nat →
  Z.of_nat k ≤ maxRetries cfg →
  (∀ i, (i < k - 1)%nat → absent_or_empty (retrieve E (retrieved w + i) callId) = true) →
  retrieve E (retrieved w + (k - 1)) callId = Resolved r →
  truthy_transcript (transcript r) = true →
  tasks w = [] →
  (2 * k - 1 ≤ turns)%nat →
  let name' := default "User" name in
  let m := transcript_mail email name' callId r in
  let via := selected_transport cfg in
  let polled := polling cfg callId (k - 1) ++ [Retrieve callId] in
  let run := getTranscriptAndSendEmail callId email name;; event_loop cfg E turns in
  count is_retrieve polled = k ∧
  (∀ s, transcript r = TString s → formatTranscript (transcript r) = s) ∧
  (service cfg = "console" →
     run w = (Ok tt, quiescent w
                (polled ++ [ConsoleTranscript email name' callId (formatTranscript (transcript r))])
                k 0)) ∧
  (service cfg ≠ "console" → sendMail E (sent w) via m = true →
     run w = (Ok tt, quiescent w (polled ++ [Send via m]) k 1)) ∧
  (service cfg ≠ "console" → sendMail E (sent w) via m = false →
     run w = (Ok tt, quiescent w (polled ++ [Send via m; notice cfg email name' callId]) k 2)).
Proof.
  intros Hk Hmax Ho Hr Ht Hw Hturns name' m via polled run.
  assert (∃ rest, turns = (2 * (k - 1) + S rest)%nat) as [rest ->]
    by (exists (turns - 2 * (k - 1) - 1)%nat; lia).
  assert (Hrun := chain_last_attempt callId email name (k - 1) rest w Hw Ho ltac:(lia)).
  cbv zeta in Hrun. rewrite Hr, attempt_settled_transcript in Hrun by assumption.
  fold run name' polled in Hrun.
  repeat split.
  - subst polled. rewrite count_app, count_polling. cbn. lia.
  - intros s Hs. unfold formatTranscript. rewrite Ht, Hs. reflexivity.
  - intros Hc. rewrite Hrun, Hc. cbn [String.eqb Ascii.eqb Bool.eqb].
    rewrite event_loop_idle by reflexivity. f_equal. same_world.
  - intros Hc Hs. rewrite Hrun. apply String.eqb_neq in Hc. rewrite Hc.
    cbn zeta. cbn [chain_email chain_name chain_callId sent with_tasks suspended].
    fold m via. rewrite Hs, event_loop_idle by reflexivity. f_equal. same_world.
  - intros Hc Hs. rewrite Hrun. apply String.eqb_neq in Hc. rewrite Hc.
    cbn zeta. cbn [chain_email chain_name chain_callId sent with_tasks suspended].
    fold m via. rewrite Hs, sendErrorEmail_run, event_loop_idle by reflexivity.
    f_equal. same_world.
Qed.

(** C9.  When the [k]-th lookup of a chain throws, after [k - 1] lookups
    that found no transcript, the failure notice is handed over in that
    same turn and the chain is over: no timer is armed and no lookup
    follows, whatever [k] is within the budget. *)
Theorem rejected_lookup_ends_chain callId email name w turns k :
  (1 ≤ k)%nat →
  Z.of_nat k ≤ maxRetries cfg →
  (∀ i, (i < k - 1)%nat → absent_or_empty (retrieve E (retrieved w + i) callId) = true) →
  retrieve E (retrieved w + (k - 1)) callId = Rejected →
  tasks w = [] →
  (2 * k - 1 ≤ turns)%nat →
  let tr := polling cfg callId (k - 1) ++
            [Retrieve callId; notice cfg email (default "User" name) callId] in
  (getTranscriptAndSendEmail callId email name;; event_loop cfg E turns) w =
    (Ok tt, quiescent w tr k 1) ∧
  count is_retrieve tr = k ∧
  count is_timer tr = (k - 1)%nat ∧
  count is_notice tr = 1%nat ∧
  count is_delivery tr = 0%nat.
Proof.
  intros Hk Hmax Ho Hr Hw Hturns tr. subst tr.
  assert (∃ rest, turns = (2 * (k - 1) + S rest)%nat) as [rest ->]
    by (exists (turns - 2 * (k - 1) - 1)%nat; lia).
  split.
  - rewrite chain_last_attempt; [|assumption|assumption|lia].
    rewrite Hr, attempt_settled_rejected, sendErrorEmail_run, event_loop_idle by reflexivity.
    f_equal. same_world.
  - rewrite !count_app, !count_polling. unfold notice. cbn. lia.
Qed.

(** A configured value below 1 behaves as 1.  The loader never yields
    0, and yields a positive number unless a negative one was set. *)
Lemma nonpositive_budget_one_lookup callId email name w turns :
  maxRetries cfg ≤ 1 →
  (∀ n, absent_or_empty (retrieve E n callId) = true) →
  tasks w = [] →
  (1 ≤ turns)%nat →
  (getTranscriptAndSendEmail callId email name;; event_loop cfg E turns) w =
    (Ok tt, quiescent w [Retrieve callId; notice cfg email (default "User" name) callId] 1 1).
Proof.
  intros Hmax Ho Hw Hturns.
  rewrite exhausted_chain by (rewrite ?Z.max_l by lia; assumption || (cbn; lia)).
  now rewrite Z.max_l by lia.
Qed.

Lemma config_maxRetries_nonzero env : maxRetries (config env) ≠ 0.
Proof.
  unfold config, or_num. cbn. destruct (MAX_TRANSCRIPT_RETRIES env) as [n|]; [|lia].
  destruct (Z.eqb_spec n 0); lia.
Qed.

Lemma config_maxRetries_positive env :
  (∀ n, MAX_TRANSCRIPT_RETRIES env = Some n → 0 ≤ n) →
  1 ≤ maxRetries (config env).
Proof.
  intros Hn. unfold config, or_num. cbn.
  destruct (MAX_TRANSCRIPT_RETRIES env) as [n|]; [|lia].
  specialize (Hn n eq_refl). destruct (Z.eqb_spec n 0); lia.
Qed.

End RetrievalLoop.

(** ** The handlers *)

Section Handlers.

Variable cfg : Config.
Variable E : Env.

Lemma valid_payload_check b :
  negb (truthy (event b)) || negb (truthy_obj (call b)) || negb (truthy (call b ≫= call_id))
  = negb (valid_payload b).
Proof.
  unfold valid_payload.
  now destruct (truthy (event b)), (truthy_obj (call b)), (truthy (call b ≫= call_id)).
Qed.

(** A payload that fails the check is answered with 400 and nothing
    else happens. *)
Lemma webhook_invalid b w :
  valid_payload b = false →
  webhook b w = (Ok (Res 400 (BError "Invalid payload structure")), w).
Proof.
  intros Hv. unfold webhook. cbv zeta. now rewrite valid_payload_check, Hv.
Qed.

Ltac open_webhook Hv :=
  unfold webhook; cbv zeta; rewrite valid_payload_check, Hv; cbn [negb];
  unfold completed in *;
  unfold try_catch, mbind, M_bind, mret, M_ret, gets, set_callMap in *; cbv beta iota zeta.

(** A [call_ended] event of a completed call whose identifier has a
    record with an email: the first lookup is issued, the attempt is
    left suspended, and the record is deleted in the same turn. *)
Lemma webhook_starts_retrieval b w u :
  valid_payload b = true →
  event b = Some "call_ended" →
  completed b = true →
  callMap w !! toStr (call b ≫= call_id) = Some u →
  truthy (email u) = true →
  let id := toStr (call b ≫= call_id) in
  webhook b w =
  (Ok (Res 200 (BSuccess "Webhook processed for event: call_ended")),
   {| callMap := delete id (callMap w);
      events := events w ++ [Retrieve id];
      tasks := tasks w ++ [AwaitRetrieve (retrieved w)
                 {| chain_callId := id; chain_email := email u;
                    chain_name := default "User" (name u); retryCount := 0 |}];
      created := created w; retrieved := S (retrieved w); sent := sent w |}).
Proof.
  intros Hv He Hc Hu Hm id. open_webhook Hv.
  rewrite He.
  rewrite bool_decide_eq_false_2 by discriminate.
  rewrite bool_decide_eq_true_2 by reflexivity.
  rewrite Hc, Hu. cbn [truthy_obj option_bind andb].
  rewrite Hm. reflexivity.
Qed.

(** The same event when the record is missing, or has no email: nothing
    happens. *)
Lemma webhook_skips_retrieval b w :
  valid_payload b = true →
  event b = Some "call_ended" →
  completed b = true →
  truthy_obj (callMap w !! toStr (call b ≫= call_id))
    && truthy (callMap w !! toStr (call b ≫= call_id) ≫= email) = false →
  webhook b w = (Ok (Res 200 (BSuccess "Webhook processed for event: call_ended")), w).
Proof.
  intros Hv He Hc Hg. open_webhook Hv.
  rewrite He.
  rewrite bool_decide_eq_false_2 by discriminate.
  rewrite bool_decide_eq_true_2 by reflexivity.
  rewrite Hc, Hg. reflexivity.
Qed.

(** A [call_ended] event of a call that did not complete. *)
Lemma webhook_call_not_completed b w :
  valid_payload b = true →
  event b = Some "call_ended" →
  completed b = false →
  webhook b w =
  (Ok (Res 200 (BSuccess "Webhook processed for event: call_ended")),
   if truthy_obj (callMap w !! toStr (call b ≫= call_id))
   then with_callMap w (delete (toStr (call b ≫= call_id)) (callMap w))
   else w).
Proof.
  intros Hv He Hc. open_webhook Hv.
  rewrite He.
  rewrite bool_decide_eq_false_2 by discriminate.
  rewrite bool_decide_eq_true_2 by reflexivity.
  rewrite Hc.
  now destruct (truthy_obj (callMap w !! toStr (option_bind _ _ call_id (call b)))).
Qed.

(** Every other event is only acknowledged. *)
Lemma webhook_other_event b w :
  valid_payload b = true →
  event b ≠ Some "call_ended" →
  webhook b w =
  (Ok (Res 200 (BSuccess ("Webhook processed for event: " ++ toStr (event b)))), w).
Proof.
  intros Hv He. open_webhook Hv.
  rewrite (bool_decide_eq_false_2 (event b = Some "call_ended")) by assumption.
  now destruct (bool_decide (event b = Some "call_started")),
               (bool_decide (event b = Some "call_analyzed")).
Qed.

(** On a typed request the webhook never throws, and its answer is
    decided by the payload check alone. *)
Lemma webhook_result b w :
  result (webhook b) w =
  Ok (if valid_payload b
      then Res 200 (BSuccess ("Webhook processed for event: " ++ toStr (event b)))
      else Res 400 (BError "Invalid payload structure")).
Proof.
  unfold result. destruct (valid_payload b) eqn:Hv; [|now rewrite webhook_invalid].
  destruct (decide (event b = Some "call_ended")) as [He|He];
    [|now rewrite webhook_other_event].
  destruct (completed b) eqn:Hc; [|rewrite webhook_call_not_completed by assumption;
                                   now rewrite He].
  destruct (truthy_obj (callMap w !! toStr (call b ≫= call_id))
            && truthy (callMap w !! toStr (call b ≫= call_id) ≫= email)) eqn:Hg.
  - apply andb_true_iff in Hg as [Hu Hm].
    destruct (callMap w !! toStr (call b ≫= call_id)) as [u|] eqn:Hlk; [|discriminate].
    rewrite (webhook_starts_retrieval b w u) by assumption. now rewrite He.
  - rewrite webhook_skips_retrieval by assumption. now rewrite He.
Qed.

(** The webhook only ever deletes from the registry. *)
Lemma webhook_registry b w :
  callMap (exec (webhook b) w) = callMap w ∨
  callMap (exec (webhook b) w) = delete (toStr (call b ≫= call_id)) (callMap w).
Proof.
  unfold exec. destruct (valid_payload b) eqn:Hv; [|rewrite webhook_invalid; auto].
  destruct (decide (event b = Some "call_ended")) as [He|He];
    [|rewrite webhook_other_event; auto].
  destruct (completed b) eqn:Hc.
  - destruct (truthy_obj (callMap w !! toStr (call b ≫= call_id))
              && truthy (callMap w !! toStr (call b ≫= call_id) ≫= email)) eqn:Hg.
    + apply andb_true_iff in Hg as [Hu Hm].
      destruct (callMap w !! toStr (call b ≫= call_id)) as [u|] eqn:Hlk; [|discriminate].
      rewrite (webhook_starts_retrieval b w u) by assumption. auto.
    + rewrite webhook_skips_retrieval by assumption. auto.
  - rewrite webhook_call_not_completed by assumption.
    destruct (truthy_obj _); auto.
Qed.

(** [initiate_call] stores a record only behind its validation. *)
Lemma initiate_call_registry b now w :
  callMap (exec (initiate_call E b now) w) = callMap w ∨
  ∃ id, truthy (body_email b) = true ∧
        callMap (exec (initiate_call E b now) w) =
        <[id := {| email := body_email b; name := body_name b; phone := body_phone b;
                   timestamp := now |}]> (callMap w).
Proof.
  unfold exec, initiate_call. cbv zeta.
  destruct (truthy (body_phone b)); [|left; reflexivity].
  destruct (truthy (body_email b)) eqn:Hm; [|left; reflexivity].
  cbn [negb orb].
  unfold try_catch, mbind, M_bind, mret, M_ret, next_created, emit, set_callMap, throw.
  cbv beta iota zeta.
  destruct (createPhoneCall E _ _) as [id|]; [|left; reflexivity].
  right. exists id. split; reflexivity.
Qed.

(** C8.  A payload that lacks a truthy [event], [call] or
    [call.call_id] is answered with 400 and the world is as before: the
    registry holds the same records under the same identifiers. *)
Theorem invalid_payload_leaves_registry b w :
  valid_payload b = false →
  result (webhook b) w = Ok (Res 400 (BError "Invalid payload structure")) ∧
  exec (webhook b) w = w ∧
  ∀ id, callMap (exec (webhook b) w) !! id = callMap w !! id.
Proof.
  intros Hv. unfold result, exec. rewrite webhook_invalid by assumption. auto.
Qed.

Lemma serve_registry_ok r w :
  registry_ok (callMap w) → registry_ok (callMap (serve cfg E r w)).
Proof.
  intros Hok. destruct r as [b now|b|n]; cbn [serve].
  - destruct (initiate_call_registry b now w) as [->|(id & Hm & ->)]; [assumption|].
    intros id' u. rewrite lookup_insert. case_decide.
    + intros [= <-]. exact Hm.
    + apply Hok.
  - destruct (webhook_registry b w) as [->| ->]; [assumption|].
    intros id' u Hu. apply lookup_delete_Some in Hu as [_ Hu]. eauto.
  - unfold exec. destruct (event_loop_total cfg E n w) as (w' & -> & Hm).
    cbn [snd]. now rewrite Hm.
Qed.

Lemma serve_all_registry_ok rs : ∀ w,
  registry_ok (callMap w) → registry_ok (callMap (serve_all cfg E rs w)).
Proof.
  induction rs as [|r rs IH]; intros w Hok; [assumption|].
  cbn [serve_all fold_left]. apply IH, serve_registry_ok, Hok.
Qed.

(** C10.  In every world the server can reach from its start, each
    record of the registry has a truthy email: records are only added by
    [initiate_call], behind its validation, and nothing rewrites them.
    So the guard [userInfo && userInfo.email] of the webhook holds for
    every record the registry returns, and a [call_ended] event of a
    completed call that finds a record starts the retrieval. *)
Theorem registered_records_pass_guard rs id u :
  let w := serve_all cfg E rs world0 in
  callMap w !! id = Some u →
  truthy (email u) = true ∧
  truthy_obj (callMap w !! id) && truthy (callMap w !! id ≫= email) = true ∧
  ∀ b, valid_payload b = true → event b = Some "call_ended" → completed b = true →
       toStr (call b ≫= call_id) = id →
       events (exec (webhook b) w) = events w ++ [Retrieve id].
Proof.
  intros w Hu.
  assert (Hm : truthy (email u) = true).
  { eapply (serve_all_registry_ok rs world0); [|exact Hu]. intros i r. cbn.
    now rewrite lookup_empty. }
  split; [exact Hm|]. split; [now rewrite Hu|].
  intros b Hv He Hc Hid. unfold exec. subst id.
  now rewrite (webhook_starts_retrieval b w u).
Qed.

End Handlers.

(** ** The delivery pipeline of [EmailService] *)

(** Without [mailerSendApiKey] the constructor leaves the MailerSend
    handle [null], whatever the service is: Gmail is then the only
    transport, and [sendTranscriptEmail] has no backup to turn to. *)
Lemma constructor_without_key service gmailPassword :
  EmailService.mailerSend (EmailService.constructor None service gmailPassword) = false.
Proof. reflexivity. Qed.

Section Delivery.

Import EmailService.

Variable E : Env.
Variable this : EmailService.t.

Ltac open_service Hp Hg :=
  unfold sendTranscriptEmail, sendErrorNotification, sendViaMailerSend, sendViaGmail;
  cbv zeta; rewrite ?Hp, ?Hg; cbn [andb];
  unfold try_catch, throw; unfold mbind, M_bind, mret, M_ret; cbv beta iota zeta.

Ltac same_handed_over :=
  unfold handed_over; cbn; f_equal; [now rewrite <- ?app_assoc | lia].

(** What [sendTranscriptEmail] does once the primary transport has
    refused the transcript. *)
Lemma sendTranscriptEmail_primary_refused recipientEmail recipientName transcript callData w :
  mailerSend this = true →
  gmailTransporter this = true →
  let m := {| mail_to := recipientEmail;
              mail_body := generateTranscriptHTML recipientName transcript
                             (toStr (call_id callData)) callData |} in
  let issue := {| mail_to := recipientEmail;
                  mail_body := IssueMail recipientName (toStr (call_id callData)) |} in
  sendMail E (sent w) MailerSend m = false →
  sendTranscriptEmail E this recipientEmail recipientName transcript callData w =
  if sendMail E (S (sent w)) Gmail m
  then (Ok tt, handed_over w [Send MailerSend m; Send Gmail m])
  else (Throw (SendFailed MailerSend),
        handed_over w [Send MailerSend m; Send Gmail m; Send MailerSend issue]).
Proof.
  intros Hp Hg m issue Hrefused.
  open_service Hp Hg. fold m issue.
  rewrite !send_run. cbn [sent]. rewrite Hrefused.
  destruct (sendMail E (S (sent w)) Gmail m) eqn:Hbackup.
  - f_equal. same_handed_over.
  - rewrite !send_run. cbn [sent events].
    destruct (sendMail E (S (S (sent w))) MailerSend issue); f_equal; same_handed_over.
Qed.

(** C7.  With both handles present, a transcript that the primary
    transport (MailerSend) refuses is handed to the backup (Gmail)
    exactly once.  When Gmail accepts it, [sendTranscriptEmail] returns
    normally, that one message is the only one delivered, and no notice
    is sent. *)
Theorem backup_transport_retried_once recipientEmail recipientName transcript callData w :
  mailerSend this = true →
  gmailTransporter this = true →
  let m := {| mail_to := recipientEmail;
              mail_body := generateTranscriptHTML recipientName transcript
                             (toStr (call_id callData)) callData |} in
  sendMail E (sent w) MailerSend m = false →
  let run := sendTranscriptEmail E this recipientEmail recipientName transcript callData in
  ∃ tr, exec run w = handed_over w tr ∧
        count (sent_via Gmail) tr = 1%nat ∧
        (sendMail E (S (sent w)) Gmail m = true →
           result run w = Ok tt ∧
           tr = [Send MailerSend m; Send Gmail m] ∧
           accepted E (sent w) tr = [Send Gmail m] ∧
           count is_notice tr = 0%nat).
Proof.
  intros Hp Hg m Hrefused run. subst run. unfold result, exec.
  rewrite sendTranscriptEmail_primary_refused by assumption. fold m.
  destruct (sendMail E (S (sent w)) Gmail m) eqn:Hbackup.
  - exists [Send MailerSend m; Send Gmail m]. repeat split.
    cbn [accepted]. now rewrite Hrefused, Hbackup.
  - eexists. split; [reflexivity|]. split; [reflexivity|discriminate].
Qed.

(** C6, as the code has it.  When MailerSend and then Gmail refuse the
    transcript, the notice is composed once and handed to MailerSend,
    whose answer is ignored, and then [sendTranscriptEmail] throws: the
    caller receives the error of the first, refused send. *)
Theorem both_transports_fail_then_rethrow recipientEmail recipientName transcript callData w :
  mailerSend this = true →
  gmailTransporter this = true →
  let m := {| mail_to := recipientEmail;
              mail_body := generateTranscriptHTML recipientName transcript
                             (toStr (call_id callData)) callData |} in
  let issue := {| mail_to := recipientEmail;
                  mail_body := IssueMail recipientName (toStr (call_id callData)) |} in
  sendMail E (sent w) MailerSend m = false →
  sendMail E (S (sent w)) Gmail m = false →
  let tr := [Send MailerSend m; Send Gmail m; Send MailerSend issue] in
  sendTranscriptEmail E this recipientEmail recipientName transcript callData w =
    (Throw (SendFailed MailerSend), handed_over w tr) ∧
  count is_notice tr = 1%nat.
Proof.
  intros Hp Hg m issue Hrefused Hbackup tr. split; [|reflexivity].
  rewrite sendTranscriptEmail_primary_refused by assumption. fold m. now rewrite Hbackup.
Qed.

End Delivery.

(** ** The properties on sample runs *)

(** The provider never has a transcript, with the values of
    [express.js]: five lookups, 15 seconds apart, then the notice. *)
Lemma retries_exhausted_witness :
  events (exec (getTranscriptAndSendEmail "call_1" (Some "ann@x.com") (Some "Ann");;
                event_loop express_config (stub never_ready all_accept) 9) world0) =
  [Retrieve "call_1"; SetTimeout 15000; Retrieve "call_1"; SetTimeout 15000;
   Retrieve "call_1"; SetTimeout 15000; Retrieve "call_1"; SetTimeout 15000;
   Retrieve "call_1";
   Send Gmail {| mail_to := Some "ann@x.com"; mail_body := IssueMail "Ann" "call_1" |}].
Proof.
  assert (H1 : 1 ≤ maxRetries express_config) by (cbn; lia).
  assert (H2 : ∀ n, absent_or_empty (retrieve (stub never_ready all_accept) n "call_1") = true)
    by (intros n; reflexivity).
  assert (H3 : tasks world0 = []) by reflexivity.
  assert (H4 : (2 * Z.to_nat (maxRetries express_config) - 1 ≤ 9)%nat) by (cbn; lia).
  destruct (retries_exhausted_then_one_notice express_config (stub never_ready all_accept)
              "call_1" (Some "ann@x.com") (Some "Ann") world0 9 H1 H2 H3 H4) as [Hrun _].
  unfold exec. rewrite Hrun. reflexivity.
Defined.

(** The example of the specification: the transcript is ready at the
    third of five attempts. *)
Lemma transcript_found_witness :
  events (exec (getTranscriptAndSendEmail "call_1" (Some "ann@x.com") (Some "Ann");;
                event_loop express_config (stub (ready_at 3 "Hello Ann") all_accept) 5) world0) =
  [Retrieve "call_1"; SetTimeout 15000; Retrieve "call_1"; SetTimeout 15000;
   Retrieve "call_1";
   Send Gmail (transcript_mail (Some "ann@x.com") "Ann" "call_1"
                 (call_object "call_1" (TString "Hello Ann")))].
Proof.
  set (E := stub (ready_at 3 "Hello Ann") all_accept).
  assert (H1 : (1 ≤ 3)%nat) by lia.
  assert (H2 : Z.of_nat 3 ≤ maxRetries express_config) by (cbn; lia).
  assert (H3 : ∀ i, (i < 3 - 1)%nat →
                absent_or_empty (retrieve E (retrieved world0 + i) "call_1") = true).
  { intros i Hi. cbn in Hi. destruct i as [|[|i]]; [reflexivity|reflexivity|lia]. }
  assert (H4 : retrieve E (retrieved world0 + (3 - 1)) "call_1" =
               Resolved (call_object "call_1" (TString "Hello Ann"))) by reflexivity.
  assert (H5 : truthy_transcript (transcript (call_object "call_1" (TString "Hello Ann"))) = true)
    by reflexivity.
  assert (H6 : tasks world0 = []) by reflexivity.
  assert (H7 : (2 * 3 - 1 ≤ 5)%nat) by lia.
  destruct (transcript_found_at_attempt express_config E "call_1" (Some "ann@x.com")
              (Some "Ann") world0 5 3 _ H1 H2 H3 H4 H5 H6 H7) as (_ & _ & _ & Hsent & _).
  unfold exec. rewrite Hsent; [reflexivity|discriminate|reflexivity].
Defined.

(** The claim of C2 fails when the transport refuses the transcript:
    the first lookup has the transcript, the delivery is attempted once,
    and the failure notice follows. *)
Lemma refused_delivery_sends_notice :
  let E := stub (ready_at 1 "Hello Ann") all_refuse in
  let w := exec (getTranscriptAndSendEmail "call_1" (Some "ann@x.com") (Some "Ann");;
                 event_loop express_config E 9) world0 in
  has_transcript (retrieve E 0 "call_1") = true ∧
  events w =
    [Retrieve "call_1";
     Send Gmail (transcript_mail (Some "ann@x.com") "Ann" "call_1"
                   (call_object "call_1" (TString "Hello Ann")));
     Send Gmail {| mail_to := Some "ann@x.com"; mail_body := IssueMail "Ann" "call_1" |}] ∧
  count is_retrieve (events w) = 1%nat ∧
  count is_delivery (events w) = 1%nat ∧
  count is_notice (events w) ≠ 0%nat.
Proof. vm_compute. repeat split. discriminate. Qed.

(** The server itself has one transport per configuration and no
    backup: when SendGrid refuses the transcript the notice follows at
    once, through SendGrid again, although Gmail would accept. *)
Lemma server_send_has_no_backup :
  events (exec (getTranscriptAndSendEmail "call_1" (Some "ann@x.com") (Some "Ann");;
                event_loop sendgrid_config (stub (ready_at 1 "Hello Ann") only_gmail_accepts) 9)
            world0) =
  [Retrieve "call_1";
   Send SendGrid (transcript_mail (Some "ann@x.com") "Ann" "call_1"
                    (call_object "call_1" (TString "Hello Ann")));
   Send SendGrid {| mail_to := Some "ann@x.com"; mail_body := IssueMail "Ann" "call_1" |}].
Proof. reflexivity. Qed.

(** Without environment variables the loader yields the values that
    [express.js] has in its code. *)
Lemma config_defaults :
  config {| EMAIL_SERVICE := None; MAX_TRANSCRIPT_RETRIES := None; RETRY_DELAY_MS := None |}
  = express_config.
Proof. reflexivity. Qed.

(** The third lookup throws. *)
Lemma rejected_lookup_witness :
  events (exec (getTranscriptAndSendEmail "call_1" (Some "ann@x.com") (Some "Ann");;
                event_loop express_config (stub (failing_at 3) all_accept) 5) world0) =
  [Retrieve "call_1"; SetTimeout 15000; Retrieve "call_1"; SetTimeout 15000;
   Retrieve "call_1";
   Send Gmail {| mail_to := Some "ann@x.com"; mail_body := IssueMail "Ann" "call_1" |}].
Proof.
  set (E := stub (failing_at 3) all_accept).
  assert (H1 : (1 ≤ 3)%nat) by lia.
  assert (H2 : Z.of_nat 3 ≤ maxRetries express_config) by (cbn; lia).
  assert (H3 : ∀ i, (i < 3 - 1)%nat →
                absent_or_empty (retrieve E (retrieved world0 + i) "call_1") = true).
  { intros i Hi. cbn in Hi. destruct i as [|[|i]]; [reflexivity|reflexivity|lia]. }
  assert (H4 : retrieve E (retrieved world0 + (3 - 1)) "call_1" = Rejected) by reflexivity.
  assert (H5 : tasks world0 = []) by reflexivity.
  assert (H6 : (2 * 3 - 1 ≤ 5)%nat) by lia.
  destruct (rejected_lookup_ends_chain express_config E "call_1" (Some "ann@x.com")
              (Some "Ann") world0 5 3 H1 H2 H3 H4 H5 H6) as [Hrun _].
  unfold exec. rewrite Hrun. reflexivity.
Defined.

(** The world after Ann's form was submitted. *)
Lemma ann_registered :
  callMap (serve_all express_config (stub never_ready all_accept) [Initiate ann "t0"] world0)
    !! "call_1" =
  Some {| email := Some "ann@x.com"; name := Some "Ann"; phone := Some "9998887776";
          timestamp := "t0" |}.
Proof. reflexivity. Qed.

(** The scenario of the specification, end to end: Ann submits the
    form, the call ends, the transcript is ready at the first lookup;
    one message goes to Ann with the call identifier and the transcript,
    and her record is gone. *)
Lemma end_to_end :
  let E := stub (ready_at 1 "Hello Ann") all_accept in
  let w := serve_all express_config E
             [Initiate ann "t0"; Webhook (call_ended "call_1"); Turns 1] world0 in
  events w =
    [CreatePhoneCall "+919998887776"; Retrieve "call_1";
     Send Gmail {| mail_to := Some "ann@x.com";
                   mail_body := TranscriptMail "Ann" "Hello Ann" "call_1"
                                  (call_object "call_1" (TString "Hello Ann")) |}] ∧
  callMap w !! "call_1" = None ∧
  tasks w = [].
Proof. vm_compute. repeat split. Qed.

(** C4.  The record is deleted in the turn that answers the webhook,
    while the first lookup is still in flight.  Here that lookup finds
    no transcript; the second lookup and the delivery take place three
    turns later, when the record is long gone.  The handler awaits
    [getTranscriptAndSendEmail], which does not await its attempt. *)
Theorem record_deleted_while_lookup_pending :
  let E := stub (ready_at 2 "Hello Ann") all_accept in
  let chain := {| chain_callId := "call_1"; chain_email := Some "ann@x.com";
                  chain_name := "Ann"; retryCount := 0 |} in
  let w0 := serve_all express_config E [Initiate ann "t0"] world0 in
  let w1 := serve_all express_config E [Webhook (call_ended "call_1")] w0 in
  let w2 := serve_all express_config E [Turns 3] w1 in
  is_Some (callMap w0 !! "call_1") ∧
  result (webhook (call_ended "call_1")) w0 =
    Ok (Res 200 (BSuccess "Webhook processed for event: call_ended")) ∧
  callMap w1 !! "call_1" = None ∧
  events w1 = events w0 ++ [Retrieve "call_1"] ∧
  tasks w1 = [AwaitRetrieve 0 chain] ∧
  count is_delivery (events w1) = 0%nat ∧
  events w2 = events w1 ++
    [SetTimeout 15000; Retrieve "call_1";
     Send Gmail (transcript_mail (Some "ann@x.com") "Ann" "call_1"
                   (call_object "call_1" (TString "Hello Ann")))] ∧
  tasks w2 = [].
Proof. vm_compute. repeat split. eauto. Qed.

(** An empty body reaches a server that holds Ann's record. *)
Lemma invalid_payload_witness :
  let w := serve_all express_config (stub never_ready all_accept) [Initiate ann "t0"] world0 in
  result (webhook empty_body) w = Ok (Res 400 (BError "Invalid payload structure")) ∧
  callMap (exec (webhook empty_body) w) !! "call_1" = callMap w !! "call_1".
Proof.
  intros w.
  assert (H : valid_payload empty_body = false) by reflexivity.
  destruct (invalid_payload_leaves_registry empty_body w H) as (Hr & _ & Hm).
  split; [exact Hr|apply Hm].
Defined.

(** Ann's record passes the guard of the webhook. *)
Lemma registered_records_witness :
  let w := serve_all express_config (stub never_ready all_accept) [Initiate ann "t0"] world0 in
  truthy_obj (callMap w !! "call_1") && truthy (callMap w !! "call_1" ≫= email) = true ∧
  events (exec (webhook (call_ended "call_1")) w) = events w ++ [Retrieve "call_1"].
Proof.
  intros w.
  assert (H : callMap w !! "call_1" =
              Some {| email := Some "ann@x.com"; name := Some "Ann";
                      phone := Some "9998887776"; timestamp := "t0" |}) by reflexivity.
  destruct (registered_records_pass_guard express_config (stub never_ready all_accept)
              [Initiate ann "t0"] "call_1" _ H) as (_ & Hg & Hb).
  split; [exact Hg|]. apply Hb; reflexivity.
Defined.

(** MailerSend refuses, Gmail accepts. *)
Lemma backup_transport_witness :
  let E := stub never_ready only_gmail_accepts in
  let m := {| mail_to := Some "ann@x.com";
              mail_body := TranscriptMail "Ann" "Hello Ann" "call_1"
                             (call_object "call_1" (TString "Hello Ann")) |} in
  let run := EmailService.sendTranscriptEmail E both_transports (Some "ann@x.com") "Ann"
               (Some "Hello Ann") (call_object "call_1" (TString "Hello Ann")) in
  result run world0 = Ok tt ∧
  accepted E 0 (events (exec run world0)) = [Send Gmail m].
Proof.
  intros E m run.
  assert (H1 : EmailService.mailerSend both_transports = true) by reflexivity.
  assert (H2 : EmailService.gmailTransporter both_transports = true) by reflexivity.
  assert (H3 : sendMail E (sent world0) MailerSend m = false) by reflexivity.
  destruct (backup_transport_retried_once E both_transports (Some "ann@x.com") "Ann"
              (Some "Hello Ann") (call_object "call_1" (TString "Hello Ann")) world0 H1 H2 H3)
    as (tr & Hw & _ & Hok).
  destruct (Hok eq_refl) as (Hr & Htr & Hacc & _).
  split; [exact Hr|]. fold run in Hw. rewrite Hw. exact Hacc.
Defined.

(** The claim of C6 fails: with both transports refusing, the caller of
    [sendTranscriptEmail] receives the exception, after one notice. *)
Lemma both_transports_fail_raises :
  let E := stub never_ready all_refuse in
  let run := EmailService.sendTranscriptEmail E both_transports (Some "ann@x.com") "Ann"
               (Some "Hello Ann") (call_object "call_1" (TString "Hello Ann")) in
  result run world0 = Throw (SendFailed MailerSend) ∧
  count is_notice (events (exec run world0)) = 1%nat.
Proof. vm_compute. split; reflexivity. Qed.

Lemma both_transports_fail_witness :
  let E := stub never_ready all_refuse in
  result (EmailService.sendTranscriptEmail E both_transports (Some "ann@x.com") "Ann"
            (Some "Hello Ann") (call_object "call_1" (TString "Hello Ann"))) world0 =
  Throw (SendFailed MailerSend).
Proof.
  intros E.
  assert (H1 : EmailService.mailerSend both_transports = true) by reflexivity.
  assert (H2 : EmailService.gmailTransporter both_transports = true) by reflexivity.
  unfold result.
  rewrite (proj1 (both_transports_fail_then_rethrow E both_transports (Some "ann@x.com") "Ann"
                    (Some "Hello Ann") (call_object "call_1" (TString "Hello Ann")) world0
                    H1 H2 eq_refl eq_refl)).
  reflexivity.
Defined.

(** * Further properties of the server *)

Section Initiation.

Variable E : Env.

(** The record [initiate_call] stores for a body. *)
Lemma initiate_call_invalid b now w :
  truthy (body_phone b) && truthy (body_email b) = false →
  initiate_call E b now w = (Ok (Res 400 (BError "Phone and email are required.")), w).
Proof.
  intros Hv. unfold initiate_call. cbv zeta.
  destruct (truthy (body_phone b)), (truthy (body_email b)); try discriminate; reflexivity.
Qed.

Lemma initiate_call_valid b now w :
  truthy (body_phone b) && truthy (body_email b) = true →
  let to := ("+91" ++ toStr (body_phone b))%string in
  initiate_call E b now w =
  match createPhoneCall E (created w) to with
  | Some id =>
      (Ok (Res 200 (BInitiated "Call initiated successfully." id)),
       {| callMap := <[id := {| email := body_email b; name := body_name b;
                                phone := body_phone b; timestamp := now |}]> (callMap w);
          events := events w ++ [CreatePhoneCall to]; tasks := tasks w;
          created := S (created w); retrieved := retrieved w; sent := sent w |})
  | None =>
      (Ok (Res 500 (BError "Call initiation failed.")),
       {| callMap := callMap w; events := events w ++ [CreatePhoneCall to];
          tasks := tasks w; created := S (created w); retrieved := retrieved w;
          sent := sent w |})
  end.
Proof.
  intros Hv to. unfold initiate_call. cbv zeta.
  apply andb_true_iff in Hv as [-> ->]. cbn [negb orb].
  unfold try_catch, mbind, M_bind, mret, M_ret, next_created, emit, set_callMap, throw.
  cbv beta iota zeta. cbn [created with_created with_events events].
  fold to. now destruct (createPhoneCall E (created w) to).
Qed.

End Initiation.

Section Lifecycle.

Variable cfg : Config.
Variable E : Env.

Lemma count_snoc p l e : count p (l ++ [e]) = (count p l + if p e then 1 else 0)%nat.
Proof. unfold count. rewrite List.filter_app, length_app. cbn. now destruct (p e). Qed.

End Lifecycle.

Section AnyEnvironment.

Variable cfg : Config.
Variable E : Env.

Lemma chain_end_counts email name callId closing :
  chain_end cfg email name callId closing →
  count is_retrieve closing = 0%nat ∧ count is_timer closing = 0%nat ∧
  (count is_delivery closing ≤ 1)%nat ∧ (count is_notice closing ≤ 1)%nat ∧
  (1 ≤ count is_delivery closing + count is_notice closing + count is_console closing)%nat ∧
  (service cfg ≠ "console" → 1 ≤ count is_send closing)%nat.
Proof.
  intros [|r Hc Ht|r Hc Ht|r Hc Ht]; unfold notice, transcript_mail; cbn;
    repeat split; try lia; intros; try lia; congruence.
Qed.

(** The last turn of a chain: the lookup settles and the chain ends,
    or it arms the timer. *)
Lemma settle_ends_or_polls turns w idx c :
  tasks w = [AwaitRetrieve idx c] →
  (∃ w' closing,
     chain_end cfg (chain_email c) (chain_name c) (chain_callId c) closing ∧
     event_loop cfg E (S turns) w = (Ok tt, w') ∧
     events w' = events w ++ closing ∧ tasks w' = [] ∧ callMap w' = callMap w) ∨
  (absent_or_empty (retrieve E idx (chain_callId c)) = true ∧
   retryCount c + 1 < maxRetries cfg).
Proof.
  intros Hw.
  destruct (retrieve E idx (chain_callId c)) as [r|] eqn:Ho.
  - destruct (truthy_transcript (transcript r)) eqn:Ht.
    + left. rewrite (event_loop_turn _ _ _ _ _ _ Hw). cbn [run_task]. rewrite Ho.
      rewrite attempt_settled_transcript by assumption.
      destruct (String.eqb (service cfg) "console") eqn:Hc.
      * apply String.eqb_eq in Hc. rewrite event_loop_idle by reflexivity.
        eexists _, _. split; [eapply (end_console _ _ _ _ r); assumption|].
        repeat split.
      * apply String.eqb_neq in Hc. cbv zeta.
        destruct (sendMail E _ _ _).
        -- rewrite event_loop_idle by reflexivity.
           eexists _, _. split; [eapply (end_delivered _ _ _ _ r); assumption|].
           repeat split.
        -- rewrite sendErrorEmail_run, event_loop_idle by reflexivity.
           eexists _, _. split; [eapply (end_refused _ _ _ _ r); assumption|].
           cbn. repeat split. now rewrite <- app_assoc.
    + destruct (Z.lt_ge_cases (retryCount c + 1) (maxRetries cfg)) as [Hlt|Hge].
      * right. cbn. now rewrite Ht.
      * left. rewrite (event_loop_turn _ _ _ _ _ _ Hw). cbn [run_task]. rewrite Ho.
        rewrite attempt_settled_exhausted, sendErrorEmail_run, event_loop_idle
          by (assumption || reflexivity).
        eexists _, _. split; [apply end_notice|]. repeat split.
  - left. rewrite (event_loop_turn _ _ _ _ _ _ Hw). cbn [run_task]. rewrite Ho.
    rewrite attempt_settled_rejected, sendErrorEmail_run, event_loop_idle by reflexivity.
    eexists _, _. split; [apply end_notice|]. repeat split.
Qed.

Lemma chain_settles n : ∀ c idx w rest,
  tasks w = [AwaitRetrieve idx c] →
  maxRetries cfg - (retryCount c + 1) ≤ Z.of_nat n →
  ∃ w' j closing,
    (j ≤ n)%nat ∧
    chain_end cfg (chain_email c) (chain_name c) (chain_callId c) closing ∧
    event_loop cfg E (2 * n + 1 + rest) w = (Ok tt, w') ∧
    events w' = events w ++
      concat (replicate j [SetTimeout (retryDelay cfg); Retrieve (chain_callId c)]) ++ closing ∧
    tasks w' = [] ∧ callMap w' = callMap w.
Proof.
  induction n as [|n IH]; intros c idx w rest Hw Hn.
  - replace (2 * 0 + 1 + rest)%nat with (S rest) by lia.
    destruct (settle_ends_or_polls rest w idx c Hw)
      as [(w' & closing & Hend & Hrun & Hev & Ht & Hm)|[_ Hlt]]; [|lia].
    exists w', 0%nat, closing. repeat split; auto.
  - replace (2 * S n + 1 + rest)%nat with (S (S (2 * n + 1 + rest))) by lia.
    destruct (settle_ends_or_polls (S (2 * n + 1 + rest)) w idx c Hw)
      as [(w' & closing & Hend & Hrun & Hev & Ht & Hm)|[Ho Hlt]].
    + exists w', 0%nat, closing. repeat split; auto. lia.
    + rewrite (event_loop_poll cfg E _ w idx c Hw Ho Hlt).
      destruct (IH (retried c 1) (retrieved w)
                  (suspended w [SetTimeout (retryDelay cfg); Retrieve (chain_callId c)]
                     (retrieved w) (retried c 1)) rest eq_refl)
        as (w' & j & closing & Hj & Hend & Hrun & Hev & Ht & Hm); [cbn; lia|].
      exists w', (S j), closing. cbn in Hend, Hev, Hm.
      repeat split; auto; [lia|].
      rewrite Hev. cbn [replicate concat]. now rewrite <- !app_assoc.
Qed.

(** X7.  Whatever the provider and the transports answer, a chain
    started with nothing else pending is over after at most
    [2 * budget - 1] turns, where [budget] is [maxRetries] (1 when that
    is below 1).  It never throws and never touches the registry.  It
    issues no more than [budget] lookups, each but the last followed by
    the timer, and its last attempt ends it in one of four ways: the
    failure notice; the printed transcript; the delivered transcript;
    or the refused transcript followed by the notice.  So at most one
    transcript and at most one notice are handed over, and unless the
    service is ['console'] the recipient is always sent something. *)
Theorem chain_always_ends callId email name w turns :
  tasks w = [] →
  let budget := Z.to_nat (Z.max 1 (maxRetries cfg)) in
  (2 * budget - 1 ≤ turns)%nat →
  ∃ w' j closing,
    (j < budget)%nat ∧
    chain_end cfg email (default "User" name) callId closing ∧
    (getTranscriptAndSendEmail callId email name;; event_loop cfg E turns) w = (Ok tt, w') ∧
    events w' = events w ++ polling cfg callId j ++ Retrieve callId :: closing ∧
    tasks w' = [] ∧ callMap w' = callMap w ∧
    (count is_delivery closing ≤ 1)%nat ∧ (count is_notice closing ≤ 1)%nat ∧
    (service cfg ≠ "console" → 1 ≤ count is_send closing)%nat.
Proof.
  intros Hw budget Hturns.
  assert (∃ rest, turns = (2 * (budget - 1) + 1 + rest)%nat) as [rest ->]
    by (exists (turns - 2 * (budget - 1) - 1)%nat; lia).
  unfold getTranscriptAndSendEmail. unfold mbind at 1, M_bind at 1.
  rewrite attemptToGetTranscript_run, Hw. cbn [app chain_callId].
  set (c0 := {| chain_callId := callId; chain_email := email;
                chain_name := default "User" name; retryCount := 0 |}).
  set (w0 := {| callMap := callMap w; events := events w ++ [Retrieve callId];
                tasks := [AwaitRetrieve (retrieved w) c0]; created := created w;
                retrieved := S (retrieved w); sent := sent w |}).
  destruct (chain_settles (budget - 1) c0 (retrieved w) w0 rest eq_refl)
    as (w' & j & closing & Hj & Hend & Hrun & Hev & Ht & Hm).
  { cbn [retryCount c0]. subst budget. lia. }
  exists w', j, closing. cbn in Hend, Hev, Hm.
  destruct (chain_end_counts _ _ _ _ Hend) as (_ & _ & Hd & Hn & _ & Hs).
  split; [lia|]. split; [exact Hend|]. split; [exact Hrun|].
  split; [|repeat split; auto].
  rewrite Hev, <- !app_assoc. cbn [app]. f_equal.
  rewrite app_comm_cons, (shifted_polling cfg callId j), <- app_assoc. reflexivity.
Qed.

End AnyEnvironment.

Section Reachable.

Variable cfg : Config.
Variable E : Env.

Lemma run_task_appends t w :
  ∃ w' tr, run_task cfg E t w = (Ok tt, w') ∧ events w' = events w ++ tr ∧
           callMap w' = callMap w.
Proof.
  destruct t as [n c|d c]; cbn [run_task].
  - destruct (retrieve E n (chain_callId c)) as [r|].
    + destruct (truthy_transcript (transcript r)) eqn:Ht.
      * rewrite attempt_settled_transcript by assumption.
        destruct (String.eqb (service cfg) "console"); [eexists _, _; repeat split|].
        cbv zeta. destruct (sendMail E (sent w) _ _); [eexists _, _; repeat split|].
        rewrite sendErrorEmail_run. eexists _, _. cbn.
        split; [reflexivity|]. split; [now rewrite <- app_assoc|reflexivity].
      * destruct (Z.lt_ge_cases (retryCount c + 1) (maxRetries cfg)).
        -- rewrite attempt_settled_retry by assumption. eexists _, _; repeat split.
        -- rewrite attempt_settled_exhausted, sendErrorEmail_run by assumption.
           eexists _, _; repeat split.
    + rewrite attempt_settled_rejected, sendErrorEmail_run. eexists _, _; repeat split.
  - rewrite attemptToGetTranscript_run. eexists _, _; repeat split.
Qed.

Lemma event_loop_appends turns : ∀ w,
  ∃ w' tr, event_loop cfg E turns w = (Ok tt, w') ∧ events w' = events w ++ tr ∧
           callMap w' = callMap w.
Proof.
  induction turns as [|k IH]; intros w.
  - exists w, []. cbn. now rewrite app_nil_r.
  - destruct (tasks w) as [|t rest] eqn:Hw.
    + rewrite event_loop_idle by assumption. exists w, []. now rewrite app_nil_r.
    + rewrite (event_loop_turn _ _ _ _ _ _ Hw).
      destruct (run_task_appends t (with_tasks w rest)) as (w1 & tr1 & -> & He1 & Hm1).
      destruct (IH w1) as (w2 & tr2 & -> & He2 & Hm2).
      exists w2, (tr1 ++ tr2). split; [reflexivity|].
      rewrite He2, He1, Hm2, Hm1. cbn. now rewrite app_assoc.
Qed.

Lemma webhook_events b w :
  events (exec (webhook b) w) = events w ∨
  events (exec (webhook b) w) = events w ++ [Retrieve (toStr (call b ≫= call_id))].
Proof.
  unfold exec. destruct (valid_payload b) eqn:Hv; [|rewrite webhook_invalid; auto].
  destruct (decide (event b = Some "call_ended")) as [He|He];
    [|rewrite webhook_other_event; auto].
  destruct (completed b) eqn:Hc.
  - destruct (truthy_obj (callMap w !! toStr (call b ≫= call_id))
              && truthy (callMap w !! toStr (call b ≫= call_id) ≫= email)) eqn:Hg.
    + apply andb_true_iff in Hg as [Hu Hm].
      destruct (callMap w !! toStr (call b ≫= call_id)) as [u|] eqn:Hlk; [|discriminate].
      rewrite (webhook_starts_retrieval b w u) by assumption. auto.
    + rewrite webhook_skips_retrieval by assumption. auto.
  - rewrite webhook_call_not_completed by assumption.
    destruct (truthy_obj _); auto.
Qed.

Lemma serve_count_bound r w :
  (activeCallsCount w ≤ count is_create (events w))%nat →
  (activeCallsCount (serve cfg E r w) ≤ count is_create (events (serve cfg E r w)))%nat.
Proof.
  unfold activeCallsCount. intros Hok. destruct r as [b now|b|n]; cbn [serve].
  - unfold exec. destruct (truthy (body_phone b) && truthy (body_email b)) eqn:Hv.
    + rewrite initiate_call_valid by assumption. cbv zeta.
      destruct (createPhoneCall E (created w) _) as [id|]; cbn [snd callMap events];
        rewrite count_snoc; cbn [is_create].
      * rewrite map_size_insert. destruct (callMap w !! id); cbn; lia.
      * lia.
    + now rewrite initiate_call_invalid.
  - assert (Hm : (size (callMap (exec (webhook b) w)) ≤ size (callMap w))%nat).
    { destruct (webhook_registry b w) as [->| ->]; [lia|].
      rewrite map_size_delete. destruct (callMap w !! _); cbn; lia. }
    destruct (webhook_events b w) as [->| ->]; [lia|].
    rewrite count_snoc. cbn. lia.
  - unfold exec. destruct (event_loop_appends n w) as (w' & tr & -> & He & Hm).
    cbn [snd]. rewrite Hm, He, count_app. lia.
Qed.

(** X8.  In every world the server reaches from its start, the number
    of active calls that [/health] and [/api/status] report is at most
    the number of calls the provider was asked to create. *)
Theorem active_calls_bounded_by_creations rs :
  (activeCallsCount (serve_all cfg E rs world0)
   ≤ count is_create (events (serve_all cfg E rs world0)))%nat.
Proof.
  assert (H : ∀ w, (activeCallsCount w ≤ count is_create (events w))%nat →
              (activeCallsCount (serve_all cfg E rs w)
               ≤ count is_create (events (serve_all cfg E rs w)))%nat).
  { induction rs as [|r rs IH]; intros w Hok; [assumption|].
    cbn [serve_all fold_left]. apply IH, serve_count_bound, Hok. }
  apply H. unfold activeCallsCount. cbn. rewrite map_size_empty. lia.
Qed.

End Reachable.

Section Frame.

Variable cfg : Config.
Variable E : Env.

(** X9.  A record of the registry is read or changed only on behalf
    of its own call: whatever request is served, the entry of [id] is
    as before unless the request is an initiation for which the
    provider returns [id], or a [call_ended] event that carries [id].
    In particular no turn of the event loop, and no other call's
    events, ever remove it. *)
Theorem record_changes_only_for_its_call r w id :
  (∀ b now, r = Initiate b now →
     createPhoneCall E (created w) ("+91" ++ toStr (body_phone b)) ≠ Some id) →
  (∀ b, r = Webhook b →
     event b ≠ Some "call_ended" ∨ toStr (call b ≫= call_id) ≠ id) →
  callMap (serve cfg E r w) !! id = callMap w !! id.
Proof.
  intros Hi Hw. destruct r as [b now|b|n]; cbn [serve].
  - specialize (Hi b now eq_refl). unfold exec.
    destruct (truthy (body_phone b) && truthy (body_email b)) eqn:Hv.
    + rewrite initiate_call_valid by assumption. cbv zeta.
      destruct (createPhoneCall E (created w) _) as [id'|] eqn:Hc; cbn [snd callMap];
        [|reflexivity].
      apply lookup_insert_ne. congruence.
    + now rewrite initiate_call_invalid.
  - destruct (Hw b eq_refl) as [He|Hid].
    + unfold exec. destruct (valid_payload b) eqn:Hv.
      * now rewrite webhook_other_event.
      * now rewrite webhook_invalid.
    + destruct (webhook_registry b w) as [->| ->]; [reflexivity|].
      now apply lookup_delete_ne.
  - unfold exec. destruct (event_loop_total cfg E n w) as (w' & -> & Hm).
    cbn [snd]. now rewrite Hm.
Qed.

End Frame.

(** * Further properties of [EmailService] *)

Section DeliveryCases.

Import EmailService.

Variable E : Env.
Variable this : EmailService.t.

Ltac send_step :=
  rewrite send_run; cbn [sent events];
  repeat match goal with H : sendMail _ _ _ _ = _ |- _ => rewrite H end;
  cbv beta iota.

Ltac run_service :=
  unfold sendTranscriptEmail, sendErrorNotification, sendViaMailerSend, sendViaGmail;
  cbv zeta;
  repeat match goal with H : _ this = _ |- _ => rewrite H end; cbn [andb];
  unfold try_catch, throw; unfold mbind, M_bind, mret, M_ret; cbv beta iota zeta;
  repeat send_step.

Ltac same_handed_over :=
  f_equal; unfold handed_over; cbn; f_equal; first [now rewrite <- ?app_assoc | lia].

(** What [sendTranscriptEmail] returns and hands over, case by case. *)
Lemma sendTranscriptEmail_cases recipientEmail recipientName transcript callData w :
  let m := {| mail_to := recipientEmail;
              mail_body := generateTranscriptHTML recipientName transcript
                             (toStr (call_id callData)) callData |} in
  let issue := {| mail_to := recipientEmail;
                  mail_body := IssueMail recipientName (toStr (call_id callData)) |} in
  sendTranscriptEmail E this recipientEmail recipientName transcript callData w =
  if mailerSend this then
    if sendMail E (sent w) MailerSend m then (Ok tt, handed_over w [Send MailerSend m])
    else if gmailTransporter this then
      if sendMail E (S (sent w)) Gmail m
      then (Ok tt, handed_over w [Send MailerSend m; Send Gmail m])
      else (Throw (SendFailed MailerSend),
            handed_over w [Send MailerSend m; Send Gmail m; Send MailerSend issue])
    else (Throw (SendFailed MailerSend),
          handed_over w [Send MailerSend m; Send MailerSend issue])
  else if gmailTransporter this then
    if sendMail E (sent w) Gmail m then (Ok tt, handed_over w [Send Gmail m])
    else (Throw (SendFailed Gmail), handed_over w [Send Gmail m; Send Gmail issue])
  else (Throw NoEmailService, handed_over w []).
Proof.
  intros m issue. subst m issue.
  destruct (mailerSend this) eqn:Hp, (gmailTransporter this) eqn:Hg.
  - destruct (sendMail E (sent w) MailerSend _) eqn:H1;
      [|destruct (sendMail E (S (sent w)) Gmail _) eqn:H2;
        [|destruct (sendMail E (S (S (sent w))) MailerSend
                      {| mail_to := recipientEmail;
                         mail_body := IssueMail recipientName (toStr (call_id callData)) |})
             eqn:H3]];
      run_service; same_handed_over.
  - destruct (sendMail E (sent w) MailerSend _) eqn:H1;
      [|destruct (sendMail E (S (sent w)) MailerSend
                   {| mail_to := recipientEmail;
                      mail_body := IssueMail recipientName (toStr (call_id callData)) |})
          eqn:H3];
      run_service; same_handed_over.
  - destruct (sendMail E (sent w) Gmail _) eqn:H1;
      [|destruct (sendMail E (S (sent w)) Gmail
                   {| mail_to := recipientEmail;
                      mail_body := IssueMail recipientName (toStr (call_id callData)) |})
          eqn:H3];
      run_service; same_handed_over.
  - run_service. f_equal. unfold handed_over. destruct w; cbn.
    f_equal; [now rewrite app_nil_r|lia].
Qed.

(** X10.  Whatever handles an instance has and whatever the
    transports answer, [sendTranscriptEmail] hands over at most three
    messages and the transcript is accepted at most once.  It returns
    normally exactly when a transport accepted the transcript, and then
    no notice is sent; otherwise it throws, after one notice if it has
    any handle.  The transcript is tried a second time only when both
    handles exist; with no handle nothing is handed over and the error
    is 'No email service configured'. *)
Theorem sendTranscriptEmail_delivers_at_most_once
    recipientEmail recipientName transcript callData w :
  let run := sendTranscriptEmail E this recipientEmail recipientName transcript callData in
  ∃ tr, exec run w = handed_over w tr ∧
        (length tr ≤ 3)%nat ∧
        (count is_delivery (accepted E (sent w) tr) ≤ 1)%nat ∧
        (result run w = Ok tt ↔ count is_delivery (accepted E (sent w) tr) = 1%nat) ∧
        (result run w = Ok tt → count is_notice tr = 0%nat) ∧
        (result run w ≠ Ok tt →
           count is_notice tr =
             if mailerSend this || gmailTransporter this then 1%nat else 0%nat) ∧
        (mailerSend this && gmailTransporter this = false →
           (count is_delivery tr ≤ 1)%nat) ∧
        (mailerSend this || gmailTransporter this = false →
           tr = [] ∧ result run w = Throw NoEmailService).
Proof.
  intros run. subst run. unfold result, exec.
  rewrite sendTranscriptEmail_cases. cbv zeta.
  destruct (mailerSend this), (gmailTransporter this); cbn [orb andb];
    repeat match goal with
           | |- context [if sendMail E ?s ?t ?m then _ else _] =>
               let H := fresh "Hs" in destruct (sendMail E s t m) eqn:H
           end;
    eexists; (split; [reflexivity|]); cbn [fst snd accepted length];
    rewrite ?Hs, ?Hs0; cbn [accepted];
    repeat match goal with
           | |- context [sendMail E ?s ?t ?m] => destruct (sendMail E s t m)
           end;
    cbn; repeat split; intros; try lia; try congruence; try discriminate.
Qed.

(** X11.  [sendErrorNotification] never throws, whatever the transport
    answers: it hands the notice to MailerSend when that handle exists,
    else to Gmail, else to nobody, and returns. *)
Theorem sendErrorNotification_never_throws recipientEmail recipientName callId w :
  let issue := {| mail_to := recipientEmail; mail_body := IssueMail recipientName callId |} in
  sendErrorNotification E this recipientEmail recipientName callId w =
  (Ok tt,
   handed_over w (if mailerSend this then [Send MailerSend issue]
                  else if gmailTransporter this then [Send Gmail issue]
                  else [])).
Proof.
  intros issue. subst issue.
  unfold sendErrorNotification, sendViaMailerSend, sendViaGmail, try_catch.
  destruct (mailerSend this) eqn:Hp; [|destruct (gmailTransporter this) eqn:Hg];
    rewrite ?send_run;
    try (destruct (sendMail E (sent w) _ _));
    unfold mret, M_ret; f_equal; unfold handed_over; destruct w; cbn;
    f_equal; rewrite ?app_nil_r; auto; lia.
Qed.

End DeliveryCases.

(** * The configuration loader *)

Lemma filter_nil_iff {A} (f : A → bool) l :
  List.filter f l = [] ↔ ∀ x, In x l → f x = false.
Proof.
  induction l as [|a l IH]; cbn; [split; [intros _ x []|reflexivity]|].
  destruct (f a) eqn:Hf; split.
  - discriminate.
  - intros H. specialize (H a (or_introl eq_refl)). congruence.
  - intros H x [<-|Hx]; [assumption|]. now apply IH.
  - intros H. apply IH. intros x Hx. apply H. now right.
Qed.

Lemma load_is_Some parseInt env :
  is_Some (load parseInt env) ↔ ∀ v, In v (requiredEnvVars env) → truthy (env !! v) = true.
Proof.
  unfold load, missingVars.
  destruct (List.filter _ _) as [|v l] eqn:Hf; cbn.
  - split; [intros _|eauto]. intros v Hv.
    apply (proj1 (filter_nil_iff _ _) Hf) in Hv. now apply negb_false_iff in Hv.
  - split; [intros [? [=]]|]. intros Hall. exfalso.
    assert (Hin : In v (List.filter (λ varName, negb (truthy (env !! varName)))
                          (requiredEnvVars env))) by (rewrite Hf; now left).
    apply List.filter_In in Hin as [Hin Hneg].
    rewrite (Hall v Hin) in Hneg. discriminate.
Qed.

(** X12.  The loader goes on exactly when [RETELL_API_KEY] and
    [RETELL_AGENT_ID] are set and non-empty, [EMAIL_PASS] is too if
    [EMAIL_SERVICE] is ['gmail'], and [SENDGRID_API_KEY] is too if it
    is ['sendgrid']; otherwise the process exits.  With [EMAIL_SERVICE]
    unset the configured service is still ['gmail'], and no mail
    credential is asked for. *)
Theorem load_requires parseInt env :
  (is_Some (load parseInt env) ↔
     truthy (env !! "RETELL_API_KEY") = true ∧
     truthy (env !! "RETELL_AGENT_ID") = true ∧
     (env !! "EMAIL_SERVICE" = Some "gmail" → truthy (env !! "EMAIL_PASS") = true) ∧
     (env !! "EMAIL_SERVICE" = Some "sendgrid" → truthy (env !! "SENDGRID_API_KEY") = true)) ∧
  (∀ cfg, load parseInt env = Some cfg → env !! "EMAIL_SERVICE" = None →
          service cfg = "gmail").
Proof.
  split.
  - rewrite load_is_Some. unfold requiredEnvVars. split.
    + intros H. repeat split.
      * apply H. cbn. auto.
      * apply H. cbn. auto.
      * intros Hg. apply H. rewrite bool_decide_eq_true_2 by assumption. cbn. auto.
      * intros Hs. apply H. rewrite (bool_decide_eq_true_2 _ Hs).
        apply in_or_app. right. apply in_or_app. right. now left.
    + intros (H1 & H2 & Hg & Hs) v Hv.
      apply in_app_or in Hv as [[<-|[<-|[]]]|Hv]; [assumption|assumption|].
      apply in_app_or in Hv as [Hv|Hv].
      * case_bool_decide; [|destruct Hv]. destruct Hv as [<-|[]]. auto.
      * case_bool_decide; [|destruct Hv]. destruct Hv as [<-|[]]. auto.
  - intros cfg Hl He. unfold load in Hl.
    destruct (0 <? length (missingVars env))%nat; [discriminate|].
    injection Hl as <-. cbn. now rewrite He.
Qed.

Lemma lookups_allowed_budget env :
  lookups_allowed env = Z.to_nat (Z.max 1 (maxRetries (config env))).
Proof.
  unfold lookups_allowed, config, or_num. cbn.
  destruct (MAX_TRANSCRIPT_RETRIES env) as [n|]; [|reflexivity].
  destruct (Z.eqb_spec n 0); [reflexivity|]. destruct (Z.ltb_spec n 0); lia.
Qed.

(** X13.  How [MAX_TRANSCRIPT_RETRIES] limits a chain that never finds
    a transcript: a positive number [n] allows [n] lookups; unset, not
    a number, or 0, it allows 5 (0 does not switch polling off); a
    negative number allows 1.  After that many lookups the notice is
    sent once and the chain is over. *)
Theorem configured_lookups env E callId email name w turns :
  (∀ n, absent_or_empty (retrieve E n callId) = true) →
  tasks w = [] →
  (2 * lookups_allowed env - 1 ≤ turns)%nat →
  let w' := exec (getTranscriptAndSendEmail callId email name;;
                  event_loop (config env) E turns) w in
  count is_retrieve (events w') = (count is_retrieve (events w) + lookups_allowed env)%nat ∧
  count is_notice (events w') = (count is_notice (events w) + 1)%nat ∧
  tasks w' = [].
Proof.
  intros Ho Hw Hturns w'. subst w'. unfold exec.
  rewrite lookups_allowed_budget in *.
  rewrite exhausted_chain by assumption. cbn [snd quiescent events tasks].
  rewrite !count_app, !count_polling. unfold notice. cbn. repeat split; lia.
Qed.

(** * The utilities *)

(** ** The matcher finds the words of the expression *)
Section RegexFacts.

Import Regex.

Lemma nullable_lang r : nullable r = true ↔ lang r [].
Proof.
  induction r; cbn.
  - split; [discriminate | tauto].
  - tauto.
  - split; [discriminate | intros (c & H & _); discriminate].
  - rewrite andb_true_iff, IHr1, IHr2. split.
    + intros [H1 H2]. now exists [], [].
    + intros (s1 & s2 & H & H1 & H2).
      symmetry in H. apply app_eq_nil in H as [-> ->]. tauto.
  - rewrite orb_true_iff, IHr1, IHr2. tauto.
  - split; [intros _; constructor | reflexivity].
Qed.

Lemma star_cons_inv (L : list N → Prop) c s :
  star L (c :: s) → ∃ s1 s2, s = s1 ++ s2 ∧ L (c :: s1) ∧ star L s2.
Proof.
  intros H. remember (c :: s) as t eqn:Ht. revert c s Ht.
  induction H as [|s1 s2 H1 H2 IH]; intros c s Ht; [discriminate|].
  destruct s1 as [|c1 s1]; cbn in Ht.
  - now apply IH.
  - injection Ht as -> <-. now exists s1, s2.
Qed.

Lemma deriv_lang c r s : lang (deriv c r) s ↔ lang r (c :: s).
Proof.
  revert s. induction r; intros s; cbn.
  - tauto.
  - split; [tauto | discriminate].
  - destruct (p c) eqn:Hp; cbn.
    + split; [intros ->; now exists c | now intros (c' & [= _ ->] & _)].
    + split; [tauto | intros (c' & [= -> _] & H); congruence].
  - destruct (nullable r1) eqn:Hn; cbn.
    + split.
      * intros [(s1 & s2 & -> & H1 & H2) | H].
        -- exists (c :: s1), s2. rewrite <- IHr1. auto.
        -- exists [], (c :: s). rewrite <- IHr2, <- nullable_lang. auto.
      * intros (s1 & s2 & H & H1 & H2). destruct s1 as [|c1 s1]; cbn in H.
        -- right. subst s2. now apply IHr2.
        -- injection H as <- ->. left. exists s1, s2. rewrite IHr1. auto.
    + split.
      * intros (s1 & s2 & -> & H1 & H2). exists (c :: s1), s2. rewrite <- IHr1. auto.
      * intros (s1 & s2 & H & H1 & H2). destruct s1 as [|c1 s1]; cbn in H.
        -- apply nullable_lang in H1. congruence.
        -- injection H as <- ->. exists s1, s2. rewrite IHr1. auto.
  - rewrite IHr1, IHr2. tauto.
  - split.
    + intros (s1 & s2 & -> & H1 & H2).
      apply (star_app (lang r) (c :: s1) s2); [now apply IHr | exact H2].
    + intros H. apply star_cons_inv in H as (s1 & s2 & -> & H1 & H2).
      exists s1, s2. rewrite IHr. auto.
Qed.

Lemma test_lang r s : test r s = true ↔ lang r s.
Proof.
  revert r. induction s as [|c s IH]; intros r; cbn.
  - apply nullable_lang.
  - rewrite IH. apply deriv_lang.
Qed.

Lemma lang_star_class p s : lang (Star (Class p)) s ↔ forallb p s = true.
Proof.
  cbn. split.
  - induction 1 as [|s1 s2 (c & -> & Hc) _ IH]; [reflexivity|].
    cbn. now rewrite Hc.
  - induction s as [|c s IH]; cbn; [constructor|].
    rewrite andb_true_iff. intros [Hc Hs].
    apply (star_app _ [c] s); [now exists c | auto].
Qed.

Lemma lang_plus_class p s :
  lang (plus (Class p)) s ↔ s ≠ [] ∧ forallb p s = true.
Proof.
  unfold plus. change (lang (Cat ?a ?b) s) with (∃ s1 s2, s = s1 ++ s2 ∧ lang a s1 ∧ lang b s2).
  split.
  - intros (s1 & s2 & -> & (c & -> & Hc) & H2). apply lang_star_class in H2.
    cbn. rewrite Hc, H2. now split.
  - intros [Hne H]. destruct s as [|c s]; [congruence|].
    cbn in H. apply andb_true_iff in H as [Hc Hs].
    exists [c], s. repeat split; [now exists c | now apply lang_star_class].
Qed.

Lemma lang_times_class p n s :
  lang (times n (Class p)) s ↔ length s = n ∧ forallb p s = true.
Proof.
  revert s. induction n as [|n IH]; intros s.
  - cbn. split; [intros ->; now split | intros [H _]; now destruct s].
  - change (lang (times (S n) (Class p)) s)
      with (∃ s1 s2, s = s1 ++ s2 ∧ lang (Class p) s1 ∧ lang (times n (Class p)) s2).
    split.
    + intros (s1 & s2 & -> & (c & -> & Hc) & H2). apply IH in H2 as [<- H2].
      cbn. rewrite Hc, H2. now split.
    + intros [Hl H]. destruct s as [|c s]; [discriminate|].
      cbn in H. apply andb_true_iff in H as [Hc Hs]. injection Hl as Hl.
      exists [c], s. repeat split; [now exists c | now apply IH].
Qed.

Lemma lang_at_least_class p n s :
  lang (at_least n (Class p)) s ↔ (n ≤ length s)%nat ∧ forallb p s = true.
Proof.
  unfold at_least.
  change (lang (Cat ?a ?b) s) with (∃ s1 s2, s = s1 ++ s2 ∧ lang a s1 ∧ lang b s2).
  split.
  - intros (s1 & s2 & -> & H1 & H2).
    apply lang_times_class in H1 as [<- H1]. apply lang_star_class in H2.
    rewrite forallb_app, H1, H2, length_app. split; [lia | reflexivity].
  - intros [Hl H]. exists (take n s), (drop n s).
    rewrite <- (take_drop n s) in H. rewrite forallb_app in H.
    apply andb_true_iff in H as [H1 H2].
    repeat split.
    + now rewrite take_drop.
    + apply lang_times_class. split; [rewrite length_take; lia | exact H1].
    + now apply lang_star_class.
Qed.

End RegexFacts.

(** ** Phone numbers *)
Section PhoneFacts.

Import Regex.

Lemma remove_non_digits s : Utils.remove_all Utils.non_digit s = List.filter Utils.digit s.
Proof.
  unfold Utils.remove_all, Utils.non_digit. induction s as [|c s IH]; cbn; [reflexivity|].
  rewrite IH. now destruct (Utils.digit c).
Qed.

Lemma forallb_filter_same (p : N → bool) s : forallb p (List.filter p s) = true.
Proof.
  induction s as [|c s IH]; cbn; [reflexivity|].
  destruct (p c) eqn:Hc; cbn; [now rewrite Hc|exact IH].
Qed.

Lemma filter_all (p : N → bool) s : forallb p s = true → List.filter p s = s.
Proof.
  induction s as [|c s IH]; cbn; [reflexivity|].
  rewrite andb_true_iff. intros [-> H]. now rewrite IH.
Qed.

Lemma filter_none (p : N → bool) s : forallb (λ c, negb (p c)) s = true → List.filter p s = [].
Proof.
  induction s as [|c s IH]; cbn; [reflexivity|].
  rewrite andb_true_iff. intros [Hc H]. apply negb_true_iff in Hc. now rewrite Hc, IH.
Qed.

Lemma test_phoneRegex s :
  test Utils.phoneRegex s = true ↔ length s = 10%nat ∧ forallb Utils.digit s = true.
Proof. rewrite test_lang. apply lang_times_class. Qed.

Lemma digits_of_formatted phone :
  List.filter Utils.digit (Utils.formatPhoneNumber phone) = List.filter Utils.digit phone.
Proof.
  unfold Utils.formatPhoneNumber. rewrite remove_non_digits.
  set (c := List.filter Utils.digit phone).
  destruct (Nat.eqb_spec (length c) 10) as [Hl|]; [|reflexivity].
  assert (Hc : forallb Utils.digit c = true) by apply forallb_filter_same.
  unfold Utils.slice, Utils.slice_from.
  do 10 (destruct c as [|? c]; [discriminate Hl|]). destruct c; [|discriminate Hl].
  cbn in Hc. repeat (apply andb_true_iff in Hc as [? Hc]).
  cbn. now repeat match goal with H : Utils.digit _ = true |- _ => rewrite H; clear H end.
Qed.

End PhoneFacts.

(** X14. [validatePhoneNumber] of the utilities accepts a string exactly
    when it holds ten digits, whatever else stands between them. *)
Theorem validatePhoneNumber_counts_digits phone :
  Utils.validatePhoneNumber phone = true
  ↔ length (List.filter Utils.digit phone) = 10%nat.
Proof.
  unfold Utils.validatePhoneNumber. rewrite remove_non_digits, test_phoneRegex.
  split; [tauto|]. intros H. split; [exact H | apply forallb_filter_same].
Qed.

(** X15. The form is stricter than the utilities: it accepts a phone
    exactly when it is ten digits and nothing else, every phone it
    accepts is valid for the utilities too, and the utilities format
    it as [(ddd) ddd-dddd]. *)
Theorem form_phone_is_ten_digits phone :
  (App.validatePhoneNumber phone = true
   ↔ length phone = 10%nat ∧ forallb Utils.digit phone = true)
  ∧ (App.validatePhoneNumber phone = true →
     Utils.validatePhoneNumber phone = true
     ∧ Utils.formatPhoneNumber phone
       = units "(" ++ take 3 phone ++ units ") " ++ take 3 (drop 3 phone)
         ++ units "-" ++ drop 6 phone).
Proof.
  unfold App.validatePhoneNumber. rewrite test_phoneRegex. split; [tauto|].
  intros [Hl Hd]. split.
  - unfold Utils.validatePhoneNumber. rewrite remove_non_digits, (filter_all _ _ Hd).
    apply test_phoneRegex. now split.
  - unfold Utils.formatPhoneNumber. rewrite remove_non_digits, (filter_all _ _ Hd), Hl.
    reflexivity.
Qed.

(** X16. Formatting a phone number keeps its digits, in their order;
    so it keeps the verdict of [validatePhoneNumber], and formatting
    twice is formatting once. *)
Theorem formatPhoneNumber_keeps_digits phone :
  List.filter Utils.digit (Utils.formatPhoneNumber phone) = List.filter Utils.digit phone
  ∧ Utils.validatePhoneNumber (Utils.formatPhoneNumber phone)
    = Utils.validatePhoneNumber phone
  ∧ Utils.formatPhoneNumber (Utils.formatPhoneNumber phone)
    = Utils.formatPhoneNumber phone.
Proof.
  pose proof (digits_of_formatted phone) as Hd. split; [exact Hd|]. split.
  - unfold Utils.validatePhoneNumber. now rewrite !remove_non_digits, Hd.
  - unfold Utils.formatPhoneNumber at 1. rewrite remove_non_digits, Hd.
    unfold Utils.formatPhoneNumber. rewrite remove_non_digits.
    now destruct (length (List.filter Utils.digit phone) =? 10)%nat.
Qed.

(** X17. A phone number that is not valid is returned by
    [formatPhoneNumber] as it is; a valid one becomes fourteen
    characters long. *)
Theorem formatPhoneNumber_length phone :
  (Utils.validatePhoneNumber phone = false → Utils.formatPhoneNumber phone = phone)
  ∧ (Utils.validatePhoneNumber phone = true →
     length (Utils.formatPhoneNumber phone) = 14%nat).
Proof.
  unfold Utils.validatePhoneNumber, Utils.formatPhoneNumber.
  rewrite remove_non_digits.
  set (c := List.filter Utils.digit phone).
  destruct (Nat.eqb_spec (length c) 10) as [Hl|Hl]; split.
  - intros H. assert (Regex.test Utils.phoneRegex c = true) as H'; [|congruence].
    apply test_phoneRegex. split; [exact Hl | apply forallb_filter_same].
  - intros _. unfold Utils.slice, Utils.slice_from.
    rewrite !length_app, !length_take, !length_drop, Hl. reflexivity.
  - reflexivity.
  - intros H. apply test_phoneRegex in H as [H _]. contradiction.
Qed.

(** ** Character classes *)

(** Boolean tests on code units, as arithmetic. *)
Ltac classes :=
  unfold Utils.local_char, Utils.domain_char, Utils.letter, Utils.digit, Utils.non_digit,
    Utils.white_space, special, Regex.range, Regex.char, unit_of in *;
  cbn [N_of_ascii N_of_digits N.add N.mul Pos.add Pos.mul Pos.succ] in *;
  repeat match goal with
    | H : _ = false |- _ => apply not_true_iff_false in H
    | |- _ = false => apply not_true_iff_false
    end;
  rewrite ?negb_true_iff, ?orb_true_iff, ?andb_true_iff, ?N.leb_le, ?N.eqb_eq in *;
  repeat match goal with
    | H : context [_ = false] |- _ =>
        rewrite <- ?not_true_iff_false, ?orb_true_iff, ?andb_true_iff, ?N.leb_le, ?N.eqb_eq in H
    end;
  try lia.

Lemma local_char_plain c :
  Utils.local_char c = true → special c = false ∧ Utils.white_space c = false
                              ∧ Regex.char "@" c = false.
Proof. intros H. repeat split; classes. Qed.

Lemma domain_char_local c : Utils.domain_char c = true → Utils.local_char c = true.
Proof. intros H. classes. Qed.

Lemma letter_domain c : Utils.letter c = true → Utils.domain_char c = true.
Proof. intros H. classes. Qed.

Lemma at_char c : Regex.char "@" c = true → special c = false ∧ Utils.white_space c = false.
Proof. intros H. split; classes. Qed.

Lemma dot_domain c : Regex.char "." c = true → Utils.domain_char c = true.
Proof. intros H. classes. Qed.

(** ** Sanitising *)
Section SanitizeFacts.

Lemma entity_cases u :
  (special u = false ∧ entity u = [u])
  ∨ (u = unit_of "&" ∧ entity u = units "&amp;")
  ∨ (u = unit_of "<" ∧ entity u = units "&lt;")
  ∨ (u = unit_of ">" ∧ entity u = units "&gt;")
  ∨ (u = unit_of "034" ∧ entity u = units "&quot;")
  ∨ (u = unit_of "'" ∧ entity u = units "&#x27;").
Proof.
  unfold entity, special, Regex.char.
  destruct (N.eqb_spec u (unit_of "&")) as [->|]; [tauto|].
  destruct (N.eqb_spec u (unit_of "<")) as [->|]; [tauto|].
  destruct (N.eqb_spec u (unit_of ">")) as [->|]; [tauto|].
  destruct (N.eqb_spec u (unit_of "034")) as [->|]; [tauto|].
  destruct (N.eqb_spec u (unit_of "'")) as [->|]; tauto.
Qed.

(** Code units of literals, computed. *)
Ltac ground :=
  repeat match goal with
    | |- context [units ?s] =>
        let v := eval vm_compute in (units s) in change (units s) with v
    | |- context [unit_of ?a] =>
        let v := eval vm_compute in (unit_of a) in change (unit_of a) with v
    end.

Ltac entity_of u :=
  destruct (entity_cases u) as
    [[? ->]|[[-> ->]|[[-> ->]|[[-> ->]|[[-> ->]|[-> ->]]]]]]; ground.

Lemma replace_all_flat_map c r (f : N → list N) s :
  Utils.replace_all c r (flat_map f s) = flat_map (λ u, Utils.replace_all c r (f u)) s.
Proof.
  unfold Utils.replace_all. induction s as [|u s IH]; cbn; [reflexivity|].
  now rewrite flat_map_app, IH.
Qed.

Lemma replace_all_one c r u :
  Utils.replace_all c r [u] = if Regex.char c u then units r else [u].
Proof. unfold Utils.replace_all. cbn. apply app_nil_r. Qed.

(** The five replacements, one after the other, put [entity u] in the
    place of every [u]: no replacement brings in a character that a
    later one replaces. *)
Lemma replacements_entity s :
  Utils.replace_all "'" "&#x27;"
    (Utils.replace_all "034" "&quot;"
       (Utils.replace_all ">" "&gt;"
          (Utils.replace_all "<" "&lt;" (Utils.replace_all "&" "&amp;" s))))
  = flat_map entity s.
Proof.
  unfold Utils.replace_all at 5.
  rewrite !replace_all_flat_map. apply flat_map_ext. intros u.
  unfold entity.
  destruct (Regex.char "&" u) eqn:H1; [reflexivity|].
  rewrite replace_all_one.
  destruct (Regex.char "<" u) eqn:H2; [reflexivity|].
  rewrite replace_all_one.
  destruct (Regex.char ">" u) eqn:H3; [reflexivity|].
  rewrite replace_all_one.
  destruct (Regex.char "034" u) eqn:H4; [reflexivity|].
  rewrite replace_all_one.
  now destruct (Regex.char "'" u).
Qed.

Lemma sanitizeInput_string {A} s :
  Utils.sanitizeInput (A := A) (inl s) = inl (Utils.trim (flat_map entity s)).
Proof. unfold Utils.sanitizeInput. now rewrite replacements_entity. Qed.

Lemma entity_plain s : forallb (λ u, negb (special u)) s = true → flat_map entity s = s.
Proof.
  induction s as [|u s IH]; cbn [flat_map forallb]; [reflexivity|].
  rewrite andb_true_iff, negb_true_iff. intros [Hu Hs]. rewrite (IH Hs).
  revert Hu. entity_of u; [reflexivity | discriminate ..].
Qed.

Lemma entity_clean u : forallb (λ v, negb (special v) || Regex.char "&" v) (entity u) = true.
Proof.
  entity_of u; try reflexivity. cbn. now rewrite H.
Qed.

Lemma length_entity s : (length s ≤ length (flat_map entity s))%nat.
Proof.
  induction s as [|u s IH]; cbn [flat_map length]; [lia|]. rewrite length_app.
  entity_of u; cbn [length]; lia.
Qed.

Lemma entity_prefix_free u v x y :
  entity u ++ x = entity v ++ y → u = v ∧ x = y.
Proof.
  entity_of u; entity_of v; cbn; intros Heq;
    try discriminate Heq;
    try (injection Heq as ->; now split);
    injection Heq as Hu Hx; subst;
    try match goal with H : special _ = false |- _ => discriminate H end.
Qed.

Lemma entity_injective a b : flat_map entity a = flat_map entity b → a = b.
Proof.
  revert b. induction a as [|u a IH]; intros [|v b]; cbn [flat_map]; intros H.
  - reflexivity.
  - exfalso. revert H. entity_of v; discriminate.
  - exfalso. revert H. entity_of u; discriminate.
  - apply entity_prefix_free in H as [-> H]. now rewrite (IH _ H).
Qed.

Lemma entity_fixed s : flat_map entity s = s → forallb (λ u, negb (special u)) s = true.
Proof.
  induction s as [|u s IH]; cbn [flat_map forallb]; [reflexivity|].
  pose proof (length_entity s) as Hl. revert Hl.
  entity_of u; intros Hl Heq; cbn in Heq; try discriminate Heq.
  - injection Heq as Heq. rewrite H. cbn. now apply IH.
  - exfalso. injection Heq as Heq. apply (f_equal (@length N)) in Heq.
    cbn in Heq. lia.
Qed.

(** *** [trim] *)

Lemma drop_while_flat_map (g : N → list N) s :
  (∀ u, Utils.white_space u = true → g u = [u]) →
  (∀ u, Utils.white_space u = false → ∃ v t, g u = v :: t ∧ Utils.white_space v = false) →
  Utils.drop_while Utils.white_space (flat_map g s)
  = flat_map g (Utils.drop_while Utils.white_space s).
Proof.
  intros Hw Hn. induction s as [|u s IH]; cbn; [reflexivity|].
  destruct (Utils.white_space u) eqn:Hu.
  - rewrite (Hw u Hu). cbn. now rewrite Hu.
  - destruct (Hn u Hu) as (v & t & Hg & Hv). cbn. rewrite Hg. cbn. now rewrite Hv.
Qed.

Lemma rev_flat_map (g : N → list N) s :
  rev (flat_map g s) = flat_map (λ u, rev (g u)) (rev s).
Proof.
  induction s as [|u s IH]; cbn; [reflexivity|].
  rewrite rev_app_distr, IH, flat_map_app. cbn. now rewrite app_nil_r.
Qed.

Lemma white_space_plain u : Utils.white_space u = true → special u = false.
Proof. intros H. classes. Qed.

Lemma trim_entity s : Utils.trim (flat_map entity s) = flat_map entity (Utils.trim s).
Proof.
  unfold Utils.trim.
  rewrite (drop_while_flat_map entity), rev_flat_map.
  - rewrite (drop_while_flat_map (λ u, rev (entity u))), rev_flat_map.
    + apply flat_map_ext. intros u. apply rev_involutive.
    + intros u Hu. apply white_space_plain in Hu. revert Hu.
      entity_of u; [reflexivity | discriminate ..].
    + intros u Hu. revert Hu. entity_of u; cbn [rev app]; eauto.
  - intros u Hu. apply white_space_plain in Hu. revert Hu.
    entity_of u; [reflexivity | discriminate ..].
  - intros u Hu. revert Hu. entity_of u; eauto.
Qed.

Lemma forallb_drop_while (p q : N → bool) s :
  forallb p s = true → forallb p (Utils.drop_while q s) = true.
Proof.
  induction s as [|u s IH]; cbn; [reflexivity|].
  rewrite andb_true_iff. intros [Hu Hs].
  destruct (q u); [auto | cbn; now rewrite Hu, Hs].
Qed.

Lemma forallb_rev (p : N → bool) s : forallb p (rev s) = forallb p s.
Proof.
  induction s as [|u s IH]; cbn; [reflexivity|].
  rewrite forallb_app, IH. cbn. rewrite andb_true_r. apply andb_comm.
Qed.

Lemma forallb_trim (p : N → bool) s : forallb p s = true → forallb p (Utils.trim s) = true.
Proof.
  intros H. unfold Utils.trim. rewrite forallb_rev.
  apply forallb_drop_while. rewrite forallb_rev. now apply forallb_drop_while.
Qed.

Lemma drop_while_head s :
  match Utils.drop_while Utils.white_space s with
  | [] => True
  | u :: _ => Utils.white_space u = false
  end.
Proof.
  induction s as [|u s IH]; cbn; [exact I|].
  destruct (Utils.white_space u) eqn:Hu; [exact IH | exact Hu].
Qed.

Lemma drop_while_id s :
  match s with [] => True | u :: _ => Utils.white_space u = false end →
  Utils.drop_while Utils.white_space s = s.
Proof. destruct s as [|u s]; cbn; [reflexivity|]. now intros ->. Qed.

Lemma drop_while_last s u :
  Utils.white_space u = false →
  Utils.drop_while Utils.white_space (s ++ [u]) = Utils.drop_while Utils.white_space s ++ [u].
Proof.
  intros Hu. induction s as [|v s IH]; cbn; [now rewrite Hu|].
  destruct (Utils.white_space v); [exact IH | reflexivity].
Qed.

(** Trimming leaves a string that neither starts nor ends with white
    space. *)
Lemma trim_ends s :
  match Utils.trim s with [] => True | u :: _ => Utils.white_space u = false end
  ∧ match rev (Utils.trim s) with [] => True | u :: _ => Utils.white_space u = false end.
Proof.
  unfold Utils.trim. rewrite rev_involutive. split; [|apply drop_while_head].
  pose proof (drop_while_head s) as Hh.
  set (t := Utils.drop_while Utils.white_space s) in *.
  induction t as [|v t IH] using rev_ind; cbn; [exact I|].
  rewrite rev_app_distr. cbn.
  destruct (Utils.white_space v) eqn:Hv.
  - apply IH. destruct t; [exact I | exact Hh].
  - cbn. rewrite rev_involutive. destruct t; cbn; [exact Hv | exact Hh].
Qed.

Lemma trim_fixed s :
  match s with [] => True | u :: _ => Utils.white_space u = false end →
  match rev s with [] => True | u :: _ => Utils.white_space u = false end →
  Utils.trim s = s.
Proof.
  intros H1 H2. unfold Utils.trim.
  rewrite (drop_while_id s H1), (drop_while_id _ H2). apply rev_involutive.
Qed.

Lemma trim_idempotent s : Utils.trim (Utils.trim s) = Utils.trim s.
Proof. destruct (trim_ends s). now apply trim_fixed. Qed.

Lemma trim_no_space s :
  forallb (λ u, negb (Utils.white_space u)) s = true → Utils.trim s = s.
Proof.
  intros H. apply trim_fixed.
  - destruct s as [|u s]; [exact I|]. cbn in H.
    apply andb_true_iff in H as [H _]. now apply negb_true_iff.
  - rewrite <- forallb_rev in H. destruct (rev s) as [|u t]; [exact I|]. cbn in H.
    apply andb_true_iff in H as [H _]. now apply negb_true_iff.
Qed.

End SanitizeFacts.

Lemma forallb_flat_map (p : N → bool) (g : N → list N) s :
  (∀ u, forallb p (g u) = true) → forallb p (flat_map g s) = true.
Proof.
  intros Hg. induction s as [|u s IH]; cbn; [reflexivity|].
  now rewrite forallb_app, Hg, IH.
Qed.

Lemma forallb_impl (p q : N → bool) s :
  (∀ u, p u = true → q u = true) → forallb p s = true → forallb q s = true.
Proof.
  intros Hpq. induction s as [|u s IH]; cbn; [reflexivity|].
  rewrite !andb_true_iff. intros [Hu Hs]. auto.
Qed.

(** X18. What [sanitizeInput] returns for a string holds none of
    [<], [>], the double quote and the single quote, and neither starts
    nor ends with white space; a value that is not a string comes back
    as it is. *)
Theorem sanitizeInput_removes_markup {A} (s : list N) :
  ∃ out,
    Utils.sanitizeInput (A := A) (inl s) = inl out
    ∧ forallb (λ u, negb (markup u)) out = true
    ∧ Utils.trim out = out
    ∧ ∀ other : A, Utils.sanitizeInput (inr other) = inr other.
Proof.
  exists (Utils.trim (flat_map entity s)). split; [apply sanitizeInput_string|].
  split; [|split; [apply trim_idempotent | reflexivity]].
  apply forallb_trim.
  apply (forallb_impl (λ v, negb (special v) || Regex.char "&" v)).
  - intros u. unfold special, markup.
    destruct (Regex.char "&" u) eqn:Ha; [|now rewrite orb_false_r].
    intros _. apply N.eqb_eq in Ha. now subst u.
  - apply forallb_flat_map, entity_clean.
Qed.

(** X19. [sanitizeInput] loses nothing but the white space at the two
    ends: two strings are sanitised to the same string exactly when
    they are equal after trimming. *)
Theorem sanitizeInput_equal_iff_trim_equal (a b : list N) :
  Utils.sanitizeInput (A := Empty_set) (inl a) = Utils.sanitizeInput (inl b)
  ↔ Utils.trim a = Utils.trim b.
Proof.
  rewrite !sanitizeInput_string, !trim_entity. split.
  - intros [= H]. now apply entity_injective.
  - now intros ->.
Qed.

(** X20. Sanitising twice is not sanitising once: the second pass
    leaves the string alone exactly when the trimmed input holds none
    of the five characters that are replaced. *)
Theorem sanitizeInput_twice (s : list N) :
  Utils.sanitizeInput (A := Empty_set) (Utils.sanitizeInput (inl s))
  = Utils.sanitizeInput (inl s)
  ↔ forallb (λ u, negb (special u)) (Utils.trim s) = true.
Proof.
  rewrite !sanitizeInput_string, !trim_entity, trim_idempotent. split.
  - intros [= H]. apply entity_injective in H. now apply entity_fixed.
  - intros H. now rewrite !(entity_plain _ H).
Qed.

(** ** Addresses *)

Lemma test_emailRegex s : Regex.test Utils.emailRegex s = true ↔ email_shape s.
Proof.
  rewrite test_lang. unfold Utils.emailRegex, email_shape.
  change (Regex.lang (Regex.Cat ?a ?b) s)
    with (∃ s1 s2, s = s1 ++ s2 ∧ Regex.lang a s1 ∧ Regex.lang b s2).
  split.
  - intros (l & s2 & -> & Hl & c1 & s3 & -> & (c & -> & Hc) & d & s4 & -> & Hd
            & c2 & t & -> & (c' & -> & Hc') & Ht).
    apply lang_plus_class in Hl as [Hl1 Hl2].
    apply lang_plus_class in Hd as [Hd1 Hd2].
    apply lang_at_least_class in Ht as [Ht1 Ht2].
    apply N.eqb_eq in Hc, Hc'. subst c c'.
    exists l, d, t. now repeat split.
  - intros (l & d & t & -> & Hl1 & Hl2 & Hd1 & Hd2 & Ht1 & Ht2).
    exists l, (units "@" ++ d ++ units "." ++ t).
    split; [reflexivity|]. split; [now apply lang_plus_class|].
    exists (units "@"), (d ++ units "." ++ t).
    split; [reflexivity|]. split; [now eexists|].
    exists d, (units "." ++ t).
    split; [reflexivity|]. split; [now apply lang_plus_class|].
    exists (units "."), t.
    split; [reflexivity|]. split; [now eexists|].
    now apply lang_at_least_class.
Qed.

(** X21. [validateEmail] accepts exactly the strings made of a local
    part, [@], a domain, a dot and at least two letters, each part in
    its alphabet and the first two not empty. *)
Theorem validateEmail_shape email :
  Utils.validateEmail email = true ↔ email_shape email.
Proof. apply test_emailRegex. Qed.

Lemma email_shape_chars s :
  email_shape s →
  forallb (λ c, Utils.local_char c || Regex.char "@" c) s = true
  ∧ length (List.filter (Regex.char "@") s) = 1%nat
  ∧ (6 ≤ length s)%nat.
Proof.
  intros (l & d & t & -> & Hl1 & Hl2 & Hd1 & Hd2 & Ht1 & Ht2).
  assert (Hd3 : forallb Utils.local_char d = true).
  { revert Hd2. apply forallb_impl, domain_char_local. }
  assert (Ht3 : forallb Utils.local_char t = true).
  { revert Ht2. apply forallb_impl. intros c Hc.
    now apply domain_char_local, letter_domain. }
  assert (Hno : ∀ x, forallb Utils.local_char x = true →
                     List.filter (Regex.char "@") x = []).
  { intros x Hx. apply filter_none. revert Hx. apply forallb_impl.
    intros c Hc. apply local_char_plain in Hc as (_ & _ & ->). reflexivity. }
  assert (Hor : ∀ x, forallb Utils.local_char x = true →
                     forallb (λ c, Utils.local_char c || Regex.char "@" c) x = true).
  { intros x. apply forallb_impl. now intros c ->. }
  split; [|split].
  - rewrite !forallb_app, (Hor l), (Hor d), (Hor t) by assumption. reflexivity.
  - rewrite !List.filter_app, (Hno l), (Hno d), (Hno t) by assumption. reflexivity.
  - rewrite !length_app. destruct l; [congruence|]. destruct d; [congruence|].
    cbn. lia.
Qed.

(** X22. A valid address holds exactly one [@], is at least six
    characters long, and is left as it is by [sanitizeInput]. *)
Theorem valid_email_is_sanitized email :
  Utils.validateEmail email = true →
  length (List.filter (Regex.char "@") email) = 1%nat
  ∧ (6 ≤ length email)%nat
  ∧ Utils.sanitizeInput (A := Empty_set) (inl email) = inl email.
Proof.
  intros H. apply test_emailRegex, email_shape_chars in H as (Hc & Hat & Hlen).
  split; [exact Hat|]. split; [exact Hlen|].
  rewrite sanitizeInput_string, trim_entity.
  assert (Hns : forallb (λ u, negb (Utils.white_space u)) email = true).
  { revert Hc. apply forallb_impl. intros c Hc.
    apply orb_true_iff in Hc as [Hc|Hc].
    - apply local_char_plain in Hc as (_ & -> & _). reflexivity.
    - apply at_char in Hc as (_ & ->). reflexivity. }
  rewrite (trim_no_space _ Hns). f_equal. apply entity_plain.
  revert Hc. apply forallb_impl. intros c Hc.
  apply orb_true_iff in Hc as [Hc|Hc].
  - apply local_char_plain in Hc as (-> & _). reflexivity.
  - apply at_char in Hc as (-> & _). reflexivity.
Qed.

(** ** Retrying *)
Section RetryFacts.

Context {A Er : Type}.
Variable fn : nat → option A + Er.

Lemma attempts_over fuel attempt calls m b :
  m < attempt → Utils.attempts fn fuel attempt calls m b = ([], Utils.Returned None).
Proof.
  intros H. destruct fuel; cbn; destruct (Z.leb_spec attempt m); (reflexivity || lia).
Qed.

Lemma attempts_returns fuel a m b v :
  Z.of_nat a + 1 ≤ m → fn a = inl v →
  Utils.attempts fn (S fuel) (Z.of_nat a + 1) a m b
  = ([Utils.Invoked], Utils.Returned v).
Proof.
  intros Hm Hv. cbn. destruct (Z.leb_spec (Z.of_nat a + 1) m); [|lia].
  cbn. now rewrite Hv.
Qed.

Lemma attempts_throws fuel a m b e :
  Z.of_nat a + 1 = m → fn a = inr e →
  Utils.attempts fn (S fuel) (Z.of_nat a + 1) a m b = ([Utils.Invoked], Utils.Thrown e).
Proof.
  intros Hm He. cbn. destruct (Z.leb_spec (Z.of_nat a + 1) m); [|lia].
  cbn. rewrite He. now destruct (Z.eqb_spec (Z.of_nat a + 1) m).
Qed.

Lemma attempts_retries fuel a m b e :
  Z.of_nat a + 1 < m → fn a = inr e →
  Utils.attempts fn (S fuel) (Z.of_nat a + 1) a m b
  = let (tr, o) := Utils.attempts fn fuel (Z.of_nat (S a) + 1) (S a) m b in
    (Utils.Invoked :: Utils.Waited (b * 2 ^ Z.of_nat a) :: tr, o).
Proof.
  intros Hm He. cbn -[Z.of_nat]. destruct (Z.leb_spec (Z.of_nat a + 1) m); [|lia].
  cbn -[Z.of_nat]. rewrite He. destruct (Z.eqb_spec (Z.of_nat a + 1) m); [lia|].
  replace (Z.of_nat a + 1 - 1) with (Z.of_nat a) by lia.
  replace (Z.of_nat a + 1 + 1) with (Z.of_nat (S a) + 1) by lia.
  reflexivity.
Qed.

(** After [k] failures, the loop is where it started, [k] attempts on. *)
Lemma attempts_after_failures k : ∀ fuel a m b,
  Z.of_nat (a + k) + 1 ≤ m →
  (∀ i, (i < k)%nat → ∃ e, fn (a + i) = inr e) →
  Utils.attempts fn (k + fuel) (Z.of_nat a + 1) a m b
  = let (tr, o) := Utils.attempts fn fuel (Z.of_nat (a + k) + 1) (a + k) m b in
    (failed_attempts b a k ++ tr, o).
Proof.
  induction k as [|k IH]; intros fuel a m b Hm Hf.
  - cbn. rewrite Nat.add_0_r. now destruct (Utils.attempts _ _ _ _ _ _).
  - destruct (Hf 0%nat) as [e He]; [lia|]. rewrite Nat.add_0_r in He.
    change (S k + fuel)%nat with (S (k + fuel)).
    rewrite (attempts_retries _ _ _ _ e) by (try assumption; lia).
    rewrite IH.
    + replace (S a + k)%nat with (a + S k)%nat by lia.
      now destruct (Utils.attempts _ _ _ _ _ _).
    + lia.
    + intros i Hi. destruct (Hf (S i)) as [e' He']; [lia|].
      exists e'. now replace (S a + i)%nat with (a + S i)%nat by lia.
Qed.

Lemma calls_of_app tr1 tr2 : calls_of (tr1 ++ tr2) = (calls_of tr1 + calls_of tr2)%nat.
Proof. unfold calls_of. now rewrite List.filter_app, length_app. Qed.

Lemma waited_app tr1 tr2 : waited (tr1 ++ tr2) = waited tr1 + waited tr2.
Proof.
  induction tr1 as [|[|d] tr1 IH]; cbn [app waited]; lia.
Qed.

Lemma failed_attempts_succ b a k :
  failed_attempts b a (S k)
  = failed_attempts b a k ++ [Utils.Invoked; Utils.Waited (b * 2 ^ Z.of_nat (a + k))].
Proof.
  unfold failed_attempts. rewrite seq_S, flat_map_app. reflexivity.
Qed.

Lemma calls_of_failed b a k : calls_of (failed_attempts b a k) = k.
Proof.
  induction k as [|k IH]; [reflexivity|].
  rewrite failed_attempts_succ, calls_of_app, IH. cbn. lia.
Qed.

Lemma waited_failed b k : waited (failed_attempts b 0 k) = b * (2 ^ Z.of_nat k - 1).
Proof.
  induction k as [|k IH]; [cbn; lia|].
  rewrite failed_attempts_succ, waited_app, IH. cbn [waited Nat.add].
  rewrite Nat2Z.inj_succ, Z.pow_succ_r by lia. lia.
Qed.

End RetryFacts.

(** X23. When the function fails [k] times and then returns, with [k]
    below the budget, [retryWithBackoff] returns its value after
    [k + 1] calls, having waited [baseDelay * 2^i] after the [i]-th
    failure: [baseDelay * (2^k - 1)] in all. *)
Theorem retryWithBackoff_returns_first_success {A Er} (fn : nat → option A + Er) m b k v :
  Z.of_nat k < m →
  (∀ i, (i < k)%nat → ∃ e, fn i = inr e) →
  fn k = inl v →
  ∃ tr,
    Utils.retryWithBackoff fn (Some m) (Some b) = (tr, Utils.Returned v)
    ∧ tr = failed_attempts b 0 k ++ [Utils.Invoked]
    ∧ calls_of tr = S k
    ∧ waited tr = b * (2 ^ Z.of_nat k - 1).
Proof.
  intros Hk Hf Hv. eexists. split; [|split; [reflexivity|split]].
  - change (Utils.retryWithBackoff fn (Some m) (Some b))
      with (Utils.attempts fn (Z.to_nat m) 1 0 m b).
    assert (∃ fuel, Z.to_nat m = (k + S fuel)%nat) as [fuel ->].
    { exists (Z.to_nat m - k - 1)%nat. lia. }
    pose proof (attempts_after_failures fn k (S fuel) 0 m b) as Hrun.
    change (Z.of_nat 0 + 1) with 1 in Hrun. rewrite Hrun by (lia || exact Hf).
    rewrite (attempts_returns fn fuel (0 + k) m b v) by (assumption || lia).
    reflexivity.
  - rewrite calls_of_app, calls_of_failed. cbn. lia.
  - rewrite waited_app, waited_failed. cbn. lia.
Qed.

(** X24. When every call fails, [retryWithBackoff] gives up after
    exactly [maxRetries] calls and throws the error of the last one; it
    does not wait after the last failure. *)
Theorem retryWithBackoff_throws_last_error {A Er} (fn : nat → option A + Er) m b e :
  0 < m →
  (∀ i, (i < Z.to_nat m)%nat → ∃ e', fn i = inr e') →
  fn (Z.to_nat m - 1)%nat = inr e →
  ∃ tr,
    Utils.retryWithBackoff fn (Some m) (Some b) = (tr, Utils.Thrown e)
    ∧ tr = failed_attempts b 0 (Z.to_nat m - 1) ++ [Utils.Invoked]
    ∧ calls_of tr = Z.to_nat m
    ∧ waited tr = b * (2 ^ (m - 1) - 1).
Proof.
  intros Hm Hf He. eexists. split; [|split; [reflexivity|split]].
  - change (Utils.retryWithBackoff fn (Some m) (Some b))
      with (Utils.attempts fn (Z.to_nat m) 1 0 m b).
    assert (∃ k, Z.to_nat m = (k + 1)%nat) as [k Hk].
    { exists (Z.to_nat m - 1)%nat. lia. }
    rewrite Hk in *. replace (k + 1 - 1)%nat with k in * by lia.
    pose proof (attempts_after_failures fn k 1 0 m b) as Hrun.
    change (Z.of_nat 0 + 1) with 1 in Hrun. rewrite Hrun.
    + rewrite (attempts_throws fn 0 (0 + k) m b e) by (assumption || lia).
      reflexivity.
    + lia.
    + intros i Hi. apply Hf. lia.
  - rewrite calls_of_app, calls_of_failed. cbn. lia.
  - rewrite waited_app, waited_failed. cbn.
    replace (Z.of_nat (Z.to_nat m - 1)) with (m - 1) by lia. lia.
Qed.

(** X25. Whatever the function does, [retryWithBackoff] settles after
    at most [maxRetries] calls of it.  With a budget of zero or less
    the function is not called and the result is [undefined].  With a
    positive budget it is called at least once, every call but the
    last has thrown, and the result is that of the last call: the
    value it returned, which may itself be [undefined], or the error
    it threw, and that only when it was call number [maxRetries]. *)
Theorem retryWithBackoff_settles {A Er} (fn : nat → option A + Er) m b :
  ∃ tr o,
    Utils.retryWithBackoff fn (Some m) (Some b) = (tr, o)
    ∧ (calls_of tr ≤ Z.to_nat m)%nat
    ∧ (m ≤ 0 → tr = [] ∧ o = Utils.Returned None)
    ∧ (0 < m →
       (1 ≤ calls_of tr)%nat
       ∧ (∀ i, (i < calls_of tr - 1)%nat → ∃ e, fn i = inr e)
       ∧ match o with
         | Utils.Returned v => fn (calls_of tr - 1)%nat = inl v
         | Utils.Thrown e => fn (calls_of tr - 1)%nat = inr e ∧ calls_of tr = Z.to_nat m
         | Utils.Unfinished => False
         end).
Proof.
  change (Utils.retryWithBackoff fn (Some m) (Some b))
    with (Utils.attempts fn (Z.to_nat m) 1 0 m b).
  assert (Hgen : ∀ fuel a, Z.of_nat (a + S fuel) = m →
            ∃ tr o, Utils.attempts fn (S fuel) (Z.of_nat a + 1) a m b = (tr, o)
                    ∧ (calls_of tr ≤ S fuel)%nat ∧ (1 ≤ calls_of tr)%nat
                    ∧ (∀ i, (i < calls_of tr - 1)%nat → ∃ e, fn (a + i)%nat = inr e)
                    ∧ match o with
                      | Utils.Returned v => fn (a + (calls_of tr - 1))%nat = inl v
                      | Utils.Thrown e =>
                          fn (a + (calls_of tr - 1))%nat = inr e ∧ calls_of tr = S fuel
                      | Utils.Unfinished => False
                      end).
  { induction fuel as [|fuel IH]; intros a Ha.
    - destruct (fn a) as [v|e] eqn:Hfn.
      + rewrite (attempts_returns fn 0 a m b v) by (assumption || lia).
        exists [Utils.Invoked], (Utils.Returned v). cbn.
        repeat split; try lia. now rewrite Nat.add_0_r.
      + rewrite (attempts_throws fn 0 a m b e) by (assumption || lia).
        exists [Utils.Invoked], (Utils.Thrown e). cbn.
        repeat split; try lia. now rewrite Nat.add_0_r.
    - destruct (fn a) as [v|e] eqn:Hfn.
      + rewrite (attempts_returns fn (S fuel) a m b v) by (assumption || lia).
        exists [Utils.Invoked], (Utils.Returned v). cbn.
        repeat split; try lia. now rewrite Nat.add_0_r.
      + rewrite (attempts_retries fn (S fuel) a m b e) by (assumption || lia).
        destruct (IH (S a)) as (tr & o & -> & Hc & H1 & Hf & Ho); [lia|].
        eexists _, o. split; [reflexivity|].
        change (calls_of (Utils.Invoked :: Utils.Waited ?d :: tr)) with (S (calls_of tr)).
        split; [lia|]. split; [lia|]. split.
        * intros i Hi. destruct i as [|i]; [rewrite Nat.add_0_r; eauto|].
          destruct (Hf i) as [e' He']; [lia|]. exists e'.
          now replace (a + S i)%nat with (S a + i)%nat by lia.
        * replace (a + (S (calls_of tr) - 1))%nat with (S a + (calls_of tr - 1))%nat by lia.
          destruct o as [v|e'|]; [exact Ho| |exact Ho].
          destruct Ho as [Ho1 Ho2]. split; [exact Ho1 | lia]. }
  destruct (Z.leb_spec m 0) as [Hm|Hm].
  - rewrite (attempts_over fn _ 1 0%nat m b) by lia.
    exists [], (Utils.Returned None). repeat split; (cbn; lia) || auto; lia.
  - assert (∃ fuel, Z.to_nat m = S fuel) as [fuel Hfuel].
    { exists (Z.to_nat m - 1)%nat. lia. }
    rewrite Hfuel.
    destruct (Hgen fuel 0%nat) as (tr & o & Hrun & Hc & H1 & Hf & Ho); [lia|].
    change (Z.of_nat 0 + 1) with 1 in Hrun. exists tr, o.
    split; [exact Hrun|]. split; [exact Hc|]. split; [lia|].
    intros _. split; [exact H1|]. split; [exact Hf|]. exact Ho.
Qed.

(** ** Durations *)

Section DurationFacts.

Import QArith_base QArith Qround Qfield Lqa.
Local Open Scope Q_scope.

Variable nearest : Q → Q.

(** Two facts of the doubles: below [2^44] the nearest double is
    within [2^-10] of a rational, and a whole number below [2^53] is a
    double. *)
Hypothesis nearest_close :
  ∀ q, 0 <= q → q < inject_Z (2 ^ 44) → - (1 # 1024) <= nearest q - q <= 1 # 1024.
Hypothesis nearest_whole :
  ∀ q z, q == inject_Z z → (0 ≤ z < 2 ^ 53)%Z → nearest q == inject_Z z.

Lemma Qfloor_between x n : inject_Z n <= x → x < inject_Z (n + 1) → Qfloor x = n.
Proof.
  intros Hl Hu. apply Z.le_antisymm.
  - apply Z.lt_succ_r. rewrite Zlt_Qlt. eapply Qle_lt_trans; [apply Qfloor_le|].
    exact Hu.
  - rewrite <- (Qfloor_Z n). now apply Qfloor_resp_le.
Qed.

Lemma exact_close q :
  0 <= q → q < inject_Z (2 ^ 44) → - (1 # 1024) <= exact q - q <= 1 # 1024.
Proof. intros _ _. unfold exact. split; lra. Qed.

Lemma exact_whole q z : q == inject_Z z → (0 ≤ z < 2 ^ 53)%Z → exact q == inject_Z z.
Proof. now intros H _. Qed.

(** For the two divisors of [formatDuration], the floor of the double
    quotient is the whole quotient. *)
Lemma floor_div_exact a b :
  (0 ≤ a < 2 ^ 53)%Z → (a / b < 2 ^ 44)%Z → (b = 60 ∨ b = 1000)%Z →
  Utils.floor_div nearest a b = (a / b)%Z.
Proof.
  intros Ha Hsmall Hb. unfold Utils.floor_div.
  assert (Hpos : (0 < b < 1024)%Z) by lia.
  pose proof (Z.div_mod a b ltac:(lia)) as Hdm.
  pose proof (Z.mod_pos_bound a b ltac:(lia)) as Hr.
  set (n := (a / b)%Z) in *. set (r := (a mod b)%Z) in *.
  assert (Hn : (0 ≤ n)%Z) by (apply Z.div_pos; lia).
  assert (Hq : inject_Z a / inject_Z b == inject_Z n + inject_Z r / inject_Z b).
  { rewrite Hdm, inject_Z_plus, inject_Z_mult. field.
    intros H. unfold Qeq in H. cbn in H. lia. }
  assert (Hb0 : 0 < inject_Z b) by (change 0 with (inject_Z 0); rewrite <- Zlt_Qlt; lia).
  destruct (Z.eq_dec r 0) as [Hr0|Hr0].
  - assert (Hwhole : inject_Z a / inject_Z b == inject_Z n).
    { rewrite Hq, Hr0. field. intros H. unfold Qeq in H. cbn in H. lia. }
    assert (Hnear := nearest_whole _ n Hwhole ltac:(lia)).
    rewrite (Qfloor_comp _ _ Hnear). apply Qfloor_Z.
  - assert (Hfrac : 1 # 1000 <= inject_Z r / inject_Z b
                    ∧ inject_Z r / inject_Z b <= 999 # 1000).
    { assert (H1 : 1 <= inject_Z r) by (change 1 with (inject_Z 1); rewrite <- Zle_Qle; lia).
      destruct Hb as [-> | ->]; unfold Qdiv.
      - assert (H2 : inject_Z r <= 59)
          by (change 59 with (inject_Z 59); rewrite <- Zle_Qle; lia).
        change (/ inject_Z 60) with (1 # 60). split; lra.
      - assert (H2 : inject_Z r <= 999)
          by (change 999 with (inject_Z 999); rewrite <- Zle_Qle; lia).
        change (/ inject_Z 1000) with (1 # 1000). split; lra. }
    assert (Hn0 : 0 <= inject_Z n) by (change 0 with (inject_Z 0); rewrite <- Zle_Qle; lia).
    assert (Hbig : inject_Z n <= 17592186044415).
    { change 17592186044415 with (inject_Z (2 ^ 44 - 1)). rewrite <- Zle_Qle. lia. }
    set (q := inject_Z a / inject_Z b) in *. set (x := inject_Z r / inject_Z b) in *.
    destruct Hfrac as [Hx1 Hx2].
    assert (Hclose : - (1 # 1024) <= nearest q - q <= 1 # 1024).
    { apply nearest_close; [lra|]. change (inject_Z (2 ^ 44)) with 17592186044416. lra. }
    apply Qfloor_between; rewrite ?inject_Z_plus; change (inject_Z 1) with 1; lra.
Qed.

Local Open Scope Z_scope.

(** X26. For a whole number of milliseconds below [2^53], the range in
    which the divisions of doubles are exact after [Math.floor], a
    positive duration is shown as hours, minutes and seconds that add
    up to its whole seconds, minutes and seconds below sixty, and
    without the leading parts that are zero. *)
Theorem formatDuration_parts (ms : Z) :
  0 < ms < 2 ^ 53 →
  ∃ h m s : Z,
    0 ≤ h ∧ 0 ≤ m < 60 ∧ 0 ≤ s < 60
    ∧ 3600 * h + 60 * m + s = ms / 1000
    ∧ Utils.formatDuration nearest (Some ms)
      = if Z.ltb 0 h then
          Utils.show h ++ units "h " ++ Utils.show m ++ units "m "
          ++ Utils.show s ++ units "s"
        else if Z.ltb 0 m then Utils.show m ++ units "m " ++ Utils.show s ++ units "s"
        else Utils.show s ++ units "s".
Proof.
  intros Hms. pose proof nearest_close as Hclose. pose proof nearest_whole as Hwhole.

  set (seconds := ms / 1000). set (minutes := seconds / 60). set (hours := minutes / 60).
  assert (Hs : 0 ≤ seconds) by (apply Z.div_pos; lia).
  assert (Hm : 0 ≤ minutes) by (apply Z.div_pos; lia).
  assert (Hh : 0 ≤ hours) by (apply Z.div_pos; lia).
  assert (Hs' : seconds ≤ ms) by (apply Z.div_le_upper_bound; lia).
  assert (Hm' : minutes ≤ seconds) by (apply Z.div_le_upper_bound; lia).
  exists hours, (minutes mod 60), (seconds mod 60).
  split; [exact Hh|]. split; [apply Z.mod_pos_bound; lia|].
  split; [apply Z.mod_pos_bound; lia|]. split.
  - pose proof (Z.div_mod seconds 60). pose proof (Z.div_mod minutes 60).
    fold minutes in H. fold hours in H0. lia.
  - unfold Utils.formatDuration.
    destruct (Z.eqb_spec ms 0); [lia|]. destruct (Z.ltb_spec ms 0); [lia|].
    cbn [orb].
    assert (Hs44 : seconds < 2 ^ 44) by (apply Z.div_lt_upper_bound; lia).
    assert (Hm44 : minutes < 2 ^ 44) by lia.
    assert (Hh44 : hours < 2 ^ 44).
    { apply Z.le_lt_trans with minutes; [apply Z.div_le_upper_bound; lia | lia]. }
    rewrite (floor_div_exact ms 1000); [|lia|exact Hs44|now right].
    fold seconds.
    rewrite (floor_div_exact seconds 60); [|lia|exact Hm44|now left].
    fold minutes.
    rewrite (floor_div_exact minutes 60); [|lia|exact Hh44|now left].
    fold hours.
    rewrite !Z.rem_mod_nonneg by lia.
    destruct (Z.ltb_spec 0 hours) as [Hh'|Hh']; [reflexivity|].
    assert (minutes mod 60 = minutes) as ->.
    { apply Z.mod_small. split; [exact Hm|].
      unfold hours in Hh'. pose proof (Z.div_mod minutes 60).
      pose proof (Z.mod_pos_bound minutes 60). lia. }
    destruct (Z.ltb_spec 0 minutes) as [Hm''|Hm'']; [reflexivity|].
    assert (seconds mod 60 = seconds) as ->; [|reflexivity].
    apply Z.mod_small. split; [exact Hs|].
    unfold minutes in Hm''. pose proof (Z.div_mod seconds 60).
    pose proof (Z.mod_pos_bound seconds 60). lia.
Qed.

End DurationFacts.

(** ** Identifiers *)

Lemma toString16_digit d :
  (d < 16)%N → ∃ c, Utils.toString16 d = [c] ∧ hex_digit c = true ∧ Regex.char "x" c = false.
Proof.
  intros Hd.
  assert (d = 0 ∨ d = 1 ∨ d = 2 ∨ d = 3 ∨ d = 4 ∨ d = 5 ∨ d = 6 ∨ d = 7 ∨ d = 8 ∨ d = 9
          ∨ d = 10 ∨ d = 11 ∨ d = 12 ∨ d = 13 ∨ d = 14 ∨ d = 15)%N as Hcases by lia.
  repeat destruct Hcases as [->|Hcases]; try subst d;
    eexists; (split; [vm_compute; reflexivity|]); split; reflexivity.
Qed.

(** X27. Whatever the random draws, [generateSimpleId] returns three
    groups of four lower-case hexadecimal digits with a dash between
    them, fourteen characters in all; the [i]-th digit comes from the
    [i]-th draw. *)
Theorem generateSimpleId_shape random16 :
  (∀ i, (random16 i < 16)%N) →
  ∃ g1 g2 g3,
    Utils.generateSimpleId random16 = g1 ++ units "-" ++ g2 ++ units "-" ++ g3
    ∧ g1 = flat_map (λ i, Utils.toString16 (random16 i)) (seq 0 4)
    ∧ g2 = flat_map (λ i, Utils.toString16 (random16 i)) (seq 4 4)
    ∧ g3 = flat_map (λ i, Utils.toString16 (random16 i)) (seq 8 4)
    ∧ length g1 = 4%nat ∧ length g2 = 4%nat ∧ length g3 = 4%nat
    ∧ forallb hex_digit (g1 ++ g2 ++ g3) = true.
Proof.
  intros Hr. do 3 eexists. split; [|split; [reflexivity|split; [reflexivity|split;
    [reflexivity|]]]].
  - unfold Utils.generateSimpleId. cbn -[Utils.toString16].
    rewrite <- !app_assoc. cbn -[Utils.toString16]. rewrite !app_nil_r. reflexivity.
  - cbn -[Utils.toString16]. rewrite !app_nil_r.
    repeat match goal with
      | |- context [Utils.toString16 (random16 ?i)] =>
          let c := fresh "c" in let H := fresh "H" in
          destruct (toString16_digit (random16 i) (Hr i)) as (c & -> & H & _)
      end.
    cbn. repeat match goal with H : hex_digit _ = true |- _ => rewrite H; clear H end.
    now repeat split.
Qed.

(** ** From the form to the server *)

Lemma ascii_string_length s : String.length (ascii_string s) = length s.
Proof.
  unfold ascii_string. induction s as [|c s IH]; cbn; [reflexivity|]. now rewrite IH.
Qed.

Lemma ascii_string_truthy s : s ≠ [] → truthy (Some (ascii_string s)) = true.
Proof. destruct s as [|c s]; [congruence|]. reflexivity. Qed.

(** X28. The form posts exactly when the name is not blank, the phone
    is ten digits and the address has the shape of an address; its
    checks are made in this order, and the first that fails gives the
    message. *)
Theorem form_validation name phone gmail :
  (App.validation_error name phone gmail = None
   ↔ Utils.trim name ≠ []
     ∧ (length phone = 10%nat ∧ forallb Utils.digit phone = true)
     ∧ email_shape gmail)
  ∧ (App.validation_error name phone gmail = Some "Name is required"
     ↔ Utils.trim name = [])
  ∧ (App.validation_error name phone gmail = Some "Please enter a valid email address"
     → length phone = 10%nat ∧ forallb Utils.digit phone = true).
Proof.
  unfold App.validation_error, App.validatePhoneNumber, App.validateEmail.
  pose proof (test_phoneRegex phone) as Hp. pose proof (test_emailRegex gmail) as He.
  destruct (Utils.trim name) as [|c t]; cbn [length Nat.ltb Nat.leb negb].
  { split; [|split]; [split | split | ]; try congruence; tauto. }
  destruct (Regex.test Utils.phoneRegex phone); cbn [negb].
  2: { split; [|split]; [split | split | ]; try congruence; try tauto.
       intros (_ & H & _). apply Hp in H. discriminate. }
  assert (Hp' : length phone = 10%nat ∧ forallb Utils.digit phone = true) by now apply Hp.
  destruct (Regex.test Utils.emailRegex gmail); cbn [negb].
  - split; [|split]; [split | split | ]; try congruence; try tauto.
    intros _. split; [congruence|]. split; [exact Hp' | now apply He].
  - split; [|split]; [split | split | ]; try congruence; try tauto.
    intros (_ & _ & H). apply He in H. discriminate.
Qed.

Section FormToServer.

Variable E : Env.

(** X29. A form that passes the checks of the page is never answered
    with 400 by the server: the provider is asked once, for ["+91"]
    and the ten digits, thirteen characters in all. *)
Theorem accepted_form_reaches_provider name phone gmail sent_name now w :
  App.validation_error name phone gmail = None →
  let b := posted sent_name phone gmail in
  ∃ r,
    result (initiate_call E b now) w = Ok r
    ∧ status r ≠ 400
    ∧ events (exec (initiate_call E b now) w)
      = events w ++ [CreatePhoneCall ("+91" ++ ascii_string phone)]
    ∧ String.length ("+91" ++ ascii_string phone) = 13%nat.
Proof.
  intros Hv b.
  unfold App.validation_error, App.validatePhoneNumber, App.validateEmail in Hv.
  destruct (0 <? length (Utils.trim name))%nat; [|discriminate Hv].
  destruct (Regex.test Utils.phoneRegex phone) eqn:Hph; [|discriminate Hv].
  destruct (Regex.test Utils.emailRegex gmail) eqn:Hs; [|discriminate Hv].
  apply test_phoneRegex in Hph as [Hl Hd]. apply test_emailRegex in Hs.
  assert (Hp : truthy (body_phone b) = true).
  { apply ascii_string_truthy. destruct phone; [discriminate Hl | congruence]. }
  assert (Hm : truthy (body_email b) = true).
  { apply ascii_string_truthy. apply email_shape_chars in Hs as (_ & _ & Hlen).
    destruct gmail; [cbn in Hlen; lia | congruence]. }
  unfold result, exec. rewrite initiate_call_valid by (now rewrite Hp, Hm). cbv zeta.
  change (toStr (body_phone b)) with (ascii_string phone).
  destruct (createPhoneCall E (created w) _); eexists; cbn [fst snd events];
    (split; [reflexivity|]); (split; [cbn; lia|]); (split; [reflexivity|]);
    change (String.length ("+91" ++ ascii_string phone))
      with (S (S (S (String.length (ascii_string phone)))));
    now rewrite ascii_string_length, Hl.
Qed.

End FormToServer.

(** * The handlers on bodies as they arrive *)

Section WireHandlers.

Variable E : Env.

Lemma wire_log_ok l s : forallb Wire.stringifiable l = true → Wire.log l s = (Ok tt, s).
Proof. intros H. unfold Wire.log. now rewrite H. Qed.

Lemma wire_log_fails l s :
  forallb Wire.stringifiable l = false → Wire.log l s = (Throw TypeError, s).
Proof. intros H. unfold Wire.log. now rewrite H. Qed.

Lemma wire_stringifiable_text v : Wire.stringifiable v = true → Wire.str v = Some (Wire.text v).
Proof. unfold Wire.stringifiable, Wire.text. now destruct (Wire.str v). Qed.

(** What the webhook does, case by case. *)
Lemma wire_webhook_run b s :
  Wire.webhook b s =
  let event := Wire.get (Some b) "event" in
  let call_id := Wire.call_field b "call_id" in
  let found := Wire.lookup (Wire.callMap s) (Wire.key b) in
  let ok := Wire.Res 200 (Wire.BSuccess ("Webhook processed for event: " ++ Wire.text event)) in
  let failed := Wire.Res 500 (Wire.BErrorCall "Internal server error" call_id) in
  if negb (Wire.valid_payload b) then
    (Ok (Wire.Res 400 (Wire.BError "Invalid payload structure")), s)
  else if negb (forallb Wire.stringifiable (Wire.first_log b)) then (Throw TypeError, s)
  else if negb (Wire.is_string event "call_ended") then (Ok ok, s)
  else if negb (Wire.stringifiable (Wire.call_field b "disconnection_reason")) then
    (Ok failed, s)
  else if Wire.completed b then
    if Wire.truthy_found found && Wire.truthy (Wire.field_email found) then
      if Wire.stringifiable (Wire.field_email found)
         && Wire.stringifiable (Wire.field_name found)
      then (Ok ok, Wire.processed s (Wire.key b) found)
      else (Ok failed, s)
    else (Ok ok, s)
  else
    (Ok ok,
     if Wire.truthy_found found then Wire.with_callMap s (Wire.remove (Wire.key b) (Wire.callMap s))
     else s).
Proof.
  cbv zeta. unfold Wire.webhook, Wire.valid_payload, Wire.first_log, Wire.completed, Wire.key,
    Wire.call_field.
  set (event := Wire.get (Some b) "event").
  set (call := Wire.get (Some b) "call").
  set (call_id := Wire.get call "call_id").
  destruct (Wire.truthy event); [|reflexivity].
  destruct (Wire.truthy call); [|reflexivity].
  destruct (Wire.truthy call_id); [|reflexivity].
  cbn [negb orb andb forallb].
  unfold mbind, Wire.M_bind, Wire.bind, Wire.try_catch, Wire.log, Wire.gets, Wire.ret,
    Wire.throw, Wire.set_callMap. cbn [forallb].
  destruct (Wire.stringifiable event) eqn:He; [|reflexivity].
  destruct (Wire.stringifiable call_id) eqn:Hi; [|reflexivity].
  destruct (Wire.stringifiable (Wire.get call "call_status")) eqn:Hs; [|reflexivity].
  destruct (Wire.stringifiable (Wire.get call "direction")) eqn:Hd; [|reflexivity].
  cbn [negb orb andb].
  destruct (Wire.is_string event "call_ended") eqn:Hended.
  - assert (Hstarted : Wire.is_string event "call_started" = false).
    { destruct event as [[| | |e| |]|]; try discriminate Hended. cbn in *.
      apply String.eqb_eq in Hended. now subst e. }
    rewrite Hstarted. cbn [negb andb].
    destruct (Wire.stringifiable (Wire.get call "disconnection_reason")) eqn:Hr;
      [|reflexivity].
    cbn [negb andb].
    destruct (Wire.is_string (Wire.get call "call_status") "ended"
              && Wire.truthy (Wire.get call "end_timestamp")).
    + destruct (Wire.truthy_found _ && Wire.truthy _) eqn:Hg; [|reflexivity].
      destruct (Wire.stringifiable (Wire.field_email _)); [|reflexivity].
      destruct (Wire.stringifiable (Wire.field_name _)); [|reflexivity].
      unfold Wire.processed, Wire.chain_for.
      destruct (Wire.field_name _); reflexivity.
    + now destruct (Wire.truthy_found _).
  - cbn [negb].
    destruct (Wire.is_string event "call_started"); [reflexivity|].
    now destruct (Wire.is_string event "call_analyzed").
Qed.


(** What the initiation handler does, case by case. *)
Lemma wire_initiate_call_run b now s :
  Wire.initiate_call E b now s =
  let phone := Wire.get (Some b) "phone" in
  let name := Wire.get (Some b) "name" in
  let email := Wire.get (Some b) "email" in
  let failed := Wire.Res 500 (Wire.BError "Call initiation failed.") in
  if negb (Wire.truthy phone) || negb (Wire.truthy email) then
    (Ok (Wire.Res 400 (Wire.BError "Phone and email are required.")), s)
  else
    match Wire.str phone with
    | None => (Ok failed, s)
    | Some p =>
        let to_number := ("+91" ++ p)%string in
        match createPhoneCall E (Wire.created s) to_number with
        | None => (Ok failed, Wire.asked s to_number)
        | Some id =>
            (Ok (if Wire.stringifiable email && Wire.stringifiable name
                 then Wire.Res 200 (Wire.BInitiated "Call initiated successfully." id)
                 else failed),
             Wire.with_callMap (Wire.asked s to_number)
               (Wire.assign id (Wire.record_of b now) (Wire.callMap s)))
        end
    end.
Proof.
  cbv zeta. unfold Wire.initiate_call.
  destruct (negb _ || negb _); [reflexivity|].
  unfold mbind, Wire.M_bind, Wire.bind, Wire.try_catch, Wire.log, Wire.ret, Wire.throw,
    Wire.set_callMap, Wire.next_created, Wire.emit.
  destruct (Wire.str (Wire.get (Some b) "phone")) as [p|]; [|reflexivity].
  cbn [Wire.created]. destruct (createPhoneCall E _ _) as [id|]; [|reflexivity].
  cbn [forallb Wire.stringifiable Wire.str Wire.toString andb].
  destruct (Wire.stringifiable (Wire.get (Some b) "email")); [|reflexivity].
  destruct (Wire.stringifiable (Wire.get (Some b) "name")); reflexivity.
Qed.

End WireHandlers.

Section WireProperties.

Variable E : Env.

Lemma wire_lookup_falsy m k :
  Wire.truthy_found (Wire.lookup m k) = false → Wire.entries m !! k = None.
Proof.
  unfold Wire.lookup. destruct (String.eqb k "__proto__").
  - destruct (Wire.prototype m); discriminate.
  - destruct (Wire.entries m !! k); [discriminate | reflexivity].
Qed.

Lemma wire_lookup_entry m k r :
  k ≠ "__proto__" → Wire.entries m !! k = Some r → Wire.lookup m k = Wire.Stored r.
Proof.
  intros Hk Hr. unfold Wire.lookup. apply String.eqb_neq in Hk. now rewrite Hk, Hr.
Qed.

Lemma wire_remove_absent m k : Wire.entries m !! k = None → Wire.remove k m = m.
Proof.
  intros H. unfold Wire.remove. rewrite (delete_id _ _ H). now destruct m.
Qed.

Lemma wire_with_callMap_same s : Wire.with_callMap s (Wire.callMap s) = s.
Proof. now destruct s. Qed.


(** C5.  A [call_ended] event whose call did not complete (its status
    is not ["ended"], or its end timestamp is absent or falsy), and
    whose logged values have a string conversion, is answered with 200
    and starts no retrieval: no lookup is issued, no task is added, no
    message is sent.  The entry of the call, if it has one, is removed,
    and the rest of the registry is as before.  When the disconnection
    reason has no string conversion the answer is 500 and nothing
    changes: the entry stays. *)
Theorem uncompleted_call_is_unregistered b s :
  Wire.valid_payload b = true →
  Wire.is_string (Wire.get (Some b) "event") "call_ended" = true →
  Wire.completed b = false →
  forallb Wire.stringifiable (Wire.first_log b) = true →
  let id := Wire.key b in
  let s' := Wire.exec (Wire.webhook b) s in
  (Wire.stringifiable (Wire.call_field b "disconnection_reason") = true →
   Wire.result (Wire.webhook b) s =
     Ok (Wire.Res 200 (Wire.BSuccess "Webhook processed for event: call_ended")) ∧
   Wire.callMap s' = Wire.remove id (Wire.callMap s) ∧
   Wire.entries (Wire.callMap s') !! id = None ∧
   (∀ id', id' ≠ id →
      Wire.entries (Wire.callMap s') !! id' = Wire.entries (Wire.callMap s) !! id') ∧
   (Wire.entries (Wire.callMap s) !! id = None → Wire.callMap s' = Wire.callMap s) ∧
   Wire.events s' = Wire.events s ∧ Wire.tasks s' = Wire.tasks s ∧
   Wire.retrieved s' = Wire.retrieved s ∧ Wire.sent s' = Wire.sent s) ∧
  (Wire.stringifiable (Wire.call_field b "disconnection_reason") = false →
   Wire.webhook b s =
     (Ok (Wire.Res 500 (Wire.BErrorCall "Internal server error" (Wire.call_field b "call_id"))),
      s)).
Proof.
  intros Hv He Hc Hl id s'. split.
  - intros Hr.
    assert (Hevent : Wire.text (Wire.get (Some b) "event") = "call_ended").
    { destruct (Wire.get (Some b) "event") as [[| | |e| |]|]; try discriminate He.
      cbn in He. apply String.eqb_eq in He. now subst e. }
    assert (Hrun : Wire.webhook b s =
              (Ok (Wire.Res 200 (Wire.BSuccess "Webhook processed for event: call_ended")),
               Wire.with_callMap s (Wire.remove id (Wire.callMap s)))).
    { rewrite wire_webhook_run. cbv zeta. rewrite Hv, Hl, He, Hr, Hc, Hevent. cbn [negb].
      fold id. destruct (Wire.truthy_found _) eqn:Hfound; [reflexivity|].
      apply wire_lookup_falsy in Hfound.
      now rewrite (wire_remove_absent _ _ Hfound), wire_with_callMap_same. }
    subst s'. unfold Wire.result, Wire.exec. rewrite Hrun. cbn.
    repeat split.
    + apply lookup_delete_eq.
    + intros id' Hne. now apply lookup_delete_ne.
    + intros Hnone. now apply wire_remove_absent.
  - intros Hr. rewrite wire_webhook_run. cbv zeta. now rewrite Hv, Hl, He, Hr.
Qed.

(** X1.  A form with a truthy phone and a truthy email whose phone has
    a string conversion, for which the provider creates the call [id]:
    the record of the form is assigned to [callMap[id]].  For every
    [id] but ["__proto__"] that makes it the entry of [id], found by a
    lookup, with every other entry as before; for ["__proto__"] it
    replaces the prototype and adds no entry.  The answer is 200 with
    the identifier when the email and the name can be logged, and 500
    otherwise, with the record stored all the same. *)
Theorem initiate_call_stores_record b now s p id :
  Wire.truthy (Wire.get (Some b) "phone") = true →
  Wire.truthy (Wire.get (Some b) "email") = true →
  Wire.str (Wire.get (Some b) "phone") = Some p →
  createPhoneCall E (Wire.created s) ("+91" ++ p) = Some id →
  let s' := Wire.exec (Wire.initiate_call E b now) s in
  let r := Wire.record_of b now in
  Wire.callMap s' = Wire.assign id r (Wire.callMap s) ∧
  (id ≠ "__proto__" →
     Wire.lookup (Wire.callMap s') id = Wire.Stored r ∧
     Wire.entries (Wire.callMap s') !! id = Some r ∧
     (∀ id', id' ≠ id →
        Wire.entries (Wire.callMap s') !! id' = Wire.entries (Wire.callMap s) !! id') ∧
     Wire.prototype (Wire.callMap s') = Wire.prototype (Wire.callMap s)) ∧
  (id = "__proto__" →
     Wire.entries (Wire.callMap s') = Wire.entries (Wire.callMap s) ∧
     Wire.prototype (Wire.callMap s') = Some r) ∧
  Wire.result (Wire.initiate_call E b now) s =
    Ok (if Wire.stringifiable (Wire.get (Some b) "email")
           && Wire.stringifiable (Wire.get (Some b) "name")
        then Wire.Res 200 (Wire.BInitiated "Call initiated successfully." id)
        else Wire.Res 500 (Wire.BError "Call initiation failed.")) ∧
  Wire.events s' = Wire.events s ++ [CreatePhoneCall ("+91" ++ p)] ∧
  Wire.tasks s' = Wire.tasks s.
Proof.
  intros Hp Hm Hs Hid s' r. subst s'. unfold Wire.result, Wire.exec.
  rewrite wire_initiate_call_run. cbv zeta. rewrite Hp, Hm, Hs, Hid. cbn.
  fold r. split; [reflexivity|]. split; [|split; [|auto]].
  - intros Hne. unfold Wire.assign. apply String.eqb_neq in Hne as Hne'. rewrite Hne'. cbn.
    split; [|split; [apply lookup_insert_eq|split; [|reflexivity]]].
    + apply wire_lookup_entry; [assumption|]. cbn. apply lookup_insert_eq.
    + intros id' Hne2. now apply lookup_insert_ne.
  - intros ->. now cbn.
Qed.

(** X2.  A form whose phone or email is absent or falsy is answered
    with 400 and nothing else happens.  Every other form is answered
    with 200 or 500, never 400: when its phone has no string conversion
    the answer is 500 and the provider is not asked; otherwise the
    provider is asked exactly once, for ["+91"] followed by the phone. *)
Theorem initiate_call_answers b now s :
  let phone := Wire.get (Some b) "phone" in
  let email := Wire.get (Some b) "email" in
  let s' := Wire.exec (Wire.initiate_call E b now) s in
  (Wire.truthy phone && Wire.truthy email = false →
     Wire.initiate_call E b now s =
       (Ok (Wire.Res 400 (Wire.BError "Phone and email are required.")), s)) ∧
  (Wire.truthy phone && Wire.truthy email = true →
     (∃ r, Wire.result (Wire.initiate_call E b now) s = Ok r
           ∧ (Wire.status r = 200 ∨ Wire.status r = 500)) ∧
     match Wire.str phone with
     | None =>
         Wire.initiate_call E b now s
         = (Ok (Wire.Res 500 (Wire.BError "Call initiation failed.")), s)
     | Some p =>
         Wire.events s' = Wire.events s ++ [CreatePhoneCall ("+91" ++ p)]
         ∧ Wire.created s' = S (Wire.created s)
     end).
Proof.
  cbv zeta. unfold Wire.result, Wire.exec. rewrite wire_initiate_call_run. cbv zeta. split.
  - intros Hv. destruct (Wire.truthy _), (Wire.truthy _); try discriminate; reflexivity.
  - intros Hv. apply andb_true_iff in Hv as [-> ->]. cbn [negb orb].
    destruct (Wire.str _) as [p|]; [|split; [eexists; split; [reflexivity|now right]|reflexivity]].
    destruct (createPhoneCall E _ _) as [id|]; cbn.
    + split; [|now split].
      destruct (Wire.stringifiable _ && Wire.stringifiable _); eexists;
        (split; [reflexivity|]); cbn; auto.
    + split; [|now split]. eexists. split; [reflexivity|]. now right.
Qed.

(** X3.  The initiation handler never throws, and the registry changes
    exactly when the provider has returned an identifier, whatever the
    answer then is: 400 leaves the whole state as it was; 200 means the
    record is stored; and 500 means either that nothing was stored (the
    phone has no string conversion, or the provider failed) or that the
    record was stored and the log line after it failed, because the
    email or the name has no string conversion. *)
Theorem initiate_call_registry_changes_iff_created b now s :
  let s' := Wire.exec (Wire.initiate_call E b now) s in
  let stored := λ id, Wire.callMap s' = Wire.assign id (Wire.record_of b now) (Wire.callMap s) in
  ∃ r, Wire.result (Wire.initiate_call E b now) s = Ok r ∧
       (Wire.status r = 200 ∨ Wire.status r = 400 ∨ Wire.status r = 500) ∧
       (Wire.status r = 400 → s' = s) ∧
       (Wire.status r = 200 →
          ∃ id, Wire.body r = Wire.BInitiated "Call initiated successfully." id ∧ stored id) ∧
       (Wire.status r = 500 →
          Wire.callMap s' = Wire.callMap s
          ∨ ∃ id, stored id
                  ∧ Wire.stringifiable (Wire.get (Some b) "email")
                    && Wire.stringifiable (Wire.get (Some b) "name") = false).
Proof.
  cbv zeta. unfold Wire.result, Wire.exec. rewrite wire_initiate_call_run. cbv zeta.
  destruct (negb _ || negb _).
  { eexists. split; [reflexivity|]. cbn. repeat split; auto; intros; discriminate. }
  destruct (Wire.str _) as [p|].
  2: { eexists. split; [reflexivity|]. cbn. repeat split; auto; intros; discriminate. }
  destruct (createPhoneCall E _ _) as [id|].
  2: { eexists. split; [reflexivity|]. cbn. repeat split; auto; intros; discriminate. }
  destruct (Wire.stringifiable _ && Wire.stringifiable _) eqn:Hlog;
    eexists; (split; [reflexivity|]); cbn; repeat split; auto; try (intros; discriminate).
  - intros _. now exists id.
  - intros _. right. now exists id.
Qed.


(** X4.  A form whose values can be logged, registered under a fresh
    identifier other than ["__proto__"], followed by the [call_ended]
    event of the completed call: the registry is exactly as it was
    before the form arrived.  [/health] reports one call more in
    between and the old count afterwards.  Along the way the provider
    was asked to create the call, and one retrieval was started, for
    the email and the name of the form. *)
Theorem call_lifecycle_restores_object b now b2 s p id :
  Wire.truthy (Wire.get (Some b) "phone") = true →
  Wire.truthy (Wire.get (Some b) "email") = true →
  Wire.str (Wire.get (Some b) "phone") = Some p →
  Wire.stringifiable (Wire.get (Some b) "email")
  && Wire.stringifiable (Wire.get (Some b) "name") = true →
  createPhoneCall E (Wire.created s) ("+91" ++ p) = Some id →
  id ≠ "__proto__" →
  Wire.entries (Wire.callMap s) !! id = None →
  Wire.valid_payload b2 = true →
  Wire.is_string (Wire.get (Some b2) "event") "call_ended" = true →
  Wire.completed b2 = true →
  forallb Wire.stringifiable (Wire.first_log b2) = true →
  Wire.stringifiable (Wire.call_field b2 "disconnection_reason") = true →
  Wire.key b2 = id →
  let s1 := Wire.exec (Wire.initiate_call E b now) s in
  let s2 := Wire.exec (Wire.webhook b2) s1 in
  Wire.activeCallsCount s1 = S (Wire.activeCallsCount s) ∧
  Wire.callMap s2 = Wire.callMap s ∧
  Wire.activeCallsCount s2 = Wire.activeCallsCount s ∧
  Wire.result (Wire.webhook b2) s1 =
    Ok (Wire.Res 200 (Wire.BSuccess "Webhook processed for event: call_ended")) ∧
  Wire.events s2 = Wire.events s ++ [CreatePhoneCall ("+91" ++ p); Retrieve id] ∧
  Wire.tasks s2 =
    Wire.tasks s ++
    [AwaitRetrieve (Wire.retrieved s)
       (Wire.chain_for id (Wire.Stored (Wire.record_of b now)))].
Proof.
  intros Hp Hm Hs Hlog Hid Hne Hfresh Hv He Hc Hl Hr Hkey s1 s2.
  assert (Hs1 : s1 = Wire.with_callMap (Wire.asked s ("+91" ++ p))
                       (Wire.assign id (Wire.record_of b now) (Wire.callMap s))).
  { subst s1. unfold Wire.exec. rewrite wire_initiate_call_run. cbv zeta.
    now rewrite Hp, Hm, Hs, Hid. }
  assert (Hassign : Wire.assign id (Wire.record_of b now) (Wire.callMap s)
                    = {| Wire.entries := <[id := Wire.record_of b now]> (Wire.entries (Wire.callMap s));
                         Wire.prototype := Wire.prototype (Wire.callMap s) |}).
  { unfold Wire.assign. apply String.eqb_neq in Hne. now rewrite Hne. }
  assert (Hfound : Wire.lookup (Wire.callMap s1) id = Wire.Stored (Wire.record_of b now)).
  { apply wire_lookup_entry; [assumption|]. rewrite Hs1, Hassign. cbn. apply lookup_insert_eq. }
  assert (Hevent : Wire.text (Wire.get (Some b2) "event") = "call_ended").
  { destruct (Wire.get (Some b2) "event") as [[| | |e| |]|]; try discriminate He.
    cbn in He. apply String.eqb_eq in He. now subst e. }
  assert (Hrun : Wire.webhook b2 s1 =
            (Ok (Wire.Res 200 (Wire.BSuccess "Webhook processed for event: call_ended")),
             Wire.processed s1 id (Wire.Stored (Wire.record_of b now)))).
  { rewrite wire_webhook_run. cbv zeta. rewrite Hv, Hl, He, Hr, Hc, Hkey, Hfound, Hevent.
    cbn [negb Wire.truthy_found Wire.field_email Wire.field_name Wire.record_of
         Wire.email Wire.name andb].
    now rewrite Hm, Hlog. }
  subst s2. unfold Wire.result, Wire.exec. rewrite Hrun. cbn [fst snd].
  rewrite Hs1, Hassign. unfold Wire.activeCallsCount, Wire.size. cbn.
  repeat split.
  - now apply map_size_insert_None.
  - unfold Wire.remove. cbn. rewrite (delete_insert_id _ _ _ Hfresh).
    now destruct (Wire.callMap s).
  - now rewrite (delete_insert_id _ _ _ Hfresh).
  - now rewrite <- app_assoc.
Qed.

(** X5.  Once the [call_ended] event of a completed call has been
    served for a call that has an entry with a truthy email, under an
    identifier other than ["__proto__"] and with [Object.prototype] as
    the prototype of the registry, any further [call_ended] event for
    the same identifier that can be logged, whether it reports the call
    as completed or not, is acknowledged and changes nothing: no
    second retrieval is started. *)
Theorem redelivered_call_ended_starts_nothing b b' s u :
  Wire.valid_payload b = true →
  Wire.is_string (Wire.get (Some b) "event") "call_ended" = true →
  Wire.completed b = true →
  forallb Wire.stringifiable (Wire.first_log b) = true →
  Wire.stringifiable (Wire.call_field b "disconnection_reason") = true →
  Wire.key b ≠ "__proto__" →
  Wire.entries (Wire.callMap s) !! Wire.key b = Some u →
  Wire.prototype (Wire.callMap s) = None →
  Wire.truthy (Wire.email u) = true →
  Wire.stringifiable (Wire.email u) && Wire.stringifiable (Wire.name u) = true →
  Wire.valid_payload b' = true →
  Wire.is_string (Wire.get (Some b') "event") "call_ended" = true →
  forallb Wire.stringifiable (Wire.first_log b') = true →
  Wire.stringifiable (Wire.call_field b' "disconnection_reason") = true →
  Wire.key b' = Wire.key b →
  let s1 := Wire.exec (Wire.webhook b) s in
  Wire.webhook b' s1 =
    (Ok (Wire.Res 200 (Wire.BSuccess "Webhook processed for event: call_ended")), s1).
Proof.
  intros Hv He Hc Hl Hr Hne Hu Hproto Hm Hlog Hv' He' Hl' Hr' Hkey s1.
  assert (Hs1 : s1 = Wire.processed s (Wire.key b) (Wire.Stored u)).
  { subst s1. unfold Wire.exec. rewrite wire_webhook_run. cbv zeta.
    rewrite Hv, Hl, He, Hr, Hc, (wire_lookup_entry _ _ u Hne Hu).
    cbn [negb Wire.truthy_found Wire.field_email Wire.field_name andb].
    now rewrite Hm, Hlog. }
  assert (Habsent : Wire.entries (Wire.callMap s1) !! Wire.key b = None).
  { rewrite Hs1. cbn. apply lookup_delete_eq. }
  assert (Hfound : Wire.lookup (Wire.callMap s1) (Wire.key b) = Wire.builtin (Wire.key b)).
  { unfold Wire.lookup. apply String.eqb_neq in Hne. rewrite Hne, Habsent.
    rewrite Hs1. cbn. now rewrite Hproto. }
  assert (Hevent : Wire.text (Wire.get (Some b') "event") = "call_ended").
  { destruct (Wire.get (Some b') "event") as [[| | |e| |]|]; try discriminate He'.
    cbn in He'. apply String.eqb_eq in He'. now subst e. }
  rewrite wire_webhook_run. cbv zeta. rewrite Hv', Hl', He', Hr', Hkey, Hfound, Hevent.
  cbn [negb].
  assert (Hguard : Wire.truthy_found (Wire.builtin (Wire.key b))
                   && Wire.truthy (Wire.field_email (Wire.builtin (Wire.key b))) = false).
  { unfold Wire.builtin. now destruct (bool_decide _). }
  rewrite Hguard.
  destruct (Wire.completed b'); [reflexivity|].
  destruct (Wire.truthy_found _); [|reflexivity].
  now rewrite (wire_remove_absent _ _ Habsent), wire_with_callMap_same.
Qed.

(** X6.  A valid event other than [call_ended] ([call_started],
    [call_analyzed], any other value) never changes the state.  It is
    acknowledged with 200 when the four values of the first log line
    have a string conversion; when one has none, that line throws
    before the [try] and the handler sends no answer. *)
Theorem other_events_change_nothing b s :
  Wire.valid_payload b = true →
  Wire.is_string (Wire.get (Some b) "event") "call_ended" = false →
  Wire.webhook b s =
    if forallb Wire.stringifiable (Wire.first_log b)
    then (Ok (Wire.Res 200
                (Wire.BSuccess ("Webhook processed for event: "
                                ++ Wire.text (Wire.get (Some b) "event")))), s)
    else (Throw TypeError, s).
Proof.
  intros Hv He. rewrite wire_webhook_run. cbv zeta. rewrite Hv, He. cbn [negb].
  now destruct (forallb _ _).
Qed.

End WireProperties.

(** ** Typed requests: the handlers agree *)

Lemma string_of_Z_zero z : String.eqb (string_of_Z z) "0" = Z.eqb z 0.
Proof.
  destruct (Z.eqb_spec z 0) as [->|Hz]; [reflexivity|].
  apply String.eqb_neq. intros H. apply Hz. unfold string_of_Z in H.
  rewrite <- (DecimalZ.of_to z).
  assert (Hd : ∃ d', DecimalString.NilZero.int_of_string (DecimalString.NilZero.string_of_int (Z.to_int z)) = Some d'
                     ∧ Z.of_int d' = Z.of_int (Z.to_int z)).
  { destruct (Z.to_int z) as [[| | | | | | | | | |]|[| | | | | | | | | |]] eqn:Hd;
      first [ eexists; split; [apply DecimalString.NilZero.isi; discriminate | reflexivity]
            | eexists; split; [apply DecimalString.NilZero.isi_posnil | reflexivity]
            | eexists; split; [apply DecimalString.NilZero.isi_negnil | reflexivity] ]. }
  destruct Hd as (d' & Hd' & <-). rewrite H in Hd'. now injection Hd' as <-.
Qed.

Lemma json_text_truthy v : Wire.truthy (json_text v) = truthy v.
Proof. now destruct v. Qed.

Lemma json_number_truthy v : Wire.truthy (json_number v) = truthy_num v.
Proof. destruct v as [z|]; [|reflexivity]. cbn. now rewrite string_of_Z_zero. Qed.

Lemma json_text_stringifiable v : Wire.stringifiable (json_text v) = true.
Proof. now destruct v. Qed.

Lemma json_text_text v : Wire.text (json_text v) = toStr v.
Proof. now destruct v. Qed.

Lemma json_text_is_string v s : Wire.is_string (json_text v) s = bool_decide (v = Some s).
Proof.
  destruct v as [t|]; cbn; [|now rewrite bool_decide_eq_false_2].
  destruct (String.eqb_spec t s) as [->|Hne].
  - now rewrite bool_decide_eq_true_2.
  - rewrite bool_decide_eq_false_2; [reflexivity|congruence].
Qed.

(** The fields the handlers read from an encoded body. *)
Lemma json_form_fields b :
  Wire.get (Some (json_form b)) "phone" = json_text (body_phone b)
  ∧ Wire.get (Some (json_form b)) "name" = json_text (body_name b)
  ∧ Wire.get (Some (json_form b)) "email" = json_text (body_email b).
Proof. destruct b as [[p|] [n|] [m|]]; cbn; auto. Qed.

Lemma json_event_fields b :
  Wire.get (Some (json_event b)) "event" = json_text (event b)
  ∧ Wire.truthy (Wire.get (Some (json_event b)) "call") = truthy_obj (call b)
  ∧ Wire.call_field (json_event b) "call_id" = json_text (call b ≫= call_id)
  ∧ Wire.call_field (json_event b) "call_status" = json_text (call b ≫= call_status)
  ∧ Wire.call_field (json_event b) "direction" = None
  ∧ Wire.call_field (json_event b) "disconnection_reason"
    = json_text (call b ≫= disconnection_reason)
  ∧ Wire.call_field (json_event b) "end_timestamp" = json_number (call b ≫= end_timestamp).
Proof.
  destruct b as [[e|] [[[i|] [s|] [r|] st [t|] d tr]|]]; cbn; repeat split; reflexivity.
Qed.

Section Agreement.

Variable E : Env.

Lemma json_state_lookup w k :
  callMap w !! "__proto__" = None →
  match callMap w !! k with
  | Some u => Wire.lookup (Wire.callMap (json_state w)) k = Wire.Stored (json_record u)
  | None =>
      Wire.entries (Wire.callMap (json_state w)) !! k = None
      ∧ Wire.field_email (Wire.lookup (Wire.callMap (json_state w)) k) = None
  end.
Proof.
  intros Hproto. unfold Wire.lookup. cbn. rewrite lookup_fmap.
  destruct (String.eqb_spec k "__proto__") as [->|Hk].
  - now rewrite Hproto.
  - destruct (callMap w !! k); cbn; [reflexivity|]. split; [reflexivity|].
    unfold Wire.builtin. now destruct (bool_decide _).
Qed.

Lemma json_state_with_callMap w m :
  json_state (with_callMap w m)
  = Wire.with_callMap (json_state w)
      {| Wire.entries := json_record <$> m; Wire.prototype := None |}.
Proof. reflexivity. Qed.

(** On an encoded event, in a state that encodes a world without a
    record under ["__proto__"], the webhook answers and does what the
    typed webhook does. *)
Lemma typed_webhook_agrees b w :
  callMap w !! "__proto__" = None →
  Wire.webhook (json_event b) (json_state w)
  = (json_result (result (webhook b) w), json_state (exec (webhook b) w)).
Proof.
  intros Hproto.
  destruct (json_event_fields b) as (Hevent & Hcall & Hid & Hstatus & Hdir & Hreason & Hend).
  assert (Hvalid : Wire.valid_payload (json_event b) = valid_payload b).
  { unfold Wire.valid_payload, valid_payload.
    now rewrite Hevent, Hcall, Hid, !json_text_truthy. }
  assert (Hcompleted : Wire.completed (json_event b) = completed b).
  { unfold Wire.completed, completed.
    now rewrite Hstatus, Hend, json_text_is_string, json_number_truthy. }
  assert (Hlog : forallb Wire.stringifiable (Wire.first_log (json_event b)) = true).
  { unfold Wire.first_log. rewrite Hevent, Hid, Hstatus, Hdir. cbn [forallb].
    now rewrite !json_text_stringifiable. }
  assert (Hkey : Wire.key (json_event b) = toStr (call b ≫= call_id)).
  { unfold Wire.key. now rewrite Hid, json_text_text. }
  rewrite wire_webhook_run. cbv zeta.
  rewrite Hvalid, Hlog, Hcompleted, Hkey, Hevent, Hreason, Hid, json_text_is_string,
    json_text_stringifiable, json_text_text.
  cbn [negb]. unfold result, exec.
  destruct (valid_payload b) eqn:Hv; cbn [negb]; [|now rewrite webhook_invalid].
  destruct (decide (event b = Some "call_ended")) as [He|He].
  2: { rewrite bool_decide_eq_false_2 by assumption. cbn [negb].
       now rewrite webhook_other_event. }
  rewrite bool_decide_eq_true_2 by assumption. cbn [negb].
  pose proof (json_state_lookup w (toStr (call b ≫= call_id)) Hproto) as Hlook.
  destruct (completed b) eqn:Hc.
  - destruct (callMap w !! toStr (call b ≫= call_id)) as [u|] eqn:Hu.
    + rewrite Hlook. cbn [Wire.truthy_found Wire.field_email Wire.field_name json_record
                          Wire.email Wire.name andb].
      rewrite json_text_truthy, !json_text_stringifiable. cbn [andb].
      destruct (truthy (email u)) eqn:Hm.
      * rewrite (webhook_starts_retrieval b w u) by assumption. cbv zeta. cbn [fst snd].
        rewrite He. cbn [toStr default]. f_equal.
        unfold Wire.processed, json_state, Wire.chain_for, Wire.remove. cbn.
        rewrite fmap_delete, json_text_text.
        destruct (email u) as [m|]; [|discriminate]. now destruct (name u).
      * rewrite webhook_skips_retrieval by (try assumption; now rewrite Hu; cbn; rewrite Hm).
        now rewrite He.
    + destruct Hlook as [_ Hnone]. rewrite Hnone. cbn [Wire.truthy andb].
      rewrite andb_false_r.
      rewrite webhook_skips_retrieval by (try assumption; now rewrite Hu).
      now rewrite He.
  - rewrite webhook_call_not_completed by assumption. cbn [fst snd]. rewrite He.
    cbn [toStr default]. f_equal.
    destruct (callMap w !! toStr (call b ≫= call_id)) as [u|] eqn:Hu.
    + rewrite Hlook. cbn [Wire.truthy_found truthy_obj].
      rewrite json_state_with_callMap. unfold Wire.remove. cbn. now rewrite fmap_delete.
    + destruct Hlook as [Habsent _]. cbn [truthy_obj].
      destruct (Wire.truthy_found _); [|reflexivity].
      now rewrite (wire_remove_absent _ _ Habsent), wire_with_callMap_same.
Qed.

(** The same for the initiation handler, when the provider does not
    name the call ["__proto__"]. *)
Lemma typed_initiate_call_agrees b now w :
  createPhoneCall E (created w) ("+91" ++ toStr (body_phone b)) ≠ Some "__proto__" →
  Wire.initiate_call E (json_form b) now (json_state w)
  = (json_result (result (initiate_call E b now) w),
     json_state (exec (initiate_call E b now) w)).
Proof.
  intros Hid.
  destruct (json_form_fields b) as (Hphone & Hname & Hemail).
  rewrite wire_initiate_call_run. cbv zeta.
  rewrite Hphone, Hname, Hemail, !json_text_truthy, !json_text_stringifiable. cbn [andb].
  unfold result, exec.
  destruct (truthy (body_phone b) && truthy (body_email b)) eqn:Hv.
  - rewrite initiate_call_valid by assumption. cbv zeta.
    apply andb_true_iff in Hv as [Hp Hm]. rewrite Hp, Hm. cbn [negb orb].
    destruct (body_phone b) as [p|] eqn:Hbp; [|discriminate].
    change (toStr (Some p)) with p in *.
    change (Wire.str (json_text (Some p))) with (Some p).
    cbn [Wire.created json_state].
    destruct (createPhoneCall E (created w) ("+91" ++ p)) as [id|] eqn:Hc; [|reflexivity].
    cbn [fst snd]. f_equal.
    assert (Hne : String.eqb id "__proto__" = false).
    { apply String.eqb_neq. intros ->. now apply Hid. }
    unfold Wire.with_callMap, Wire.asked, Wire.assign, Wire.record_of.
    rewrite Hne, Hphone, Hname, Hemail. unfold json_state.
    cbn [Wire.callMap Wire.events Wire.tasks Wire.created Wire.retrieved Wire.sent
         Wire.entries Wire.prototype callMap events tasks created retrieved sent].
    now rewrite fmap_insert.
  - rewrite initiate_call_invalid by assumption.
    now destruct (truthy (body_phone b)), (truthy (body_email b)).
Qed.

End Agreement.

(** ** The registry on bodies as they arrive *)

Section WireRegistry.

Variable E : Env.

Lemma wire_remove_registry_ok k m : Wire.registry_ok m → Wire.registry_ok (Wire.remove k m).
Proof.
  intros [Hown Hproto]. split; [|exact Hproto].
  intros id r Hr. cbn in Hr. apply lookup_delete_Some in Hr as [_ Hr]. eauto.
Qed.

(** The handlers store a record only behind the check of its email
    and never rewrite one: whatever bodies arrive, every record has a
    truthy email, and a record that a lookup finds passes the guard of
    the webhook. *)
Lemma wire_handlers_keep_registry_ok b now s :
  Wire.registry_ok (Wire.callMap s) →
  Wire.registry_ok (Wire.callMap (Wire.exec (Wire.initiate_call E b now) s))
  ∧ Wire.registry_ok (Wire.callMap (Wire.exec (Wire.webhook b) s)).
Proof.
  intros Hok. split; unfold Wire.exec.
  - rewrite wire_initiate_call_run. cbv zeta.
    destruct (Wire.truthy (Wire.get (Some b) "phone")); [|exact Hok].
    destruct (Wire.truthy (Wire.get (Some b) "email")) eqn:Hm; [|exact Hok].
    cbn [negb orb]. destruct (Wire.str _); [|exact Hok].
    destruct (createPhoneCall E _ _) as [id|]; [|exact Hok].
    cbn [snd Wire.callMap Wire.with_callMap]. destruct Hok as [Hown Hproto].
    unfold Wire.assign. destruct (String.eqb id "__proto__"); split; cbn.
    + exact Hown.
    + now intros r [= <-].
    + intros id' r. rewrite lookup_insert. case_decide; [now intros [= <-] | apply Hown].
    + exact Hproto.
  - rewrite wire_webhook_run. cbv zeta.
    repeat match goal with
           | |- context [if ?c then _ else _] => destruct c; cbn [snd]; try exact Hok
           end;
      cbn [Wire.callMap Wire.processed Wire.with_callMap];
      now apply wire_remove_registry_ok.
Qed.

Lemma wire_found_record_passes_guard m k r :
  Wire.registry_ok m →
  Wire.lookup m k = Wire.Stored r →
  Wire.truthy_found (Wire.lookup m k) && Wire.truthy (Wire.field_email (Wire.lookup m k))
  = true.
Proof.
  intros [Hown Hproto] Hr. rewrite Hr. cbn. revert Hr. unfold Wire.lookup.
  destruct (String.eqb k "__proto__").
  - destruct (Wire.prototype m) as [r'|] eqn:Hp; [|discriminate].
    intros [= <-]. now apply Hproto.
  - destruct (Wire.entries m !! k) as [r'|] eqn:Hk.
    + intros [= <-]. eauto.
    + destruct (Wire.prototype m);
        repeat match goal with |- context [if ?c then _ else _] => destruct c end;
        unfold Wire.builtin; try destruct (bool_decide _); discriminate.
Qed.

End WireRegistry.

(** * Instances *)

(** A chain whose transcript is ready at the second lookup. *)
Lemma chain_always_ends_witness :
  ∃ w' closing,
    (getTranscriptAndSendEmail "call_1" (Some "ann@x.com") (Some "Ann");;
     event_loop express_config (stub (ready_at 2 "Hello") all_accept) 9) world0 = (Ok tt, w')
    ∧ tasks w' = []
    ∧ (count is_delivery closing ≤ 1)%nat.
Proof.
  assert (H1 : tasks world0 = []) by reflexivity.
  assert (H2 : (2 * Z.to_nat (Z.max 1 (maxRetries express_config)) - 1 ≤ 9)%nat)
    by (vm_compute; lia).
  destruct (chain_always_ends express_config (stub (ready_at 2 "Hello") all_accept) "call_1"
              (Some "ann@x.com") (Some "Ann") world0 9 H1 H2)
    as (w' & j & closing & _ & _ & Hrun & _ & Ht & _ & Hd & _).
  exists w', closing. split; [exact Hrun|]. split; [exact Ht | exact Hd].
Defined.

(** The end of another call leaves Ann's record where it is. *)
Lemma record_changes_witness :
  callMap (serve express_config (stub never_ready all_accept)
             (Webhook (call_ended "call_2")) ann_registered_world) !! "call_1"
  = callMap ann_registered_world !! "call_1".
Proof.
  apply record_changes_only_for_its_call.
  - intros b now H. discriminate H.
  - intros b H. injection H as <-. right. cbn. discriminate.
Defined.

(** [MAX_TRANSCRIPT_RETRIES=0] gives five lookups. *)
Lemma configured_lookups_witness :
  let w' := exec (getTranscriptAndSendEmail "call_1" (Some "ann@x.com") (Some "Ann");;
                  event_loop (config zero_retries) (stub never_ready all_accept) 9) world0 in
  count is_retrieve (events w') = 5%nat ∧ count is_notice (events w') = 1%nat.
Proof.
  intros w'.
  assert (H1 : ∀ n, absent_or_empty (retrieve (stub never_ready all_accept) n "call_1") = true)
    by (intros n; reflexivity).
  assert (H2 : tasks world0 = []) by reflexivity.
  assert (H3 : (2 * lookups_allowed zero_retries - 1 ≤ 9)%nat) by (vm_compute; lia).
  destruct (configured_lookups zero_retries (stub never_ready all_accept) "call_1"
              (Some "ann@x.com") (Some "Ann") world0 9 H1 H2 H3) as (Hr & Hn & _).
  split; [exact Hr | exact Hn].
Defined.

(** Ann's address. *)
Lemma valid_email_witness :
  Utils.sanitizeInput (A := Empty_set) (inl (units "ann@x.com")) = inl (units "ann@x.com").
Proof.
  assert (H : Utils.validateEmail (units "ann@x.com") = true) by (vm_compute; reflexivity).
  exact (proj2 (proj2 (valid_email_is_sanitized (units "ann@x.com") H))).
Defined.

(** Two failures, then 7, with the default budget and delay. *)
Lemma retryWithBackoff_success_witness :
  Utils.retryWithBackoff third_time_lucky (Some 3) (Some 1000)
  = ([Utils.Invoked; Utils.Waited 1000; Utils.Invoked; Utils.Waited 2000; Utils.Invoked],
     Utils.Returned (Some 7)).
Proof.
  assert (H1 : Z.of_nat 2 < 3) by lia.
  assert (H2 : ∀ i, (i < 2)%nat → ∃ e, third_time_lucky i = inr e).
  { intros i Hi. destruct i as [|[|i]]; [now exists "down"..|lia]. }
  destruct (retryWithBackoff_returns_first_success third_time_lucky 3 1000 2 (Some 7) H1 H2 eq_refl)
    as (tr & Hrun & -> & _).
  exact Hrun.
Defined.

(** Three failures with a budget of three. *)
Lemma retryWithBackoff_exhausted_witness :
  Utils.retryWithBackoff always_failing (Some 3) (Some 1000)
  = ([Utils.Invoked; Utils.Waited 1000; Utils.Invoked; Utils.Waited 2000; Utils.Invoked],
     Utils.Thrown 2%nat).
Proof.
  assert (H1 : 0 < 3) by lia.
  assert (H2 : ∀ i, (i < Z.to_nat 3)%nat → ∃ e, always_failing i = inr e)
    by (intros i _; now exists i).
  destruct (retryWithBackoff_throws_last_error always_failing 3 1000 2%nat H1 H2 eq_refl)
    as (tr & Hrun & -> & _).
  exact Hrun.
Defined.

(** One hour, two minutes and five seconds, with a division that does
    not round. *)
Lemma formatDuration_witness :
  ∃ h m s,
    0 ≤ h ∧ 0 ≤ m < 60 ∧ 0 ≤ s < 60
    ∧ 3600 * h + 60 * m + s = 3725000 / 1000
    ∧ Utils.formatDuration exact (Some 3725000)
      = if Z.ltb 0 h then
          Utils.show h ++ units "h " ++ Utils.show m ++ units "m "
          ++ Utils.show s ++ units "s"
        else if Z.ltb 0 m then Utils.show m ++ units "m " ++ Utils.show s ++ units "s"
        else Utils.show s ++ units "s".
Proof. apply (formatDuration_parts exact exact_close exact_whole 3725000). lia. Defined.

(** An identifier. *)
Lemma generateSimpleId_witness :
  Utils.generateSimpleId step_seven = units "07e5-c3a1-8f6d".
Proof.
  assert (H : ∀ i, (step_seven i < 16)%N) by (intros i; apply N.mod_lt; discriminate).
  destruct (generateSimpleId_shape step_seven H) as (g1 & g2 & g3 & Hrun & -> & -> & -> & _).
  exact Hrun.
Defined.

(** Ann's form passes the page and reaches the provider. *)
Lemma accepted_form_witness :
  ∃ r,
    result (initiate_call (stub never_ready all_accept)
              (posted (Some "Ann") (units "9998887776") (units "ann@x.com")) "t0") world0
    = Ok r
    ∧ status r ≠ 400.
Proof.
  assert (H : App.validation_error (units "Ann") (units "9998887776") (units "ann@x.com") = None)
    by (vm_compute; reflexivity).
  destruct (accepted_form_reaches_provider (stub never_ready all_accept) (units "Ann")
              (units "9998887776") (units "ann@x.com") (Some "Ann") "t0" world0 H)
    as (r & Hr & Hs & _).
  exists r. split; [exact Hr | exact Hs].
Defined.

(** ** Instances on bodies as they arrive *)



(** Ann's call fails to connect. *)
Lemma uncompleted_call_witness :
  let s := Wire.ann_registered in
  let s' := Wire.exec (Wire.webhook (Wire.call_failed "call_1" (Wire.JString "dial_failed"))) s in
  Wire.entries (Wire.callMap s) !! "call_1" = Some (Wire.record_of Wire.ann "t0") ∧
  Wire.entries (Wire.callMap s') !! "call_1" = None ∧
  Wire.events s' = Wire.events s ∧ Wire.tasks s' = Wire.tasks s.
Proof.
  intros s s'.
  destruct (proj1 (uncompleted_call_is_unregistered
                     (Wire.call_failed "call_1" (Wire.JString "dial_failed")) s
                     eq_refl eq_refl eq_refl eq_refl) eq_refl)
    as (_ & _ & Hgone & _ & _ & He & Ht & _).
  split; [vm_compute; reflexivity|]. split; [exact Hgone|]. split; [exact He | exact Ht].
Defined.

(** Ann's call fails to connect, and the reason it gives has no string
    conversion: the answer is 500 and her record stays. *)
Lemma unloggable_reason_keeps_record :
  let b := Wire.call_failed "call_1" Wire.unloggable in
  let s := Wire.ann_registered in
  Wire.valid_payload b = true ∧
  Wire.is_string (Wire.get (Some b) "event") "call_ended" = true ∧
  Wire.completed b = false ∧
  Wire.result (Wire.webhook b) s =
    Ok (Wire.Res 500 (Wire.BErrorCall "Internal server error" (Some (Wire.JString "call_1")))) ∧
  Wire.entries (Wire.callMap (Wire.exec (Wire.webhook b) s)) !! "call_1"
    = Some (Wire.record_of Wire.ann "t0").
Proof. vm_compute. auto 6. Qed.

(** Ann's form is stored under the identifier of her call. *)
Lemma initiate_call_stores_witness :
  let s' := Wire.exec (Wire.initiate_call (stub never_ready all_accept) Wire.ann "t0")
              Wire.state0 in
  Wire.lookup (Wire.callMap s') "call_1" = Wire.Stored (Wire.record_of Wire.ann "t0") ∧
  Wire.events s' = [CreatePhoneCall "+919998887776"].
Proof.
  intros s'.
  destruct (initiate_call_stores_record (stub never_ready all_accept) Wire.ann "t0" Wire.state0
              "9998887776" "call_1" eq_refl eq_refl eq_refl eq_refl)
    as (_ & Hown & _ & _ & He & _).
  split; [apply Hown; discriminate | exact He].
Defined.

(** Ann's call is registered and, once it has ended, unregistered. *)
Lemma call_lifecycle_witness :
  let E := stub never_ready all_accept in
  let s1 := Wire.exec (Wire.initiate_call E Wire.ann "t0") Wire.state0 in
  let s2 := Wire.exec (Wire.webhook (Wire.call_ended "call_1")) s1 in
  Wire.activeCallsCount s1 = 1%nat ∧ Wire.callMap s2 = Wire.callMap Wire.state0.
Proof.
  intros E s1 s2.
  assert (Hne : "call_1" ≠ "__proto__") by discriminate.
  assert (Hfresh : Wire.entries (Wire.callMap Wire.state0) !! "call_1" = None) by reflexivity.
  destruct (call_lifecycle_restores_object E Wire.ann "t0" (Wire.call_ended "call_1")
              Wire.state0 "9998887776" "call_1" eq_refl eq_refl eq_refl eq_refl eq_refl
              Hne Hfresh eq_refl eq_refl eq_refl eq_refl eq_refl eq_refl)
    as (Hc & Hm & _).
  split; [exact Hc | exact Hm].
Defined.

(** The provider reports the end of Ann's call twice. *)
Lemma redelivered_call_ended_witness :
  let s1 := Wire.exec (Wire.webhook (Wire.call_ended "call_1")) Wire.ann_registered in
  Wire.webhook (Wire.call_ended "call_1") s1 =
  (Ok (Wire.Res 200 (Wire.BSuccess "Webhook processed for event: call_ended")), s1).
Proof.
  assert (Hne : Wire.key (Wire.call_ended "call_1") ≠ "__proto__") by discriminate.
  assert (Hu : Wire.entries (Wire.callMap Wire.ann_registered)
                 !! Wire.key (Wire.call_ended "call_1") = Some (Wire.record_of Wire.ann "t0"))
    by (vm_compute; reflexivity).
  exact (redelivered_call_ended_starts_nothing (Wire.call_ended "call_1")
           (Wire.call_ended "call_1") Wire.ann_registered (Wire.record_of Wire.ann "t0")
           eq_refl eq_refl eq_refl eq_refl eq_refl Hne Hu eq_refl eq_refl eq_refl
           eq_refl eq_refl eq_refl eq_refl eq_refl).
Defined.

(** The provider reports the start of Ann's call. *)
Lemma other_events_witness :
  Wire.webhook (Wire.call_started "call_1") Wire.ann_registered =
  (Ok (Wire.Res 200 (Wire.BSuccess "Webhook processed for event: call_started")),
   Wire.ann_registered).
Proof.
  exact (other_events_change_nothing (Wire.call_started "call_1") Wire.ann_registered
           eq_refl eq_refl).
Defined.
